(** * Forward pass of the transformer encoder of [us/02-Wed/transformer.py]

    The Python classes are embedded as records with a [forward] function each.
    Tensors are rectangular nested lists of real numbers: the model is the
    exact-arithmetic reading of the float32 program, so rounding and overflow
    are not represented.  The points where the float program produces a value
    that is not a number although its inputs are finite (a division [0/0]) are
    kept: the model stops there with the outcome [NonFinite].  Python
    exceptions are the outcome [Raise].  An empty axis of a nested list hides
    the extents of the axes inside it; statements say so where it matters. *)

From Stdlib Require Import Reals List ZArith Lia Lra Bool PeanoNat.
Import ListNotations.
Local Open Scope R_scope.

(** ** Outcomes of a call *)

Inductive exn : Type :=
| AssertionError
| ZeroDivisionError
| ValueError
| IndexError
| RuntimeError.

Inductive res (A : Type) : Type :=
| Ok (a : A)
| Raise (e : exn)
| NonFinite.

Arguments Ok {A} a.
Arguments Raise {A} e.
Arguments NonFinite {A}.

Definition rbind {A B : Type} (m : res A) (k : A -> res B) : res B :=
  match m with
  | Ok a => k a
  | Raise e => Raise e
  | NonFinite => NonFinite
  end.

Notation "x <- m ;; k" := (rbind m (fun x => k))
  (at level 61, m at next level, right associativity).

Fixpoint mapM {A B : Type} (f : A -> res B) (l : list A) : res (list B) :=
  match l with
  | [] => Ok []
  | a :: l' => b <- f a ;; bs <- mapM f l' ;; Ok (b :: bs)
  end.

Fixpoint mapM2 {A B C : Type} (f : A -> B -> res C)
  (xs : list A) (ys : list B) : res (list C) :=
  match xs, ys with
  | [], [] => Ok []
  | x :: xs', y :: ys' => c <- f x y ;; cs <- mapM2 f xs' ys' ;; Ok (c :: cs)
  | _, _ => Raise RuntimeError
  end.

(** ** Tensors *)

Abbreviation vec := (list R) (only parsing).
Abbreviation mat := (list (list R)) (only parsing).
Abbreviation t3 := (list (list (list R))) (only parsing).
Abbreviation t4 := (list (list (list (list R)))) (only parsing).

Definition sum_list (l : list R) : R := fold_right Rplus 0 l.

Definition dot (a b : vec) : R := sum_list (map (fun p => fst p * snd p) (combine a b)).

(** Broadcasting of one axis, as torch does it: two extents are compatible
    when they are equal or one of them is 1, and the axis of extent 1 is
    repeated. *)
Definition bcast {A B C : Type} (f : A -> B -> res C)
  (xs : list A) (ys : list B) : res (list C) :=
  if (length xs =? length ys)%nat then mapM2 f xs ys
  else match xs, ys with
       | [x], _ => mapM (f x) ys
       | _, [y] => mapM (fun x => f x y) xs
       | _, _ => Raise RuntimeError
       end.

(** The element of [l] that position [i] of a broadcast result reads. *)
Definition bidx {A : Type} (l : list A) (i : nat) : nat :=
  if (length l =? 1)%nat then 0%nat else i.

Module torch.

(** [x.mean(dim=-1)] on one row; [0/0] on an empty row. *)
Definition mean (x : vec) : res R :=
  match x with
  | [] => NonFinite
  | _ :: _ => Ok (sum_list x / INR (length x))
  end.

(** [x.std(dim=-1)] on one row.  torch's default is Bessel's correction
    ([correction=1]): the squared deviations are divided by [n - 1]; with
    [n <= 1] that is [0/0] and the result is not a number. *)
Definition std (x : vec) : res R :=
  match x with
  | [] | [_] => NonFinite
  | _ =>
      let m := sum_list x / INR (length x) in
      Ok (sqrt (sum_list (map (fun xi => (xi - m) * (xi - m)) x)
                / INR (length x - 1)))
  end.

Definition relu (x : R) : R := Rmax 0 x.

(** [x.softmax(dim=-1)] on one row. *)
Definition softmax (x : vec) : vec :=
  map (fun xi => exp xi / sum_list (map exp x)) x.

End torch.

(** ** LayerNormalization *)

Module LayerNormalization.

Record t : Type := mk { eps : R; alpha : R; bias : R }.

(** [__init__(eps = 10**-6)]: [alpha = ones(1)], [bias = zeros(1)]. *)
Definition default_eps : R := / 1000000.
Definition init (eps : R) : t := {| eps := eps; alpha := 1; bias := 0 |}.

(** [forward] on one token (one row of the last axis). *)
Definition forward_token (ln : t) (x : vec) : res vec :=
  match x with
  | [] => Ok []
  | _ :: _ =>
      mean <- torch.mean x ;;
      std <- torch.std x ;;
      Ok (map (fun xi => alpha ln * (xi - mean) / (std + eps ln) + bias ln) x)
  end.

Definition forward (ln : t) (x : t3) : res t3 :=
  mapM (mapM (forward_token ln)) x.

End LayerNormalization.

(** The reading of LayerNorm in the specification's words: the standard
    deviation is the biased one (squared deviations divided by [n]). *)
Definition spec_biased_std (x : vec) : R :=
  let m := sum_list x / INR (length x) in
  sqrt (sum_list (map (fun xi => (xi - m) * (xi - m)) x) / INR (length x)).

Definition spec_LayerNorm_token (ln : LayerNormalization.t) (x : vec) : vec :=
  let m := sum_list x / INR (length x) in
  map (fun xi => LayerNormalization.alpha ln * (xi - m)
                 / (spec_biased_std x + LayerNormalization.eps ln)
                 + LayerNormalization.bias ln) x.

(** Sample mean and Bessel-corrected variance of a row, as plain reals. *)
Definition rmean (x : vec) : R := sum_list x / INR (length x).
Definition rvar (x : vec) : R :=
  sum_list (map (fun xi => (xi - rmean x) * (xi - rmean x)) x) / INR (length x - 1).

(** ** The random stream of dropout

    The only hidden input of a forward call is torch's random generator.  It
    is an explicit stream of keep-decisions; a computation that may draw from
    it passes the stream along. *)

Definition Stream : Type := nat -> bool.
Definition M (A : Type) : Type := Stream -> res (A * Stream).

Definition ret {A : Type} (a : A) : M A := fun s => Ok (a, s).

Definition bind {A B : Type} (m : M A) (k : A -> M B) : M B :=
  fun s =>
    match m s with
    | Ok (a, s') => k a s'
    | Raise e => Raise e
    | NonFinite => NonFinite
    end.

Definition lift {A : Type} (r : res A) : M A :=
  fun s =>
    match r with
    | Ok a => Ok (a, s)
    | Raise e => Raise e
    | NonFinite => NonFinite
    end.

Notation "x <~ m ;; k" := (bind m (fun x => k))
  (at level 61, m at next level, right associativity).

Fixpoint mapS {A B : Type} (f : A -> M B) (l : list A) : M (list B) :=
  match l with
  | [] => ret []
  | a :: l' => b <~ f a ;; bs <~ mapS f l' ;; ret (b :: bs)
  end.

(** ** nn.Dropout *)

Module Dropout.

Record t : Type := mk { p : R }.

(** [nn.Dropout(p)] refuses a probability outside [0, 1]. *)
Definition init (p : R) : res t :=
  if Rlt_dec p 0 then Raise ValueError
  else if Rlt_dec 1 p then Raise ValueError
  else Ok {| p := p |}.

Definition draw : M bool := fun s => Ok (s 0%nat, fun i => s (S i)).

(** One element in training mode: zeroed, or kept and rescaled by
    [1 / (1 - p)].  The stream's decisions are the Bernoulli draws. *)
Definition forward_elem (d : t) (x : R) : M R :=
  keep <~ draw ;; ret (if keep : bool then x / (1 - p d) else 0).

Definition forward3 (training : bool) (d : t) (x : t3) : M t3 :=
  if training then mapS (mapS (mapS (forward_elem d))) x else ret x.

Definition forward4 (training : bool) (d : t) (x : t4) : M t4 :=
  if training then mapS (mapS (mapS (mapS (forward_elem d)))) x else ret x.

End Dropout.

(** ** nn.Linear *)

Module Linear.

(** [weight] has shape [[out_features, in_features]]. *)
Record t : Type :=
  mk { in_features : nat; out_features : nat; weight : mat; bias : vec }.

(** [nn.Linear(in_features, out_features)]; [w0] and [b0] stand for the
    values the initialiser draws. *)
Definition init (in_f out_f : Z) (w0 : nat -> nat -> R) (b0 : nat -> R) : res t :=
  if ((in_f <? 0) || (out_f <? 0))%Z then Raise RuntimeError
  else Ok {| in_features := Z.to_nat in_f;
             out_features := Z.to_nat out_f;
             weight := map (fun i => map (w0 i) (seq 0 (Z.to_nat in_f)))
                           (seq 0 (Z.to_nat out_f));
             bias := map b0 (seq 0 (Z.to_nat out_f)) |}.

Definition forward_token (l : t) (x : vec) : res vec :=
  if (length x =? in_features l)%nat
  then Ok (map (fun wb => dot x (fst wb) + snd wb) (combine (weight l) (bias l)))
  else Raise RuntimeError.

Definition forward (l : t) (x : t3) : res t3 :=
  mapM (mapM (forward_token l)) x.

End Linear.

(** ** InputEmbedding *)

Module InputEmbedding.

(** [embedding] is the table of [nn.Embedding(vocab_size, d_model)]. *)
Record t : Type := mk { d_model : Z; vocab_size : Z; embedding : mat }.

Definition lookup (e : t) (id : Z) : res vec :=
  if ((0 <=? id) && (id <? Z.of_nat (length (embedding e))))%Z
  then Ok (nth (Z.to_nat id) (embedding e) [])
  else Raise IndexError.

Definition math_sqrt (n : Z) : res R :=
  if (n <? 0)%Z then Raise ValueError else Ok (sqrt (IZR n)).

Definition forward (e : t) (x : list (list Z)) : res t3 :=
  emb <- mapM (mapM (lookup e)) x ;;
  c <- math_sqrt (d_model e) ;;
  Ok (map (map (map (fun v => v * c))) emb).

End InputEmbedding.

(** ** PositionalEncoding *)

(** [x.shape[1]] of a rank-3 tensor. *)
Definition shape1 {A : Type} (x : list (list A)) : nat := length (hd [] x).

(** Element-wise sum of two rank-3 tensors with broadcasting. *)
Definition add3 (x y : t3) : res t3 :=
  bcast (bcast (bcast (fun a b => Ok (a + b)))) x y.

(** [len(range(start, n, step))]. *)
Definition slice_len (start step n : nat) : nat :=
  if (n <=? start)%nat then 0%nat else ((n - start + step - 1) / step)%nat.

(** One row of [target[:, start::step] = src]. *)
Definition set_stride (start step : nat) (trow srow : vec) : vec :=
  map (fun jt =>
         let j := fst jt in
         if ((start <=? j) && ((j - start) mod step =? 0))%nat
         then nth (bidx srow ((j - start) / step)) srow 0
         else snd jt)
      (combine (seq 0 (length trow)) trow).

(** [target[:, start::step] = src] for [target] of width [D] and [src] of
    width [K]: the source is broadcast to the slice, so its width is the
    slice's or 1. *)
Definition setitem_cols (start step D K : nat) (target src : mat) : res mat :=
  if ((K =? slice_len start step D) || (K =? 1))%nat
  then mapM2 (fun trow srow => Ok (set_stride start step trow srow)) target src
  else Raise RuntimeError.

Module PositionalEncoding.

(** [positional_encoding] is the registered buffer, of shape
    [[1, seq_len, d_model]]. *)
Record t : Type := mk { dropout : Dropout.t; positional_encoding : t3 }.

Definition zeros (n m : Z) : res mat :=
  if ((n <? 0) || (m <? 0))%Z then Raise RuntimeError
  else Ok (repeat (repeat 0 (Z.to_nat m)) (Z.to_nat n)).

(** [torch.arange(0, d_model, 2).float()] *)
Definition arange2 (d_model : Z) : vec :=
  map (fun k => INR (2 * k)) (seq 0 ((Z.to_nat d_model + 1) / 2)).

Definition init (d_model seq_len : Z) (dropout : R) : res t :=
  dr <- Dropout.init dropout ;;
  pe <- zeros seq_len d_model ;;
  let position := map INR (seq 0 (Z.to_nat seq_len)) in
  c <- (if (d_model =? 0)%Z then Raise ZeroDivisionError
        else Ok (- ln 10000 / IZR d_model)) ;;
  let div_term := map (fun a => exp (a * c)) (arange2 d_model) in
  let D := Z.to_nat d_model in
  let K := length div_term in
  pe <- setitem_cols 0 2 D K pe
          (map (fun pos => map (fun dt => sin (pos * dt)) div_term) position) ;;
  pe <- setitem_cols 1 2 D K pe
          (map (fun pos => map (fun dt => cos (pos * dt)) div_term) position) ;;
  Ok {| dropout := dr; positional_encoding := [pe] |}.

Definition forward (training : bool) (pe : t) (x : t3) : M t3 :=
  y <~ lift (add3 x (map (firstn (shape1 x)) (positional_encoding pe))) ;;
  Dropout.forward3 training (dropout pe) y.

End PositionalEncoding.

(** ** FeedForwardBlock *)

Module FeedForwardBlock.

Record t : Type :=
  mk { linear_1 : Linear.t; dropout : Dropout.t; linear_2 : Linear.t }.

Definition init (d_model d_ff : Z) (dropout : R)
  (w0 : nat -> nat -> nat -> R) (b0 : nat -> nat -> R) : res t :=
  l1 <- Linear.init d_model d_ff (w0 0%nat) (b0 0%nat) ;;
  dr <- Dropout.init dropout ;;
  l2 <- Linear.init d_ff d_model (w0 1%nat) (b0 1%nat) ;;
  Ok {| linear_1 := l1; dropout := dr; linear_2 := l2 |}.

Definition forward (training : bool) (ff : t) (x : t3) : M t3 :=
  a <~ lift (Linear.forward (linear_1 ff) x) ;;
  d <~ Dropout.forward3 training (dropout ff) (map (map (map torch.relu)) a) ;;
  lift (Linear.forward (linear_2 ff) d).

End FeedForwardBlock.

(** ** MultiHeadAttentionBlock *)

Abbreviation mask4 := (list (list (list (list Z)))) (only parsing).

(** [torch.matmul(a, b.transpose(-2, -1))] on the last two axes:
    [a : [n, d]], [b : [m, d]], result [[n, m]]. *)
Definition matmul_nt (a b : mat) : res mat :=
  mapM (fun ai =>
          mapM (fun bj =>
                  if (length ai =? length bj)%nat then Ok (dot ai bj)
                  else Raise RuntimeError) b) a.

(** [torch.matmul(a, b)] on the last two axes: [a : [n, m]], [b : [m, p]]. *)
Definition matmul (a b : mat) : res mat :=
  mapM (fun ai =>
          if (length ai =? length b)%nat
          then Ok (map (fun j => dot ai (map (fun bk => nth j bk 0) b))
                       (seq 0 (length (hd [] b))))
          else Raise RuntimeError) a.

(** [x.shape[-1]] of a rank-4 tensor. *)
Definition shape_last (x : t4) : nat := length (hd [] (hd [] (hd [] x))).

(** Swap of two adjacent axes of a nested list. *)
Definition transpose {A : Type} (d : A) (m : list (list A)) : list (list A) :=
  map (fun j => map (fun row => nth j row d) m) (seq 0 (length (hd [] m))).

(** The [h] consecutive pieces of width [d_k] of one token. *)
Definition chunks (h d_k : nat) (tok : vec) : mat :=
  map (fun i => firstn d_k (skipn (i * d_k) tok)) (seq 0 h).

Definition neg_1e9 : R := - 1000000000.

Module MultiHeadAttentionBlock.

Record t : Type :=
  mk { d_model : Z; h : Z; d_k : Z;
       w_q : Linear.t; w_k : Linear.t; w_v : Linear.t; w_o : Linear.t;
       dropout : Dropout.t }.

Definition init (d_model h : Z) (dropout : R)
  (w0 : nat -> nat -> nat -> R) (b0 : nat -> nat -> R) : res t :=
  r <- (if (h =? 0)%Z then Raise ZeroDivisionError else Ok (d_model mod h)%Z) ;;
  _ <- (if (r =? 0)%Z then Ok tt else Raise AssertionError) ;;
  let d_k := (d_model / h)%Z in
  w_q <- Linear.init d_model d_model (w0 0%nat) (b0 0%nat) ;;
  w_k <- Linear.init d_model d_model (w0 1%nat) (b0 1%nat) ;;
  w_v <- Linear.init d_model d_model (w0 2%nat) (b0 2%nat) ;;
  w_o <- Linear.init d_model d_model (w0 3%nat) (b0 3%nat) ;;
  dr <- Dropout.init dropout ;;
  Ok {| d_model := d_model; h := h; d_k := d_k;
        w_q := w_q; w_k := w_k; w_v := w_v; w_o := w_o; dropout := dr |}.

(** Lines 93-94: [matmul(query, key.transpose(-2, -1)) / math.sqrt(d_k)].
    With [d_k = 0] every score is [0 / 0.0]. *)
Definition attention_scores (query key : t4) : res t4 :=
  let d_k := shape_last query in
  s <- bcast (bcast matmul_nt) query key ;;
  mapM (mapM (mapM (mapM (fun v =>
    if (d_k =? 0)%nat then NonFinite else Ok (v / sqrt (INR d_k)))))) s.

(** Lines 95-96: [masked_fill(mask == 0, -1e9)]. *)
Definition masked_fill (scores : t4) (mask : mask4) : res t4 :=
  bcast (bcast (bcast (bcast
    (fun v m => Ok (if (m =? 0)%Z then neg_1e9 else v))))) scores mask.

Definition apply_mask (scores : t4) (mask : option mask4) : res t4 :=
  match mask with
  | Some m => masked_fill scores m
  | None => Ok scores
  end.

(** Lines 93-97: the weights after the softmax over key positions. *)
Definition attention_weights (query key : t4) (mask : option mask4) : res t4 :=
  s <- attention_scores query key ;;
  s <- apply_mask s mask ;;
  Ok (map (map (map torch.softmax)) s).

(** Lines 93-99: the weights after the optional dropout. *)
Definition attention_probs (training : bool) (query key : t4)
  (mask : option mask4) (dropout : option Dropout.t) : M t4 :=
  w <~ lift (attention_weights query key mask) ;;
  match dropout with
  | Some d => Dropout.forward4 training d w
  | None => ret w
  end.

Definition attention (training : bool) (query key value : t4)
  (mask : option mask4) (dropout : option Dropout.t) : M t4 :=
  w <~ attention_probs training query key mask dropout ;;
  lift (bcast (bcast matmul) w value).

(** [x.view(B, S, h, d_k).transpose(1, 2)] *)
Definition split_heads (h d_k : Z) (x : t3) : res t4 :=
  if ((h <? 0) || (d_k <? 0))%Z then Raise RuntimeError
  else
    v <- mapM (mapM (fun tok =>
           if (length tok =? Z.to_nat h * Z.to_nat d_k)%nat
           then Ok (chunks (Z.to_nat h) (Z.to_nat d_k) tok)
           else Raise RuntimeError)) x ;;
    Ok (map (transpose []) v).

(** [x.transpose(1, 2).contiguous().reshape(B, -1, h * d_k)] *)
Definition merge_heads (h d_k : Z) (x : t4) : res t3 :=
  if (h * d_k <=? 0)%Z then Raise RuntimeError
  else Ok (map (fun xb => map (@concat R) (transpose [] xb)) x).

Definition forward (training : bool) (a : t) (q k v : t3)
  (mask : option mask4) : M t3 :=
  query <~ lift (Linear.forward (w_q a) q) ;;
  key <~ lift (Linear.forward (w_k a) k) ;;
  value <~ lift (Linear.forward (w_v a) v) ;;
  query <~ lift (split_heads (h a) (d_k a) query) ;;
  key <~ lift (split_heads (h a) (d_k a) key) ;;
  value <~ lift (split_heads (h a) (d_k a) value) ;;
  x <~ attention training query key value mask (Some (dropout a)) ;;
  x <~ lift (merge_heads (h a) (d_k a) x) ;;
  lift (Linear.forward (w_o a) x).

End MultiHeadAttentionBlock.

(** ** Residual *)

Module Residual.

Record t : Type := mk { dropout : Dropout.t; norm : LayerNormalization.t }.

Definition init (dropout : R) : res t :=
  dr <- Dropout.init dropout ;;
  Ok {| dropout := dr;
        norm := LayerNormalization.init LayerNormalization.default_eps |}.

Definition forward (training : bool) (r : t) (x : t3) (sublayer : t3 -> M t3) : M t3 :=
  n <~ lift (LayerNormalization.forward (norm r) x) ;;
  y <~ sublayer n ;;
  d <~ Dropout.forward3 training (dropout r) y ;;
  lift (add3 x d).

End Residual.

(** The residual wrapper in the specification's words:
    [x + Dropout(f(LayerNorm(x)))]. *)
Definition spec_ResidualSublayer (training : bool) (r : Residual.t)
  (x : t3) (f : t3 -> M t3) : M t3 :=
  fun s =>
    match LayerNormalization.forward (Residual.norm r) x with
    | Ok normed =>
        match f normed s with
        | Ok (fx, s1) =>
            match Dropout.forward3 training (Residual.dropout r) fx s1 with
            | Ok (dropped, s2) =>
                match add3 x dropped with
                | Ok out => Ok (out, s2)
                | Raise e => Raise e
                | NonFinite => NonFinite
                end
            | Raise e => Raise e
            | NonFinite => NonFinite
            end
        | Raise e => Raise e
        | NonFinite => NonFinite
        end
    | Raise e => Raise e
    | NonFinite => NonFinite
    end.

(** ** EncoderBlock and Encoder *)

Module EncoderBlock.

(** [residual_connections] is the [ModuleList] of exactly two wrappers. *)
Record t : Type :=
  mk { self_attention_block : MultiHeadAttentionBlock.t;
       feed_forward_block : FeedForwardBlock.t;
       residual_connections : Residual.t * Residual.t }.

Definition forward (training : bool) (b : t) (x : t3)
  (src_mask : option mask4) : M t3 :=
  x <~ Residual.forward training (fst (residual_connections b)) x
         (fun x => MultiHeadAttentionBlock.forward training
                     (self_attention_block b) x x x src_mask) ;;
  x <~ Residual.forward training (snd (residual_connections b)) x
         (FeedForwardBlock.forward training (feed_forward_block b)) ;;
  ret x.

End EncoderBlock.

Module Encoder.

Record t : Type := mk { layers : list EncoderBlock.t; norm : LayerNormalization.t }.

Definition init (layers : list EncoderBlock.t) : t :=
  {| layers := layers;
     norm := LayerNormalization.init LayerNormalization.default_eps |}.

Fixpoint run_layers (training : bool) (ls : list EncoderBlock.t) (x : t3)
  (mask : option mask4) : M t3 :=
  match ls with
  | [] => ret x
  | layer :: ls' =>
      x <~ EncoderBlock.forward training layer x mask ;;
      run_layers training ls' x mask
  end.

Definition forward (training : bool) (e : t) (x : t3) (mask : option mask4) : M t3 :=
  x <~ run_layers training (layers e) x mask ;;
  lift (LayerNormalization.forward (norm e) x).

End Encoder.

(** ** The pipeline of the driver (lines 191-193) *)

Record Pipeline : Type :=
  { embedding : InputEmbedding.t;
    pos_encoding : PositionalEncoding.t;
    encoder : Encoder.t }.

Definition pipeline_forward (training : bool) (m : Pipeline)
  (token_ids : list (list Z)) (mask : option mask4) : M t3 :=
  x <~ lift (InputEmbedding.forward (embedding m) token_ids) ;;
  x <~ PositionalEncoding.forward training (pos_encoding m) x ;;
  Encoder.forward training (encoder m) x mask.

(** The outcome of a call without the stream it leaves behind. *)
Definition value_of {A : Type} (r : res (A * Stream)) : res A :=
  match r with
  | Ok (a, _) => Ok a
  | Raise e => Raise e
  | NonFinite => NonFinite
  end.

(** ** Shapes, accessors and fixed instances used in the statements *)

(** [LayerNormalization()] with its default [eps]. *)
Definition ln_default : LayerNormalization.t :=
  LayerNormalization.init LayerNormalization.default_eps.

(** Row-by-row sum of a matrix and a table slice of the same shape. *)
Definition add_rows (xb slice : mat) : mat :=
  map (fun p => map (fun q => fst q + snd q) (combine (fst p) (snd p)))
      (combine xb slice).

(** The table built for [d_model = 2], [seq_len = 1]. *)
Definition pe_one_row : PositionalEncoding.t :=
  {| PositionalEncoding.dropout := {| Dropout.p := 0 |};
     PositionalEncoding.positional_encoding := [[[0; 1]]] |}.

(** A buffer with a table of two rows. *)
Definition pe_two_rows : PositionalEncoding.t :=
  {| PositionalEncoding.dropout := {| Dropout.p := 0 |};
     PositionalEncoding.positional_encoding := [[[0; 1]; [5; 7]]] |}.

(** Broadcast indexing: the entry of [l] read at position [i] of the result. *)
Definition bget {A : Type} (d : A) (l : list A) (i : nat) : A := nth (bidx l i) l d.

(** [rows n P l]: an axis of extent [n] whose entries satisfy [P]. *)
Definition rows {A : Type} (n : nat) (P : A -> Prop) (l : list A) : Prop :=
  length l = n /\ Forall P l.

(** A rectangular rank-4 tensor of shape [[B, H, S, d]]. *)
Definition shape4 {A : Type} (B H S d : nat) (x : list (list (list (list A)))) : Prop :=
  rows B (rows H (rows S (fun r => length r = d))) x.

(** An extent of the mask against the extent of the scores. *)
Definition expands (m n : nat) : Prop := m = n \/ m = 1%nat.

(** The mask entry that position [(b, hd, i, j)] of the scores reads. *)
Definition mask_at (mask : mask4) (b hd i j : nat) : Z :=
  bget 1%Z (bget [] (bget [] (bget [] mask b) hd) i) j.

(** Entry and row of a rank-4 tensor, entry of a rank-3 tensor. *)
Definition at4 (x : t4) (b hd i j : nat) : R :=
  nth j (nth i (nth hd (nth b x []) []) []) 0.

Definition row4 (x : t4) (b hd i : nat) : list R :=
  nth i (nth hd (nth b x []) []) [].

(** A rectangular rank-3 tensor of shape [[B, S, D]]. *)
Definition shape3 {A : Type} (B S D : nat) (x : list (list (list A))) : Prop :=
  rows B (rows S (fun r => length r = D)) x.

Definition at3 (x : t3) (b i j : nat) : R := nth j (nth i (nth b x []) []) 0.

(** [Residual(0.0)] *)
Definition residual_default : Residual.t :=
  {| Residual.dropout := {| Dropout.p := 0 |}; Residual.norm := ln_default |}.

(** A computation that neither reads nor advances the random stream. *)
Definition stream_independent {A : Type} (m : M A) : Prop :=
  exists v : res A, forall s, m s = lift v s.

(** ** Well-formed modules

    The shapes that the constructors give to the weights, as predicates on
    the records. *)

(** [weight : [out_features, in_features]], [bias : [out_features]]. *)
Definition Linear_wf (l : Linear.t) : Prop :=
  rows (Linear.out_features l) (fun r => length r = Linear.in_features l)
       (Linear.weight l) /\
  length (Linear.bias l) = Linear.out_features l.

(** A feed-forward block from [d_model] to some hidden width and back. *)
Definition FeedForwardBlock_wf (D : nat) (ff : FeedForwardBlock.t) : Prop :=
  Linear_wf (FeedForwardBlock.linear_1 ff) /\
  Linear_wf (FeedForwardBlock.linear_2 ff) /\
  Linear.in_features (FeedForwardBlock.linear_1 ff) = D /\
  Linear.in_features (FeedForwardBlock.linear_2 ff)
  = Linear.out_features (FeedForwardBlock.linear_1 ff) /\
  Linear.out_features (FeedForwardBlock.linear_2 ff) = D.

(** An attention block of width [D] with a positive number of heads. *)
Definition MultiHeadAttentionBlock_wf (D : nat) (a : MultiHeadAttentionBlock.t) : Prop :=
  (0 < MultiHeadAttentionBlock.h a)%Z /\
  (0 < MultiHeadAttentionBlock.d_k a)%Z /\
  (Z.to_nat (MultiHeadAttentionBlock.h a) * Z.to_nat (MultiHeadAttentionBlock.d_k a)
   = D)%nat /\
  Forall (fun l => Linear_wf l /\ Linear.in_features l = D /\ Linear.out_features l = D)
         [MultiHeadAttentionBlock.w_q a; MultiHeadAttentionBlock.w_k a;
          MultiHeadAttentionBlock.w_v a; MultiHeadAttentionBlock.w_o a].

(** A mask that is absent, or expands to scores of shape [[B, H, Sq, Sk]]. *)
Definition mask_fits (B H Sq Sk : nat) (mask : option mask4) : Prop :=
  match mask with
  | None => True
  | Some m =>
      exists mb mh mq mk,
        shape4 mb mh mq mk m /\
        expands mb B /\ expands mh H /\ expands mq Sq /\ expands mk Sk
  end.

Definition EncoderBlock_wf (D : nat) (b : EncoderBlock.t) : Prop :=
  MultiHeadAttentionBlock_wf D (EncoderBlock.self_attention_block b) /\
  FeedForwardBlock_wf D (EncoderBlock.feed_forward_block b).

(** The number of heads of a layer, as an extent. *)
Definition heads_of (b : EncoderBlock.t) : nat :=
  Z.to_nat (MultiHeadAttentionBlock.h (EncoderBlock.self_attention_block b)).

(** One token through the feed-forward block in evaluation mode. *)
Definition FeedForwardBlock_token (ff : FeedForwardBlock.t) (tok : vec) : res vec :=
  hid <- Linear.forward_token (FeedForwardBlock.linear_1 ff) tok ;;
  Linear.forward_token (FeedForwardBlock.linear_2 ff) (map torch.relu hid).

(** A small pipeline: vocabulary of two ids, width 2, a positional table of
    two rows and one encoder layer made of the given blocks. *)
Definition pipeline_small (a : MultiHeadAttentionBlock.t) (ff : FeedForwardBlock.t)
  : Pipeline :=
  {| embedding := {| InputEmbedding.d_model := 2; InputEmbedding.vocab_size := 2;
                     InputEmbedding.embedding := [[1; 2]; [3; 4]] |};
     pos_encoding := pe_two_rows;
     encoder := Encoder.init
                  [ {| EncoderBlock.self_attention_block := a;
                       EncoderBlock.feed_forward_block := ff;
                       EncoderBlock.residual_connections :=
                         (residual_default, residual_default) |} ] |}.

(** * Properties *)

(** ** Sums over rows *)

Lemma sum_list_map_ext (f g : R -> R) (l : vec) :
  (forall a, In a l -> f a = g a) ->
  sum_list (map f l) = sum_list (map g l).
Proof.
  intros H. f_equal. apply map_ext_in. exact H.
Qed.

Lemma sum_list_cons (a : R) (l : vec) : sum_list (a :: l) = a + sum_list l.
Proof. reflexivity. Qed.

Lemma sum_list_map_minus (m : R) (l : vec) :
  sum_list (map (fun a => a - m) l) = sum_list l - INR (length l) * m.
Proof.
  induction l as [|a l IH].
  - simpl. lra.
  - change (length (a :: l)) with (S (length l)). rewrite S_INR.
    rewrite map_cons, !sum_list_cons, IH. lra.
Qed.

Lemma sum_list_map_div (f : R -> R) (c : R) (l : vec) :
  sum_list (map (fun a => f a / c) l) = sum_list (map f l) / c.
Proof.
  induction l as [|a l IH].
  - simpl. unfold Rdiv. lra.
  - rewrite !map_cons, !sum_list_cons, IH. unfold Rdiv. lra.
Qed.

Lemma sum_list_squares_nonneg (m : R) (l : vec) :
  0 <= sum_list (map (fun a => (a - m) * (a - m)) l).
Proof.
  induction l as [|a l IH].
  - simpl. lra.
  - rewrite map_cons, sum_list_cons.
    pose proof (Rle_0_sqr (a - m)) as Hsq. unfold Rsqr in Hsq. lra.
Qed.

Lemma sum_list_centered (l : vec) :
  l <> [] -> sum_list (map (fun a => a - rmean l) l) = 0.
Proof.
  intros Hl. rewrite sum_list_map_minus. unfold rmean.
  assert (0 < INR (length l)).
  { apply lt_0_INR. destruct l; [congruence | simpl; lia]. }
  field. lra.
Qed.

Lemma rvar_nonneg (l : vec) : (2 <= length l)%nat -> 0 <= rvar l.
Proof.
  intros Hl. unfold rvar.
  apply Rmult_le_pos.
  - apply sum_list_squares_nonneg.
  - left. apply Rinv_0_lt_compat. apply lt_0_INR. lia.
Qed.

Lemma std_unbiased (x : vec) :
  (2 <= length x)%nat -> torch.std x = Ok (sqrt (rvar x)).
Proof.
  destruct x as [|a [|b x]]; simpl; try lia. reflexivity.
Qed.

Lemma mean_nonempty (x : vec) :
  (1 <= length x)%nat -> torch.mean x = Ok (rmean x).
Proof.
  destruct x; simpl; try lia. reflexivity.
Qed.

Lemma forward_token_closed (ln : LayerNormalization.t) (x : vec) :
  (2 <= length x)%nat ->
  LayerNormalization.forward_token ln x =
  Ok (map (fun xi => LayerNormalization.alpha ln * (xi - rmean x)
                     / (sqrt (rvar x) + LayerNormalization.eps ln)
                     + LayerNormalization.bias ln) x).
Proof.
  intros Hl. unfold LayerNormalization.forward_token.
  rewrite std_unbiased by exact Hl.
  rewrite mean_nonempty by lia.
  destruct x; [simpl in Hl; lia | reflexivity].
Qed.

Lemma sum_list_repeat (c : R) (n : nat) : sum_list (repeat c n) = INR n * c.
Proof.
  induction n as [|n IH].
  - simpl. lra.
  - rewrite S_INR. change (repeat c (S n)) with (c :: repeat c n).
    rewrite sum_list_cons, IH. lra.
Qed.





(** ** LayerNormalization *)

Lemma default_eps_pos : 0 < LayerNormalization.default_eps.
Proof.
  unfold LayerNormalization.default_eps. apply Rinv_0_lt_compat. lra.
Qed.

Lemma rmean_0_2 : rmean [0; 2] = 1.
Proof. unfold rmean. simpl. field. Qed.

Lemma rvar_0_2 : rvar [0; 2] = 2.
Proof. unfold rvar. rewrite rmean_0_2. simpl. field. Qed.

Lemma spec_biased_std_0_2 : spec_biased_std [0; 2] = 1.
Proof.
  unfold spec_biased_std. fold (rmean [0; 2]). rewrite rmean_0_2.
  transitivity (sqrt 1); [f_equal; simpl; field | apply sqrt_1].
Qed.

(** C1, as stated, fails: on the token [[0; 2]] the source divides by
    [sqrt 2 + eps] (torch's [std] uses Bessel's correction), the claim's
    biased deviation gives [1 + eps]. *)
Lemma LayerNorm_biased_std_counterexample :
  LayerNormalization.forward_token ln_default [0; 2]
  <> Ok (spec_LayerNorm_token ln_default [0; 2]).
Proof.
  rewrite forward_token_closed by (simpl; lia).
  unfold spec_LayerNorm_token. fold (rmean [0; 2]).
  rewrite rmean_0_2, rvar_0_2, spec_biased_std_0_2.
  cbn [map]. intros H. injection H as _ H.
  cbn [LayerNormalization.alpha LayerNormalization.bias LayerNormalization.eps
       ln_default LayerNormalization.init] in H.
  pose proof default_eps_pos as He.
  set (e := LayerNormalization.default_eps) in *.
  assert (Hs : 1 < sqrt 2).
  { rewrite <- sqrt_1 at 1. apply sqrt_lt_1; lra. }
  assert (Hq : / (sqrt 2 + e) = / (1 + e)).
  { assert (Ha : 1 * (2 - 1) / (sqrt 2 + e) + 0 = / (sqrt 2 + e)) by (field; lra).
    assert (Hb : 1 * (2 - 1) / (1 + e) + 0 = / (1 + e)) by (field; lra).
    rewrite <- Ha, <- Hb. exact H. }
  apply Rinv_eq_reg in Hq. lra.
Qed.

(** C1 (amended): for a token of at least two features LayerNorm returns
    [alpha * (x - mean) / (std + eps) + bias] with the per-token mean and the
    Bessel-corrected (divide by [n - 1]) standard deviation, [alpha] and
    [bias] being single scalars.  Before the scalar affine step the token has
    mean exactly 0 and Bessel-corrected variance [(std / (std + eps))^2],
    which lies below 1 by at most [2 * eps / (std + eps)]. *)
Theorem LayerNorm_forward_unbiased_std (ln : LayerNormalization.t) (x : vec) :
  (2 <= length x)%nat ->
  0 < LayerNormalization.eps ln ->
  let m := rmean x in
  let s := sqrt (rvar x) in
  let e := LayerNormalization.eps ln in
  let y := map (fun xi => (xi - m) / (s + e)) x in
  torch.mean x = Ok m /\
  torch.std x = Ok s /\
  LayerNormalization.forward_token ln x =
    Ok (map (fun xi => LayerNormalization.alpha ln * (xi - m) / (s + e)
                       + LayerNormalization.bias ln) x) /\
  rmean y = 0 /\
  rvar y = (s / (s + e)) * (s / (s + e)) /\
  0 <= 1 - rvar y <= 2 * e / (s + e).
Proof.
  intros Hl He m s e y.
  assert (Hs : 0 <= s) by apply sqrt_pos.
  assert (Hse : 0 < s + e) by (unfold e; lra).
  assert (Hss : s * s = rvar x) by (apply sqrt_sqrt, rvar_nonneg, Hl).
  assert (Hx : x <> []) by (destruct x; [simpl in Hl; lia | congruence]).
  assert (Hmean : rmean y = 0).
  { unfold rmean, y. rewrite sum_list_map_div.
    unfold m. rewrite sum_list_centered by exact Hx.
    unfold Rdiv. lra. }
  assert (Hvar : rvar y = (s / (s + e)) * (s / (s + e))).
  { unfold rvar. rewrite Hmean. unfold y at 1 2.
    rewrite map_map, length_map.
    rewrite (sum_list_map_ext _
               (fun xi => (xi - m) * (xi - m) / ((s + e) * (s + e)))).
    2:{ intros a _. field. lra. }
    rewrite sum_list_map_div.
    assert (Hn : 0 < INR (length x - 1)) by (apply lt_0_INR; lia).
    replace (sum_list (map (fun xi => (xi - m) * (xi - m)) x)
             / ((s + e) * (s + e)) / INR (length x - 1))
      with (sum_list (map (fun xi => (xi - m) * (xi - m)) x)
            / INR (length x - 1) / ((s + e) * (s + e))) by (field; lra).
    change (sum_list (map (fun xi => (xi - m) * (xi - m)) x)
            / INR (length x - 1)) with (rvar x).
    rewrite <- Hss. field. lra. }
  repeat split.
  - apply mean_nonempty. lia.
  - apply std_unbiased, Hl.
  - apply forward_token_closed, Hl.
  - exact Hmean.
  - exact Hvar.
  - rewrite Hvar.
    assert (H1 : 1 - s / (s + e) * (s / (s + e))
                 = e * (2 * s + e) / ((s + e) * (s + e))) by (field; lra).
    rewrite H1. apply Rmult_le_pos.
    + apply Rmult_le_pos; unfold e; lra.
    + left. apply Rinv_0_lt_compat. nra.
  - rewrite Hvar.
    assert (H1 : 2 * e / (s + e) - (1 - s / (s + e) * (s / (s + e)))
                 = e * e / ((s + e) * (s + e))) by (field; lra).
    assert (0 <= e * e / ((s + e) * (s + e))).
    { apply Rmult_le_pos; [nra|]. left. apply Rinv_0_lt_compat. nra. }
    lra.
Qed.

Lemma LayerNorm_forward_unbiased_std_witness :
  let x := [0; 2] in
  let y := map (fun xi => (xi - rmean x)
                          / (sqrt (rvar x) + LayerNormalization.eps ln_default)) x in
  (2 <= length x)%nat /\ rmean y = 0.
Proof.
  split; [simpl; lia|].
  apply (LayerNorm_forward_unbiased_std ln_default [0; 2]).
  - simpl; lia.
  - exact default_eps_pos.
Defined.




(** ** Lists built by [mapM2] *)


Lemma mapM2_pure_ok (A B C : Type) (g : A -> B -> C) (xs : list A) (ys : list B) :
  length xs = length ys ->
  mapM2 (fun a b => Ok (g a b)) xs ys
  = Ok (map (fun p => g (fst p) (snd p)) (combine xs ys)).
Proof.
  revert ys. induction xs as [|x xs IH]; intros [|y ys] H; simpl in H;
    try discriminate; [reflexivity|].
  simpl. rewrite IH by congruence. reflexivity.
Qed.

(** ** PositionalEncoding *)

Lemma set_stride_length (start step : nat) (trow srow : vec) :
  length (set_stride start step trow srow) = length trow.
Proof.
  unfold set_stride. rewrite length_map, length_combine, length_seq. lia.
Qed.

Lemma set_stride_nth (start step : nat) (trow srow : vec) (j : nat) :
  (j < length trow)%nat ->
  nth j (set_stride start step trow srow) 0 =
  if ((start <=? j) && ((j - start) mod step =? 0))%nat
  then nth (bidx srow ((j - start) / step)) srow 0
  else nth j trow 0.
Proof.
  intros Hj. unfold set_stride.
  rewrite (nth_indep _ 0 ((fun jt : nat * R =>
     if ((start <=? fst jt) && ((fst jt - start) mod step =? 0))%nat
     then nth (bidx srow ((fst jt - start) / step)) srow 0 else snd jt) (0%nat, 0))).
  2:{ rewrite length_map, length_combine, length_seq. lia. }
  rewrite (map_nth (fun jt : nat * R =>
     if ((start <=? fst jt) && ((fst jt - start) mod step =? 0))%nat
     then nth (bidx srow ((fst jt - start) / step)) srow 0 else snd jt)).
  rewrite combine_nth by (rewrite length_seq; reflexivity).
  rewrite seq_nth by exact Hj. reflexivity.
Qed.

Lemma nth_map_seq (A : Type) (f : nat -> A) (n i : nat) (d : A) :
  (i < n)%nat -> nth i (map f (seq 0 n)) d = f i.
Proof.
  intros Hi. rewrite (nth_indep _ d (f 0%nat)) by (rewrite length_map, length_seq; exact Hi).
  rewrite (map_nth f). rewrite seq_nth by exact Hi. reflexivity.
Qed.

Lemma nth_map_in (A B : Type) (f : A -> B) (l : list A) (i : nat) (da : A) (db : B) :
  (i < length l)%nat -> nth i (map f l) db = f (nth i l da).
Proof.
  intros Hi. rewrite (nth_indep _ db (f da)) by (rewrite length_map; exact Hi).
  apply map_nth.
Qed.

Lemma setitem_rows_nth (start step : nat) (ts ss : mat) (pos : nat) :
  length ts = length ss -> (pos < length ts)%nat ->
  nth pos (map (fun p => set_stride start step (fst p) (snd p)) (combine ts ss)) []
  = set_stride start step (nth pos ts []) (nth pos ss []).
Proof.
  intros Hlen Hpos.
  rewrite nth_map_in with (da := (@nil R, @nil R))
    by (rewrite length_combine; lia).
  rewrite combine_nth by exact Hlen. reflexivity.
Qed.

Lemma div_term_power (i : nat) (d : Z) (pos : R) :
  d <> 0%Z ->
  pos * exp (INR (2 * i) * (- ln 10000 / IZR d))
  = pos / Rpower 10000 (INR (2 * i) / IZR d).
Proof.
  intros Hd. unfold Rpower, Rdiv at 2.
  rewrite <- exp_Ropp. do 2 f_equal.
  field. apply not_0_IZR, Hd.
Qed.

(** C2: whenever the constructor returns, the buffer is one table of
    [seq_len] rows and [d_model] columns, filled once, whose entry at
    position [pos] and even column [2i] is [sin (pos / 10000^(2i/d_model))]
    and whose entry at odd column [2i+1] is [cos (pos / 10000^(2i/d_model))],
    for every column inside the table. *)
Theorem PositionalEncoding_table_sinusoid
  (d_model seq_len : Z) (dropout : R) (pe : PositionalEncoding.t) :
  PositionalEncoding.init d_model seq_len dropout = Ok pe ->
  exists table,
    PositionalEncoding.positional_encoding pe = [table] /\
    length table = Z.to_nat seq_len /\
    forall pos i, (pos < Z.to_nat seq_len)%nat ->
      length (nth pos table []) = Z.to_nat d_model /\
      ((2 * i < Z.to_nat d_model)%nat ->
       nth (2 * i) (nth pos table []) 0
       = sin (INR pos / Rpower 10000 (INR (2 * i) / IZR d_model))) /\
      ((2 * i + 1 < Z.to_nat d_model)%nat ->
       nth (2 * i + 1) (nth pos table []) 0
       = cos (INR pos / Rpower 10000 (INR (2 * i) / IZR d_model))).
Proof.
  unfold PositionalEncoding.init. intros H.
  destruct (Dropout.init dropout) as [dr| |]; simpl in H; try discriminate.
  unfold PositionalEncoding.zeros in H.
  destruct ((seq_len <? 0) || (d_model <? 0))%Z eqn:Hneg; simpl in H;
    try discriminate.
  destruct (d_model =? 0)%Z eqn:Hd0; simpl in H; try discriminate.
  apply Z.eqb_neq in Hd0.
  set (D := Z.to_nat d_model) in *. set (L := Z.to_nat seq_len) in *.
  set (c := - ln 10000 / IZR d_model) in *.
  set (div_term := map (fun a => exp (a * c)) (PositionalEncoding.arange2 d_model)) in *.
  set (K := length div_term) in *.
  set (position := map INR (seq 0 L)) in *.
  unfold setitem_cols in H.
  destruct ((K =? slice_len 0 2 D) || (K =? 1))%nat; simpl in H; try discriminate.
  rewrite mapM2_pure_ok in H
    by (unfold position; rewrite repeat_length, !length_map, length_seq; reflexivity).
  simpl in H.
  destruct ((K =? slice_len 1 2 D) || (K =? 1))%nat; simpl in H; try discriminate.
  rewrite mapM2_pure_ok in H
    by (unfold position;
        rewrite !length_map, length_combine, repeat_length, !length_map, length_seq;
        lia).
  simpl in H. injection H as <-.
  cbn [PositionalEncoding.positional_encoding].
  eexists. split; [reflexivity|].
  assert (HK : K = ((D + 1) / 2)%nat).
  { unfold K, div_term, PositionalEncoding.arange2.
    rewrite !length_map, length_seq. reflexivity. }
  assert (Hdt : forall i, (i < K)%nat -> nth i div_term 0 = exp (INR (2 * i) * c)).
  { intros i Hi. unfold div_term, PositionalEncoding.arange2.
    rewrite map_map. rewrite HK in Hi.
    apply (nth_map_seq _ (fun k => exp (INR (2 * k) * c))). exact Hi. }
  assert (Hlen_pos : length position = L)
    by (unfold position; rewrite length_map, length_seq; reflexivity).
  split.
  { rewrite !length_map, !length_combine, !length_map, !length_combine,
      repeat_length, !length_map, Hlen_pos. lia. }
  intros pos i Hpos. change (pos < L)%nat in Hpos.
  rewrite setitem_rows_nth.
  2:{ rewrite !length_map, !length_combine, repeat_length, !length_map, Hlen_pos. lia. }
  2:{ rewrite !length_map, !length_combine, repeat_length, !length_map, Hlen_pos. lia. }
  rewrite setitem_rows_nth.
  2:{ rewrite repeat_length, !length_map, Hlen_pos. lia. }
  2:{ rewrite repeat_length. exact Hpos. }
  rewrite nth_repeat_lt by exact Hpos.
  rewrite !(nth_map_in _ _ _ position pos 0) by (rewrite Hlen_pos; exact Hpos).
  assert (Hp : nth pos position 0 = INR pos).
  { unfold position. apply nth_map_seq. exact Hpos. }
  rewrite Hp.
  split; [rewrite !set_stride_length, repeat_length; reflexivity|].
  split.
  - intros Hi. change (2 * i < D)%nat in Hi.
    rewrite set_stride_nth by (rewrite set_stride_length, repeat_length; lia).
    replace ((1 <=? 2 * i) && ((2 * i - 1) mod 2 =? 0))%nat with false.
    2:{ symmetry. apply andb_false_iff.
        destruct i as [|i]; [left; reflexivity|right].
        apply Nat.eqb_neq.
        replace (2 * S i - 1)%nat with (1 + i * 2)%nat by lia.
        rewrite Nat.Div0.mod_add. simpl. lia. }
    rewrite set_stride_nth by (rewrite repeat_length; lia).
    replace ((0 <=? 2 * i) && ((2 * i - 0) mod 2 =? 0))%nat with true.
    2:{ symmetry. apply andb_true_iff. split; [reflexivity|].
        apply Nat.eqb_eq. rewrite Nat.sub_0_r, Nat.mul_comm.
        apply Nat.Div0.mod_mul. }
    replace ((2 * i - 0) / 2)%nat with i
      by (rewrite Nat.sub_0_r, Nat.mul_comm, Nat.div_mul; lia).
    assert (HiK : (i < K)%nat).
    { rewrite HK. apply Nat.div_le_lower_bound; lia. }
    assert (Hb : bidx (map (fun dt => sin (INR pos * dt)) div_term) i = i).
    { unfold bidx. rewrite length_map. fold K.
      destruct (K =? 1)%nat eqn:E; [apply Nat.eqb_eq in E; lia | reflexivity]. }
    rewrite Hb.
    rewrite (nth_indep _ 0 ((fun dt => sin (INR pos * dt)) 0))
      by (rewrite length_map; exact HiK).
    rewrite (map_nth (fun dt => sin (INR pos * dt))).
    rewrite Hdt by exact HiK. unfold c.
    rewrite div_term_power by exact Hd0. reflexivity.
  - intros Hi. change (2 * i + 1 < D)%nat in Hi.
    rewrite set_stride_nth by (rewrite set_stride_length, repeat_length; lia).
    replace ((1 <=? 2 * i + 1) && ((2 * i + 1 - 1) mod 2 =? 0))%nat with true.
    2:{ symmetry. apply andb_true_iff. split; [apply Nat.leb_le; lia|].
        apply Nat.eqb_eq.
        replace (2 * i + 1 - 1)%nat with (i * 2)%nat by lia.
        apply Nat.Div0.mod_mul. }
    replace ((2 * i + 1 - 1) / 2)%nat with i.
    2:{ replace (2 * i + 1 - 1)%nat with (i * 2)%nat by lia.
        rewrite Nat.div_mul; lia. }
    assert (HiK : (i < K)%nat).
    { rewrite HK. apply Nat.div_le_lower_bound; lia. }
    assert (Hb : bidx (map (fun dt => cos (INR pos * dt)) div_term) i = i).
    { unfold bidx. rewrite length_map. fold K.
      destruct (K =? 1)%nat eqn:E; [apply Nat.eqb_eq in E; lia | reflexivity]. }
    rewrite Hb.
    rewrite (nth_indep _ 0 ((fun dt => cos (INR pos * dt)) 0))
      by (rewrite length_map; exact HiK).
    rewrite (map_nth (fun dt => cos (INR pos * dt))).
    rewrite Hdt by exact HiK. unfold c.
    rewrite div_term_power by exact Hd0. reflexivity.
Qed.

Lemma arange2_length (d_model : Z) :
  length (PositionalEncoding.arange2 d_model) = ((Z.to_nat d_model + 1) / 2)%nat.
Proof.
  unfold PositionalEncoding.arange2. rewrite length_map, length_seq. reflexivity.
Qed.

Lemma Dropout_init_ok (p : R) :
  0 <= p <= 1 -> Dropout.init p = Ok {| Dropout.p := p |}.
Proof.
  intros [H0 H1]. unfold Dropout.init.
  destruct (Rlt_dec p 0); [lra|].
  destruct (Rlt_dec 1 p); [lra|]. reflexivity.
Qed.

(** The constructor returns for every even positive [d_model] (and for
    [d_model = 1]); with an odd [d_model >= 3] the assignment of the cosine
    columns has a source wider than the slice and raises. *)
Lemma PositionalEncoding_init_ok (d_model seq_len : Z) (dropout : R) :
  (0 < d_model)%Z -> (d_model mod 2 = 0 \/ d_model = 1)%Z ->
  (0 <= seq_len)%Z -> 0 <= dropout <= 1 ->
  exists pe, PositionalEncoding.init d_model seq_len dropout = Ok pe.
Proof.
  intros Hd Hev Hl Hp. unfold PositionalEncoding.init.
  rewrite Dropout_init_ok by exact Hp. cbn [rbind].
  unfold PositionalEncoding.zeros.
  replace ((seq_len <? 0) || (d_model <? 0))%Z with false
    by (symmetry; apply orb_false_iff; split; apply Z.ltb_ge; lia).
  cbn [rbind].
  replace (d_model =? 0)%Z with false by (symmetry; apply Z.eqb_neq; lia).
  cbn [rbind]. unfold setitem_cols.
  rewrite !length_map, !arange2_length.
  replace (((Z.to_nat d_model + 1) / 2 =? slice_len 0 2 (Z.to_nat d_model))
           || ((Z.to_nat d_model + 1) / 2 =? 1))%nat with true.
  2:{ symmetry. apply orb_true_iff. left. apply Nat.eqb_eq. unfold slice_len.
      destruct (Z.to_nat d_model <=? 0)%nat eqn:E;
        [apply Nat.leb_le in E; lia|].
      f_equal. lia. }
  rewrite mapM2_pure_ok
    by (rewrite repeat_length, !length_map, length_seq; reflexivity).
  cbn [rbind].
  replace (((Z.to_nat d_model + 1) / 2 =? slice_len 1 2 (Z.to_nat d_model))
           || ((Z.to_nat d_model + 1) / 2 =? 1))%nat with true.
  2:{ symmetry. apply orb_true_iff. destruct Hev as [Hev | ->].
      - left. apply Nat.eqb_eq. unfold slice_len.
        assert (Hk : Z.to_nat d_model = (2 * Z.to_nat (d_model / 2))%nat).
        { pose proof (Z.div_mod d_model 2). lia. }
        assert (Hk1 : (1 <= Z.to_nat (d_model / 2))%nat).
        { pose proof (Z.div_mod d_model 2). lia. }
        destruct (Z.to_nat d_model <=? 1)%nat eqn:E;
          [apply Nat.leb_le in E; lia|].
        apply Nat.leb_gt in E.
        replace (Z.to_nat d_model - 1 + 2 - 1)%nat with (Z.to_nat d_model) by lia.
        rewrite Hk.
        replace (2 * Z.to_nat (d_model / 2) + 1)%nat
          with (1 + Z.to_nat (d_model / 2) * 2)%nat by lia.
        rewrite Nat.div_add by lia.
        rewrite (Nat.mul_comm 2), Nat.div_mul by lia. reflexivity.
      - right. reflexivity. }
  rewrite mapM2_pure_ok.
  - cbn [rbind]. eexists. reflexivity.
  - rewrite !length_map, length_combine, repeat_length, !length_map, length_seq. lia.
Qed.

Lemma PositionalEncoding_init_odd (d_model seq_len : Z) (dropout : R) :
  (3 <= d_model)%Z -> (d_model mod 2 = 1)%Z ->
  (0 <= seq_len)%Z -> 0 <= dropout <= 1 ->
  PositionalEncoding.init d_model seq_len dropout = Raise RuntimeError.
Proof.
  intros Hd Hodd Hl Hp. unfold PositionalEncoding.init.
  rewrite Dropout_init_ok by exact Hp. cbn [rbind].
  unfold PositionalEncoding.zeros.
  replace ((seq_len <? 0) || (d_model <? 0))%Z with false
    by (symmetry; apply orb_false_iff; split; apply Z.ltb_ge; lia).
  cbn [rbind].
  replace (d_model =? 0)%Z with false by (symmetry; apply Z.eqb_neq; lia).
  cbn [rbind]. unfold setitem_cols.
  rewrite !length_map, !arange2_length.
  assert (Hk : Z.to_nat d_model = (1 + Z.to_nat (d_model / 2) * 2)%nat).
  { pose proof (Z.div_mod d_model 2). lia. }
  assert (Hk1 : (1 <= Z.to_nat (d_model / 2))%nat).
  { pose proof (Z.div_mod d_model 2). lia. }
  assert (HK : ((Z.to_nat d_model + 1) / 2 = Z.to_nat (d_model / 2) + 1)%nat).
  { rewrite Hk.
    replace (1 + Z.to_nat (d_model / 2) * 2 + 1)%nat
      with ((Z.to_nat (d_model / 2) + 1) * 2)%nat by lia.
    apply Nat.div_mul. lia. }
  rewrite HK.
  replace ((Z.to_nat (d_model / 2) + 1 =? slice_len 0 2 (Z.to_nat d_model))
           || (Z.to_nat (d_model / 2) + 1 =? 1))%nat with true.
  2:{ symmetry. apply orb_true_iff. left. apply Nat.eqb_eq. unfold slice_len.
      destruct (Z.to_nat d_model <=? 0)%nat eqn:E;
        [apply Nat.leb_le in E; lia|].
      rewrite <- HK. f_equal. lia. }
  rewrite mapM2_pure_ok
    by (rewrite repeat_length, !length_map, length_seq; reflexivity).
  cbn [rbind].
  replace ((Z.to_nat (d_model / 2) + 1 =? slice_len 1 2 (Z.to_nat d_model))
           || (Z.to_nat (d_model / 2) + 1 =? 1))%nat with false; [reflexivity|].
  symmetry. apply orb_false_iff. split; apply Nat.eqb_neq; [|lia].
  unfold slice_len.
  destruct (Z.to_nat d_model <=? 1)%nat eqn:E; [lia|].
  replace (Z.to_nat d_model - 1 + 2 - 1)%nat with (1 + Z.to_nat (d_model / 2) * 2)%nat by lia.
  rewrite Nat.div_add by lia. simpl. lia.
Qed.

Lemma PositionalEncoding_table_sinusoid_witness :
  exists pe table,
    PositionalEncoding.init 2 3 0 = Ok pe /\
    PositionalEncoding.positional_encoding pe = [table] /\
    nth (2 * 0 + 1) (nth 2 table []) 0
    = cos (INR 2 / Rpower 10000 (INR (2 * 0) / IZR 2)).
Proof.
  destruct (PositionalEncoding_init_ok 2 3 0) as [pe Hpe];
    [lia | left; reflexivity | lia | lra |].
  destruct (PositionalEncoding_table_sinusoid 2 3 0 pe Hpe) as (table & Ht & _ & Hrows).
  exists pe, table. split; [exact Hpe|]. split; [exact Ht|].
  apply (Hrows 2%nat 0%nat); simpl; lia.
Defined.

(** ** MultiHeadAttentionBlock: construction *)


Lemma Linear_init_negative (n : Z) (w0 : nat -> nat -> R) (b0 : nat -> R) :
  (n < 0)%Z -> Linear.init n n w0 b0 = Raise RuntimeError.
Proof.
  intros Hn. unfold Linear.init.
  replace (n <? 0)%Z with true by (symmetry; apply Z.ltb_lt; exact Hn).
  reflexivity.
Qed.

(** C5, as stated, fails: the constructor has no positivity check, and
    Python's [4 % -2] is 0, so a negative head count passes the assertion
    and the block is built with [d_k = 4 // -2 = -2]. *)
Lemma MultiHeadAttentionBlock_init_negative_heads_counterexample :
  (-2 <= 0)%Z /\
  exists a,
    MultiHeadAttentionBlock.init 4 (-2) 0 (fun _ _ _ => 0) (fun _ _ => 0) = Ok a /\
    MultiHeadAttentionBlock.h a = (-2)%Z /\
    MultiHeadAttentionBlock.d_k a = (-2)%Z.
Proof.
  split; [lia|]. unfold MultiHeadAttentionBlock.init.
  cbn [Z.eqb Z.modulo Z.div_eucl Z.pos_div_eucl rbind].
  change (4 mod -2 =? 0)%Z with true. cbn [rbind].
  unfold Linear.init. cbn [Z.ltb Z.compare orb rbind].
  rewrite Dropout_init_ok by lra.
  eexists. split; [reflexivity|]. split; reflexivity.
Qed.

(** C5 (amended): with a dropout rate in [[0, 1]], the constructor of the
    attention block raises when [h = 0] (the modulo divides by zero), when
    [d_model % h <> 0] (the assertion), and when [d_model < 0] (the linear
    layers); for every [d_model > 0] and every [h <> 0] that divides it,
    a negative [h] included, construction succeeds with
    [d_k = d_model // h].  No positivity check is made. *)
Theorem MultiHeadAttentionBlock_init_outcome
  (d_model h : Z) (dropout : R)
  (w0 : nat -> nat -> nat -> R) (b0 : nat -> nat -> R) :
  0 <= dropout <= 1 ->
  (h = 0%Z ->
   MultiHeadAttentionBlock.init d_model h dropout w0 b0 = Raise ZeroDivisionError) /\
  (h <> 0%Z -> (d_model mod h)%Z <> 0%Z ->
   MultiHeadAttentionBlock.init d_model h dropout w0 b0 = Raise AssertionError) /\
  (h <> 0%Z -> (d_model mod h)%Z = 0%Z -> (d_model < 0)%Z ->
   MultiHeadAttentionBlock.init d_model h dropout w0 b0 = Raise RuntimeError) /\
  (h <> 0%Z -> (d_model mod h)%Z = 0%Z -> (0 < d_model)%Z ->
   exists a,
     MultiHeadAttentionBlock.init d_model h dropout w0 b0 = Ok a /\
     MultiHeadAttentionBlock.d_model a = d_model /\
     MultiHeadAttentionBlock.h a = h /\
     MultiHeadAttentionBlock.d_k a = (d_model / h)%Z /\
     (MultiHeadAttentionBlock.h a * MultiHeadAttentionBlock.d_k a = d_model)%Z).
Proof.
  intros Hp. unfold MultiHeadAttentionBlock.init. repeat split.
  - intros ->. reflexivity.
  - intros Hh Hm. apply Z.eqb_neq in Hh, Hm. rewrite Hh. cbn [rbind].
    rewrite Hm. reflexivity.
  - intros Hh Hm Hd. apply Z.eqb_neq in Hh. apply Z.eqb_eq in Hm.
    rewrite Hh. cbn [rbind]. rewrite Hm. cbn [rbind].
    rewrite Linear_init_negative by exact Hd. reflexivity.
  - intros Hh Hm Hd.
    pose proof (Z.div_mod d_model h Hh) as Hdiv.
    apply Z.eqb_neq in Hh. rewrite Hh. cbn [rbind].
    assert (Hm' : (d_model mod h =? 0)%Z = true) by (apply Z.eqb_eq; exact Hm).
    rewrite Hm'. cbn [rbind].
    unfold Linear.init.
    replace (d_model <? 0)%Z with false by (symmetry; apply Z.ltb_ge; lia).
    cbn [orb rbind]. rewrite Dropout_init_ok by exact Hp. cbn [rbind].
    eexists. split; [reflexivity|].
    cbn [MultiHeadAttentionBlock.d_model MultiHeadAttentionBlock.h
         MultiHeadAttentionBlock.d_k].
    repeat split. lia.
Qed.

Lemma MultiHeadAttentionBlock_init_outcome_witness :
  exists a,
    MultiHeadAttentionBlock.init 512 8 (1 / 10) (fun _ _ _ => 0) (fun _ _ => 0) = Ok a /\
    MultiHeadAttentionBlock.d_k a = 64%Z.
Proof.
  destruct (MultiHeadAttentionBlock_init_outcome 512 8 (1 / 10)
              (fun _ _ _ => 0) (fun _ _ => 0)) as (_ & _ & _ & H); [lra|].
  destruct H as (a & Ha & _ & _ & Hk & _); [lia | reflexivity | lia |].
  exists a. split; [exact Ha|]. rewrite Hk. reflexivity.
Defined.

(** ** Broadcasting *)

Lemma mapM_ok (A B : Type) (f : A -> res B) (g : A -> B) (l : list A) :
  (forall a, In a l -> f a = Ok (g a)) -> mapM f l = Ok (map g l).
Proof.
  induction l as [|a l IH]; intros H; [reflexivity|].
  simpl. rewrite (H a) by (left; reflexivity). cbn [rbind].
  rewrite IH by (intros b Hb; apply H; right; exact Hb). reflexivity.
Qed.

Lemma mapM2_ok (A B C : Type) (f : A -> B -> res C) (g : A -> B -> C)
  (xs : list A) (ys : list B) :
  length xs = length ys ->
  (forall x y, In (x, y) (combine xs ys) -> f x y = Ok (g x y)) ->
  mapM2 f xs ys = Ok (map (fun p => g (fst p) (snd p)) (combine xs ys)).
Proof.
  revert ys. induction xs as [|x xs IH]; intros [|y ys] Hlen H;
    simpl in Hlen; try discriminate; [reflexivity|].
  simpl. rewrite (H x y) by (left; reflexivity). cbn [rbind].
  rewrite IH; [reflexivity | congruence |].
  intros a b Hab. apply H. right. exact Hab.
Qed.

Lemma bcast_same_length (A B C : Type) (f : A -> B -> res C)
  (xs : list A) (ys : list B) :
  length xs = length ys -> bcast f xs ys = mapM2 f xs ys.
Proof.
  intros H. unfold bcast. rewrite H, Nat.eqb_refl. reflexivity.
Qed.

Lemma bcast_singleton_r (A B C : Type) (f : A -> B -> res C) (g : A -> C)
  (xs : list A) (y : B) :
  (forall x, In x xs -> f x y = Ok (g x)) ->
  bcast f xs [y] = Ok (map g xs).
Proof.
  intros H. unfold bcast.
  destruct xs as [|x [|x' xs]].
  - reflexivity.
  - simpl. rewrite (H x) by (left; reflexivity). reflexivity.
  - cbn [length Nat.eqb]. apply mapM_ok. exact H.
Qed.

Lemma bcast_incompatible (A B C : Type) (f : A -> B -> res C)
  (xs : list A) (ys : list B) :
  length xs <> length ys -> length xs <> 1%nat -> length ys <> 1%nat ->
  bcast f xs ys = Raise RuntimeError.
Proof.
  intros Hne Hx Hy. unfold bcast.
  apply Nat.eqb_neq in Hne. rewrite Hne.
  destruct xs as [|x [|x' xs]]; destruct ys as [|y [|y' ys]];
    simpl in Hx, Hy; try congruence; reflexivity.
Qed.

Lemma bcast_head_raise (A B C : Type) (f : A -> B -> res C)
  (x0 : A) (rest : list A) (y : B) (e : exn) :
  f x0 y = Raise e -> bcast f (x0 :: rest) [y] = Raise e.
Proof.
  intros H. unfold bcast.
  destruct rest as [|x1 rest]; cbn [length Nat.eqb mapM2 mapM];
    rewrite H; reflexivity.
Qed.

Lemma In_firstn (A : Type) (n : nat) (l : list A) (x : A) :
  In x (firstn n l) -> In x l.
Proof.
  intros H. rewrite <- (firstn_skipn n l). apply in_or_app. left. exact H.
Qed.

Lemma add3_slice (x : t3) (slice : mat) (S D : nat) :
  Forall (fun xb => length xb = S /\ Forall (fun r => length r = D) xb) x ->
  length slice = S -> Forall (fun r => length r = D) slice ->
  add3 x [slice] = Ok (map (fun xb => add_rows xb slice) x).
Proof.
  intros Hx Hs Hrows. unfold add3.
  apply bcast_singleton_r. intros xb Hxb.
  rewrite Forall_forall in Hx. destruct (Hx xb Hxb) as [HS HD].
  rewrite bcast_same_length by exact (eq_trans HS (eq_sym Hs)).
  unfold add_rows.
  apply (mapM2_ok _ _ _ _
           (fun r t : vec => map (fun q => fst q + snd q) (combine r t)));
    [exact (eq_trans HS (eq_sym Hs))|].
  intros r t Hrt.
  rewrite Forall_forall in HD, Hrows.
  assert (Hr : length r = D) by (apply HD; eapply in_combine_l; exact Hrt).
  assert (Ht : length t = D) by (apply Hrows; eapply in_combine_r; exact Hrt).
  rewrite bcast_same_length by exact (eq_trans Hr (eq_sym Ht)).
  apply (mapM2_ok _ _ _ _ (fun a b => a + b)); [exact (eq_trans Hr (eq_sym Ht))|].
  reflexivity.
Qed.

Lemma add_rows_nth (xb slice : mat) (i j : nat) :
  length xb = length slice ->
  (i < length xb)%nat ->
  length (nth i xb []) = length (nth i slice []) ->
  (j < length (nth i xb []))%nat ->
  nth j (nth i (add_rows xb slice) []) 0
  = nth j (nth i xb []) 0 + nth j (nth i slice []) 0.
Proof.
  intros Hlen Hi Hrow Hj. unfold add_rows.
  rewrite nth_map_in with (da := (@nil R, @nil R))
    by (rewrite length_combine; lia).
  rewrite combine_nth by exact Hlen. cbn [fst snd].
  rewrite nth_map_in with (da := (0, 0))
    by (rewrite length_combine; lia).
  rewrite combine_nth by exact Hrow. reflexivity.
Qed.

(** ** PositionalEncoding: forward *)

Lemma PositionalEncoding_init_2_1 :
  PositionalEncoding.init 2 1 0 = Ok pe_one_row.
Proof.
  unfold PositionalEncoding.init.
  rewrite Dropout_init_ok by lra.
  unfold PositionalEncoding.zeros, PositionalEncoding.arange2.
  change (Z.to_nat 2) with 2%nat. change (Z.to_nat 1) with 1%nat.
  cbn. unfold set_stride, bidx. cbn.
  rewrite !Rmult_0_l, sin_0, cos_0. reflexivity.
Qed.

(** C6, as stated, fails: with a table of one row ([max_seq_len = 1]) the
    slice has extent 1 on the sequence axis and torch broadcasts it, so an
    input of two positions is accepted and row 0 is added to both. *)
Lemma PositionalEncoding_forward_broadcast_counterexample :
  PositionalEncoding.init 2 1 0 = Ok pe_one_row /\
  (1 < shape1 [[[1; 1]; [2; 2]]])%nat /\
  PositionalEncoding.forward false pe_one_row [[[1; 1]; [2; 2]]] (fun _ => true)
  = Ok ([[[1 + 0; 1 + 1]; [2 + 0; 2 + 1]]], fun _ => true).
Proof.
  split; [exact PositionalEncoding_init_2_1|].
  split; [unfold shape1; cbn [hd length]; lia|].
  reflexivity.
Qed.

(** C6 (amended): let the buffer hold a table of [max_seq_len] rows.  An
    input whose sequence length exceeds [max_seq_len] makes [forward] raise
    the shape error of the broadcast sum, in either mode and before any
    output, unless one of the two extents is 1 (then torch broadcasts).  An
    input [[B, seq_len, D]] with [seq_len <= max_seq_len] and the table's
    width [D] is accepted, and with dropout disabled the output is the input
    plus the first [seq_len] rows of the table. *)
Theorem PositionalEncoding_forward_seq_len
  (pe : PositionalEncoding.t) (table : mat) :
  PositionalEncoding.positional_encoding pe = [table] ->
  (forall training x0 rest s,
      (length table < length x0)%nat ->
      length table <> 1%nat -> length x0 <> 1%nat ->
      PositionalEncoding.forward training pe (x0 :: rest) s = Raise RuntimeError) /\
  (forall x S D s,
      Forall (fun xb => length xb = S /\ Forall (fun r => length r = D) xb) x ->
      Forall (fun r => length r = D) table ->
      (S <= length table)%nat ->
      exists y,
        PositionalEncoding.forward false pe x s = Ok (y, s) /\
        y = map (fun xb => add_rows xb (firstn S table)) x /\
        forall b i j, (b < length x)%nat -> (i < S)%nat -> (j < D)%nat ->
          nth j (nth i (nth b y []) []) 0
          = nth j (nth i (nth b x []) []) 0 + nth j (nth i table []) 0).
Proof.
  intros Hpe. split.
  - intros training x0 rest s Hlong Htab1 Hx1.
    unfold PositionalEncoding.forward, bind, lift. rewrite Hpe.
    cbn [map shape1 hd].
    assert (Hraise : bcast (bcast (fun a b => Ok (a + b))) x0
                       (firstn (length x0) table) = Raise RuntimeError).
    { apply bcast_incompatible; try rewrite length_firstn; lia. }
    unfold add3. rewrite (bcast_head_raise _ _ _ _ _ _ _ _ Hraise).
    reflexivity.
  - intros x S D s Hx Htab HS.
    assert (Hslice : x <> [] -> shape1 x = S).
    { destruct x as [|xb x]; [congruence|]. intros _.
      apply Forall_inv in Hx. apply Hx. }
    assert (Hadd : add3 x (map (firstn (shape1 x)) [table])
                   = Ok (map (fun xb => add_rows xb (firstn S table)) x)).
    { destruct x as [|xb x]; [reflexivity|].
      rewrite Hslice by congruence. cbn [map].
      apply add3_slice with (S := S) (D := D);
        [exact Hx | rewrite length_firstn; lia |].
      rewrite Forall_forall in *. intros r Hr. apply Htab.
      exact (In_firstn _ _ _ _ Hr). }
    eexists. split; [|split; [reflexivity|]].
    + unfold PositionalEncoding.forward, bind, lift. rewrite Hpe, Hadd.
      reflexivity.
    + intros b i j Hb Hi Hj.
      rewrite nth_map_in with (da := @nil (list R)) by exact Hb.
      rewrite Forall_forall in Hx.
      destruct (Hx (nth b x []) (nth_In _ _ Hb)) as [HlenS HrowsD].
      rewrite Forall_forall in HrowsD, Htab.
      assert (Hrow : length (nth i (nth b x []) []) = D)
        by (apply HrowsD, nth_In; lia).
      assert (Hfi : nth i (firstn S table) [] = nth i table []).
      { rewrite nth_firstn. apply Nat.ltb_lt in Hi. rewrite Hi. reflexivity. }
      rewrite add_rows_nth.
      * rewrite Hfi. reflexivity.
      * rewrite length_firstn. lia.
      * lia.
      * rewrite Hfi, Hrow. symmetry. apply Htab, nth_In. lia.
      * lia.
Qed.

Lemma PositionalEncoding_forward_seq_len_witness :
  PositionalEncoding.forward true pe_two_rows
    [[[1; 1]; [1; 1]; [1; 1]]] (fun _ => true) = Raise RuntimeError /\
  exists y,
    PositionalEncoding.forward false pe_two_rows [[[1; 1]]] (fun _ => true)
    = Ok (y, fun _ => true).
Proof.
  destruct (PositionalEncoding_forward_seq_len pe_two_rows [[0; 1]; [5; 7]] eq_refl)
    as [Hlong Hshort].
  split.
  - apply Hlong; simpl; lia.
  - destruct (Hshort [[[1; 1]]] 1%nat 2%nat (fun _ => true)) as (y & Hy & _).
    + repeat constructor.
    + repeat constructor.
    + simpl; lia.
    + exists y. exact Hy.
Defined.

(** ** Softmax *)

Lemma sum_exp_pos (r : list R) : r <> [] -> 0 < sum_list (map exp r).
Proof.
  induction r as [|a r IH]; intros H; [congruence|].
  rewrite map_cons, sum_list_cons.
  pose proof (exp_pos a).
  destruct r as [|b r]; [simpl; lra|].
  assert (0 < sum_list (map exp (b :: r))) by (apply IH; congruence).
  lra.
Qed.

Lemma softmax_length (r : list R) : length (torch.softmax r) = length r.
Proof. unfold torch.softmax. apply length_map. Qed.

Lemma softmax_nonneg (r : list R) : Forall (fun w => 0 <= w) (torch.softmax r).
Proof.
  unfold torch.softmax. apply Forall_forall. intros w Hw.
  apply in_map_iff in Hw. destruct Hw as (a & <- & Ha).
  assert (Hr : r <> []) by (destruct r; [contradiction | congruence]).
  pose proof (sum_exp_pos r Hr). pose proof (exp_pos a).
  apply Rmult_le_pos; [lra|]. left. apply Rinv_0_lt_compat. assumption.
Qed.

Lemma softmax_sums_to_one (r : list R) :
  r <> [] -> sum_list (torch.softmax r) = 1.
Proof.
  intros Hr. unfold torch.softmax.
  rewrite (sum_list_map_div exp).
  pose proof (sum_exp_pos r Hr). field. lra.
Qed.

(** ** MultiHeadAttentionBlock: attention weights *)

Lemma attention_probs_eval (query key : t4) (mask : option mask4)
  (dropout : option Dropout.t) :
  MultiHeadAttentionBlock.attention_probs false query key mask dropout
  = lift (MultiHeadAttentionBlock.attention_weights query key mask).
Proof.
  unfold MultiHeadAttentionBlock.attention_probs, bind, lift, ret.
  destruct (MultiHeadAttentionBlock.attention_weights query key mask);
    destruct dropout; reflexivity.
Qed.




(** ** Inversion and existence for [mapM], [mapM2] and [bcast] *)

Lemma mapM_inv (A B : Type) (f : A -> res B) (l : list A) (r : list B) :
  mapM f l = Ok r ->
  length r = length l /\
  forall i d d', (i < length l)%nat -> f (nth i l d) = Ok (nth i r d').
Proof.
  revert r. induction l as [|a l IH]; intros r H; simpl in H.
  - injection H as <-. split; [reflexivity|]. intros i d d' Hi. simpl in Hi. lia.
  - destruct (f a) as [b| |] eqn:Ea; cbn [rbind] in H; try discriminate.
    destruct (mapM f l) as [bs| |] eqn:El; cbn [rbind] in H; try discriminate.
    injection H as <-. destruct (IH bs eq_refl) as [Hlen Hnth].
    split; [simpl; congruence|].
    intros [|i] d d' Hi; simpl; [exact Ea|].
    apply Hnth. simpl in Hi. lia.
Qed.

Lemma mapM2_inv (A B C : Type) (f : A -> B -> res C)
  (xs : list A) (ys : list B) (r : list C) :
  mapM2 f xs ys = Ok r ->
  length xs = length ys /\ length r = length xs /\
  forall i dx dy dz, (i < length xs)%nat ->
    f (nth i xs dx) (nth i ys dy) = Ok (nth i r dz).
Proof.
  revert ys r. induction xs as [|x xs IH]; intros [|y ys] r H; simpl in H;
    try discriminate.
  - injection H as <-. repeat split. intros i dx dy dz Hi. simpl in Hi. lia.
  - destruct (f x y) as [c| |] eqn:Ec; cbn [rbind] in H; try discriminate.
    destruct (mapM2 f xs ys) as [cs| |] eqn:El; cbn [rbind] in H; try discriminate.
    injection H as <-. destruct (IH ys cs El) as (Hlen & Hlenr & Hnth).
    split; [simpl; congruence|]. split; [simpl; congruence|].
    intros [|i] dx dy dz Hi; simpl; [exact Ec|].
    apply Hnth. simpl in Hi. lia.
Qed.

Lemma bcast_inv (A B C : Type) (f : A -> B -> res C)
  (xs : list A) (ys : list B) (zs : list C) :
  bcast f xs ys = Ok zs ->
  length zs = (if (length xs =? 1)%nat then length ys else length xs) /\
  forall i dx dy dz, (i < length zs)%nat ->
    f (bget dx xs i) (bget dy ys i) = Ok (nth i zs dz).
Proof.
  unfold bcast, bget, bidx. intros H.
  destruct (length xs =? length ys)%nat eqn:E.
  - apply Nat.eqb_eq in E. apply mapM2_inv in H.
    destruct H as (_ & Hlen & Hnth).
    split.
    + destruct (length xs =? 1)%nat; congruence.
    + intros i dx dy dz Hi. rewrite <- E.
      destruct (length xs =? 1)%nat eqn:E1.
      * apply Nat.eqb_eq in E1.
        assert (i = 0)%nat by lia. subst i. apply Hnth. lia.
      * apply Hnth. lia.
  - apply Nat.eqb_neq in E.
    destruct xs as [|x [|x' xs]].
    + destruct ys as [|y [|y' ys]]; try discriminate.
      simpl in H. injection H as <-. split; [reflexivity|].
      intros i dx dy dz Hi. simpl in Hi. lia.
    + apply mapM_inv in H. destruct H as [Hlen Hnth].
      cbn [length Nat.eqb]. split; [exact Hlen|].
      intros i dx dy dz Hi. cbn [nth].
      assert (E1 : (length ys =? 1)%nat = false)
        by (apply Nat.eqb_neq; simpl in E; lia).
      rewrite E1. apply Hnth. lia.
    + destruct ys as [|y [|y' ys]]; try discriminate.
      apply mapM_inv in H. destruct H as [Hlen Hnth].
      cbn [length Nat.eqb]. split; [exact Hlen|].
      intros i dx dy dz Hi. cbn [nth]. apply Hnth.
      rewrite Hlen in Hi. exact Hi.
Qed.

Lemma mapM_exists (A B : Type) (f : A -> res B) (P : B -> Prop) (l : list A) :
  (forall a, In a l -> exists b, f a = Ok b /\ P b) ->
  exists r, mapM f l = Ok r /\ rows (length l) P r.
Proof.
  induction l as [|a l IH]; intros H.
  - exists []. split; [reflexivity|]. split; [reflexivity | constructor].
  - destruct (H a (or_introl eq_refl)) as (b & Hb & HP).
    destruct IH as (r & Hr & Hlen & HF); [intros a' Ha'; apply H; right; exact Ha'|].
    exists (b :: r). simpl. rewrite Hb, Hr. cbn [rbind].
    split; [reflexivity|]. split; [simpl; congruence | constructor; assumption].
Qed.

Lemma mapM2_exists (A B C : Type) (f : A -> B -> res C) (P : C -> Prop)
  (xs : list A) (ys : list B) :
  length xs = length ys ->
  (forall x y, In x xs -> In y ys -> exists z, f x y = Ok z /\ P z) ->
  exists r, mapM2 f xs ys = Ok r /\ rows (length xs) P r.
Proof.
  revert ys. induction xs as [|x xs IH]; intros [|y ys] Hlen H;
    simpl in Hlen; try discriminate.
  - exists []. split; [reflexivity|]. split; [reflexivity | constructor].
  - destruct (H x y (or_introl eq_refl) (or_introl eq_refl)) as (z & Hz & HP).
    destruct (IH ys) as (r & Hr & Hl & HF);
      [congruence | intros a b Ha Hb; apply H; right; assumption|].
    exists (z :: r). simpl. rewrite Hz, Hr. cbn [rbind].
    split; [reflexivity|]. split; [simpl; congruence | constructor; assumption].
Qed.

(** A source [ys] that expands to [xs] (extent equal, or 1). *)
Lemma bcast_exists (A B C : Type) (f : A -> B -> res C) (P : C -> Prop)
  (xs : list A) (ys : list B) :
  expands (length ys) (length xs) ->
  (forall x y, In x xs -> In y ys -> exists z, f x y = Ok z /\ P z) ->
  exists r, bcast f xs ys = Ok r /\ rows (length xs) P r.
Proof.
  intros Hexp H. unfold bcast.
  destruct (length xs =? length ys)%nat eqn:E.
  - apply Nat.eqb_eq in E. apply mapM2_exists; assumption.
  - apply Nat.eqb_neq in E. destruct Hexp as [Hexp | Hexp]; [congruence|].
    destruct ys as [|y [|y' ys]]; simpl in Hexp; try discriminate.
    destruct xs as [|x [|x' xs]].
    + exists []. split; [reflexivity|]. split; [reflexivity | constructor].
    + simpl in E. congruence.
    + apply mapM_exists. intros a Ha. apply H; [exact Ha | left; reflexivity].
Qed.

Lemma rows_nth (A : Type) (n : nat) (P : A -> Prop) (l : list A) (i : nat) (d : A) :
  rows n P l -> (i < n)%nat -> P (nth i l d).
Proof.
  intros [Hlen HF] Hi. rewrite Forall_forall in HF.
  apply HF, nth_In. lia.
Qed.

Lemma bget_full (A : Type) (d : A) (l : list A) (i : nat) :
  (i < length l)%nat -> bget d l i = nth i l d.
Proof.
  intros Hi. unfold bget, bidx.
  destruct (length l =? 1)%nat eqn:E; [|reflexivity].
  apply Nat.eqb_eq in E. replace i with 0%nat by lia. reflexivity.
Qed.


Lemma mapM_rows (A B : Type) (f : A -> res B) (Q : A -> Prop) (P : B -> Prop)
  (n : nat) (l : list A) :
  rows n Q l ->
  (forall a, Q a -> exists b, f a = Ok b /\ P b) ->
  exists r, mapM f l = Ok r /\ rows n P r.
Proof.
  intros [Hlen HQ] H. rewrite <- Hlen. apply mapM_exists.
  rewrite Forall_forall in HQ. intros a Ha. apply H, HQ, Ha.
Qed.

Lemma bcast_rows (A B C : Type) (f : A -> B -> res C)
  (Q : A -> Prop) (Q' : B -> Prop) (P : C -> Prop)
  (n m : nat) (xs : list A) (ys : list B) :
  rows n Q xs -> rows m Q' ys -> expands m n ->
  (forall x y, Q x -> Q' y -> exists z, f x y = Ok z /\ P z) ->
  exists r, bcast f xs ys = Ok r /\ rows n P r.
Proof.
  intros [Hlx HQ] [Hly HQ'] Hexp H. rewrite <- Hlx.
  apply bcast_exists; [rewrite Hlx, Hly; exact Hexp|].
  rewrite Forall_forall in HQ, HQ'. intros x y Hx Hy.
  apply H; [apply HQ, Hx | apply HQ', Hy].
Qed.

Lemma rows_map (A B : Type) (f : A -> B) (Q : A -> Prop) (P : B -> Prop)
  (n : nat) (l : list A) :
  rows n Q l -> (forall a, Q a -> P (f a)) -> rows n P (map f l).
Proof.
  intros [Hlen HQ] H. split; [rewrite length_map; exact Hlen|].
  rewrite Forall_forall in *. intros b Hb.
  apply in_map_iff in Hb. destruct Hb as (a & <- & Ha). apply H, HQ, Ha.
Qed.

Lemma rows_trivial (A : Type) (l : list A) : rows (length l) (fun _ => True) l.
Proof. split; [reflexivity|]. apply Forall_forall. intros; exact I. Qed.

(** ** Attention on well-shaped inputs *)

Lemma matmul_nt_shape (Sq Sk dk : nat) (a b : list (list R)) :
  rows Sq (fun r => length r = dk) a ->
  rows Sk (fun r => length r = dk) b ->
  exists m, matmul_nt a b = Ok m /\ rows Sq (fun r => length r = Sk) m.
Proof.
  intros Ha Hb. unfold matmul_nt.
  apply (mapM_rows _ _ _ _ _ _ _ Ha). intros ai Hai.
  destruct (mapM_rows _ _
              (fun bj => if (length ai =? length bj)%nat
                         then Ok (dot ai bj) else Raise RuntimeError)
              _ (fun _ => True) _ _ Hb) as (row & Hrow & Hlen & _).
  - intros bj Hbj. rewrite Hai, Hbj, Nat.eqb_refl. eexists; split; [reflexivity | exact I].
  - exists row. split; assumption.
Qed.

Lemma matmul_shape (Sq Sk dv : nat) (w v : list (list R)) :
  (1 <= Sk)%nat ->
  rows Sq (fun r => length r = Sk) w ->
  rows Sk (fun r => length r = dv) v ->
  exists m, matmul w v = Ok m /\ rows Sq (fun r => length r = dv) m.
Proof.
  intros HSk Hw Hv. unfold matmul.
  apply (mapM_rows _ _ _ _ _ _ _ Hw). intros wi Hwi.
  destruct Hv as [Hlv HFv].
  rewrite Hwi, Hlv, Nat.eqb_refl. eexists. split; [reflexivity|].
  rewrite length_map, length_seq.
  destruct v as [|v0 v]; [simpl in Hlv; lia|].
  apply Forall_inv in HFv. exact HFv.
Qed.

Section AttentionShapes.

Variables B H Sq Sk dk dv : nat.
Variables query key value : t4.
Hypothesis HB : (1 <= B)%nat.
Hypothesis HH : (1 <= H)%nat.
Hypothesis HSq : (1 <= Sq)%nat.
Hypothesis HSk : (1 <= Sk)%nat.
Hypothesis Hdk : (1 <= dk)%nat.
Hypothesis Hquery : shape4 B H Sq dk query.
Hypothesis Hkey : shape4 B H Sk dk key.
Hypothesis Hvalue : shape4 B H Sk dv value.

Lemma shape_last_query : shape_last query = dk.
Proof using HB HH HSq Hquery.
  clear - HB HH HSq Hquery.
  unfold shape_last.
  destruct Hquery as [Hl HF].
  destruct query as [|qb q]; [simpl in Hl; lia|].
  apply Forall_inv in HF. destruct HF as [Hl1 HF1].
  destruct qb as [|qh qb]; [simpl in Hl1; lia|].
  apply Forall_inv in HF1. destruct HF1 as [Hl2 HF2].
  destruct qh as [|qi qh]; [simpl in Hl2; lia|].
  apply Forall_inv in HF2. exact HF2.
Qed.

Lemma attention_scores_shape :
  exists S, MultiHeadAttentionBlock.attention_scores query key = Ok S /\
            shape4 B H Sq Sk S.
Proof using HB HH HSq Hdk Hquery Hkey.
  clear - HB HH HSq Hdk Hquery Hkey.
  unfold MultiHeadAttentionBlock.attention_scores.
  rewrite shape_last_query.
  destruct (bcast_rows _ _ _ (bcast matmul_nt) _ _
              (rows H (rows Sq (fun r : list R => length r = Sk)))
              _ _ _ _ Hquery Hkey (or_introl eq_refl)) as (S0 & HS0 & Hshape0).
  { intros qb kb Hqb Hkb.
    apply (bcast_rows _ _ _ matmul_nt _ _ _ _ _ _ _ Hqb Hkb (or_introl eq_refl)).
    intros qh kh Hqh Hkh. eapply matmul_nt_shape; eassumption. }
  rewrite HS0. cbn [rbind].
  assert (Hz : (dk =? 0)%nat = false) by (apply Nat.eqb_neq; lia).
  rewrite Hz.
  apply (mapM_rows _ _ _ _ _ _ _ Hshape0). intros Sb HSb.
  apply (mapM_rows _ _ _ _ _ _ _ HSb). intros Sh HSh.
  apply (mapM_rows _ _ _ _ _ _ _ HSh). intros row Hrow.
  destruct (mapM_rows _ _ (fun v => Ok (v / sqrt (INR dk))) _ (fun _ => True)
              _ _ (rows_trivial _ row)) as (r & Hr & Hlen & _).
  { intros v _. eexists. split; [reflexivity | exact I]. }
  exists r. split; [exact Hr | congruence].
Qed.

Variables mb mh mq mk : nat.
Variable mask : mask4.
Hypothesis Hmask : shape4 mb mh mq mk mask.
Hypothesis Hmb : expands mb B.
Hypothesis Hmh : expands mh H.
Hypothesis Hmq : expands mq Sq.
Hypothesis Hmk : expands mk Sk.

Lemma masked_fill_shape (S : t4) :
  shape4 B H Sq Sk S ->
  exists S', MultiHeadAttentionBlock.masked_fill S mask = Ok S' /\
             shape4 B H Sq Sk S'.
Proof.
  intros HS. unfold MultiHeadAttentionBlock.masked_fill.
  apply (bcast_rows _ _ _ _ _ _ _ _ _ _ _ HS Hmask Hmb). intros Sb Mb HSb HMb.
  apply (bcast_rows _ _ _ _ _ _ _ _ _ _ _ HSb HMb Hmh). intros Sh Mh HSh HMh.
  apply (bcast_rows _ _ _ _ _ _ _ _ _ _ _ HSh HMh Hmq). intros row mrow Hrow Hmrow.
  destruct (bcast_rows _ _ _
              (fun v m => Ok (if (m =? 0)%Z then neg_1e9 else v))
              (fun _ => True) (fun _ => True) (fun _ => True)
              Sk mk row mrow) as (r & Hr & Hlen & _).
  - split; [exact Hrow | apply Forall_forall; intros; exact I].
  - split; [exact Hmrow | apply Forall_forall; intros; exact I].
  - exact Hmk.
  - intros v m _ _. eexists. split; [reflexivity | exact I].
  - exists r. split; assumption.
Qed.

Lemma masked_fill_at (S S' : t4) :
  shape4 B H Sq Sk S -> shape4 B H Sq Sk S' ->
  MultiHeadAttentionBlock.masked_fill S mask = Ok S' ->
  forall b hd i j, (b < B)%nat -> (hd < H)%nat -> (i < Sq)%nat -> (j < Sk)%nat ->
    at4 S' b hd i j
    = if (mask_at mask b hd i j =? 0)%Z then neg_1e9 else at4 S b hd i j.
Proof.
  intros HS HS' Hfill b hd i j Hb Hhd Hi Hj.
  unfold MultiHeadAttentionBlock.masked_fill in Hfill.
  unfold at4, mask_at.
  pose proof (rows_nth _ _ _ _ b [] HS Hb) as HSb.
  pose proof (rows_nth _ _ _ _ b [] HS' Hb) as HSb'.
  pose proof (rows_nth _ _ _ _ hd [] HSb Hhd) as HSh.
  pose proof (rows_nth _ _ _ _ hd [] HSb' Hhd) as HSh'.
  pose proof (rows_nth _ _ _ _ i [] HSh Hi) as Hrow.
  pose proof (rows_nth _ _ _ _ i [] HSh' Hi) as Hrow'.
  cbv beta in Hrow, Hrow'.
  apply bcast_inv in Hfill. destruct Hfill as [_ H1].
  specialize (H1 b [] [] [] ltac:(destruct HS' as [-> _]; exact Hb)).
  rewrite (bget_full _ _ S) in H1 by (destruct HS as [-> _]; exact Hb).
  apply bcast_inv in H1. destruct H1 as [_ H2].
  specialize (H2 hd [] [] [] ltac:(destruct HSb' as [-> _]; exact Hhd)).
  rewrite (bget_full _ _ (nth b S [])) in H2 by (destruct HSb as [-> _]; exact Hhd).
  apply bcast_inv in H2. destruct H2 as [_ H3].
  specialize (H3 i [] [] [] ltac:(destruct HSh' as [-> _]; exact Hi)).
  rewrite (bget_full _ _ (nth hd (nth b S []) [])) in H3
    by (destruct HSh as [-> _]; exact Hi).
  apply bcast_inv in H3. destruct H3 as [_ H4].
  specialize (H4 j 0 1%Z 0 ltac:(rewrite Hrow'; exact Hj)).
  rewrite (bget_full _ _ (nth i (nth hd (nth b S []) []) [])) in H4
    by (rewrite Hrow; exact Hj).
  injection H4 as H4. symmetry. exact H4.
Qed.

End AttentionShapes.

Lemma softmax_repeat (c : R) (n : nat) :
  (1 <= n)%nat -> torch.softmax (repeat c n) = repeat (1 / INR n) n.
Proof.
  intros Hn. unfold torch.softmax.
  rewrite !map_repeat, sum_list_repeat. f_equal.
  pose proof (exp_pos c). assert (0 < INR n) by (apply lt_0_INR; lia).
  field. split; lra.
Qed.

Lemma dot_repeat (a : R) (n : nat) (col : list R) :
  length col = n -> dot (repeat a n) col = a * sum_list col.
Proof.
  intros <-. unfold dot. induction col as [|v col IH].
  - simpl. lra.
  - cbn [length repeat combine map]. rewrite !sum_list_cons, IH.
    cbn [fst snd]. lra.
Qed.

Lemma constant_row (c : R) (n : nat) (row : list R) :
  length row = n -> (forall j, (j < n)%nat -> nth j row 0 = c) ->
  row = repeat c n.
Proof.
  intros Hlen H. apply (nth_ext _ _ 0 0).
  - rewrite repeat_length. exact Hlen.
  - intros j Hj. rewrite Hlen in Hj. rewrite H by exact Hj.
    symmetry. apply nth_repeat_lt. exact Hj.
Qed.

Lemma softmax_shape4 (B H Sq Sk : nat) (S : t4) :
  shape4 B H Sq Sk S -> shape4 B H Sq Sk (map (map (map torch.softmax)) S).
Proof.
  intros HS. eapply rows_map; [exact HS|]. intros Sb HSb.
  eapply rows_map; [exact HSb|]. intros Sh HSh.
  eapply rows_map; [exact HSh|]. intros row Hrow.
  cbv beta. rewrite softmax_length. exact Hrow.
Qed.

Lemma softmax_row4 (B H Sq Sk : nat) (S : t4) (b hd i : nat) :
  shape4 B H Sq Sk S -> (b < B)%nat -> (hd < H)%nat -> (i < Sq)%nat ->
  row4 (map (map (map torch.softmax)) S) b hd i = torch.softmax (row4 S b hd i).
Proof.
  intros HS Hb Hhd Hi. unfold row4.
  pose proof (rows_nth _ _ _ _ b [] HS Hb) as HSb.
  pose proof (rows_nth _ _ _ _ hd [] HSb Hhd) as HSh.
  rewrite nth_map_in with (da := @nil (list (list R)))
    by (destruct HS as [-> _]; exact Hb).
  rewrite nth_map_in with (da := @nil (list R))
    by (destruct HSb as [-> _]; exact Hhd).
  rewrite nth_map_in with (da := @nil R)
    by (destruct HSh as [-> _]; exact Hi).
  reflexivity.
Qed.

(** The weights and the output of [attention] in evaluation mode on
    well-shaped inputs, with the scores before and after the mask. *)
Lemma attention_eval_stages
  (B H Sq Sk dk dv : nat) (query key value : t4)
  (mb mh mq mk : nat) (mask : mask4) (dropout : option Dropout.t) (s : Stream) :
  (1 <= B)%nat -> (1 <= H)%nat -> (1 <= Sq)%nat -> (1 <= Sk)%nat -> (1 <= dk)%nat ->
  shape4 B H Sq dk query -> shape4 B H Sk dk key -> shape4 B H Sk dv value ->
  shape4 mb mh mq mk mask ->
  expands mb B -> expands mh H -> expands mq Sq -> expands mk Sk ->
  exists S S' out,
    MultiHeadAttentionBlock.attention_scores query key = Ok S /\
    MultiHeadAttentionBlock.masked_fill S mask = Ok S' /\
    shape4 B H Sq Sk S /\ shape4 B H Sq Sk S' /\
    MultiHeadAttentionBlock.attention_weights query key (Some mask)
    = Ok (map (map (map torch.softmax)) S') /\
    MultiHeadAttentionBlock.attention_probs false query key (Some mask) dropout s
    = Ok (map (map (map torch.softmax)) S', s) /\
    bcast (bcast matmul) (map (map (map torch.softmax)) S') value = Ok out /\
    shape4 B H Sq dv out /\
    MultiHeadAttentionBlock.attention false query key value (Some mask) dropout s
    = Ok (out, s).
Proof.
  intros HB HH HSq HSk Hdk Hq Hk Hv Hm Hmb Hmh Hmq Hmk.
  destruct (attention_scores_shape B H Sq Sk dk query key HB HH HSq Hdk Hq Hk)
    as (S & HS & HshS).
  destruct (masked_fill_shape B H Sq Sk mb mh mq mk mask Hm Hmb Hmh Hmq Hmk S HshS)
    as (S' & HS' & HshS').
  pose proof (softmax_shape4 _ _ _ _ _ HshS') as HshW.
  destruct (bcast_rows _ _ _ (bcast matmul) _ _
              (rows H (rows Sq (fun r : list R => length r = dv)))
              _ _ _ _ HshW Hv (or_introl eq_refl)) as (out & Hout & Hshout).
  { intros Wb Vb HWb HVb.
    apply (bcast_rows _ _ _ matmul _ _ _ _ _ _ _ HWb HVb (or_introl eq_refl)).
    intros Wh Vh HWh HVh. apply (matmul_shape Sq Sk dv); assumption. }
  assert (HW : MultiHeadAttentionBlock.attention_weights query key (Some mask)
               = Ok (map (map (map torch.softmax)) S')).
  { unfold MultiHeadAttentionBlock.attention_weights. rewrite HS. cbn [rbind].
    cbn [MultiHeadAttentionBlock.apply_mask]. rewrite HS'. reflexivity. }
  assert (HP : MultiHeadAttentionBlock.attention_probs false query key (Some mask) dropout s
               = Ok (map (map (map torch.softmax)) S', s)).
  { rewrite attention_probs_eval. unfold lift. rewrite HW. reflexivity. }
  exists S, S', out. repeat (split; [assumption|]).
  unfold MultiHeadAttentionBlock.attention, bind. rewrite HP.
  unfold lift. rewrite Hout. reflexivity.
Qed.

(** C9: in evaluation mode, on well-shaped inputs (all axes non-empty, the
    mask expanding to the scores), the call returns; for every query row
    whose mask is zero at every key position each weight is [1 / seq_len_k]
    and the row of the output is the plain average of the value vectors. *)
Theorem attention_fully_masked_row_uniform
  (B H Sq Sk dk dv : nat) (query key value : t4)
  (mb mh mq mk : nat) (mask : mask4) (dropout : option Dropout.t) (s : Stream) :
  (1 <= B)%nat -> (1 <= H)%nat -> (1 <= Sq)%nat -> (1 <= Sk)%nat -> (1 <= dk)%nat ->
  shape4 B H Sq dk query -> shape4 B H Sk dk key -> shape4 B H Sk dv value ->
  shape4 mb mh mq mk mask ->
  expands mb B -> expands mh H -> expands mq Sq -> expands mk Sk ->
  exists W out,
    MultiHeadAttentionBlock.attention_probs false query key (Some mask) dropout s
    = Ok (W, s) /\
    MultiHeadAttentionBlock.attention false query key value (Some mask) dropout s
    = Ok (out, s) /\
    forall b hd i, (b < B)%nat -> (hd < H)%nat -> (i < Sq)%nat ->
      (forall j, (j < Sk)%nat -> mask_at mask b hd i j = 0%Z) ->
      row4 W b hd i = repeat (1 / INR Sk) Sk /\
      row4 out b hd i
      = map (fun c => sum_list (map (fun vk => nth c vk 0) (nth hd (nth b value []) []))
                      / INR Sk)
            (seq 0 dv).
Proof.
  intros HB HH HSq HSk Hdk Hq Hk Hv Hm Hmb Hmh Hmq Hmk.
  destruct (attention_eval_stages B H Sq Sk dk dv query key value mb mh mq mk mask
              dropout s HB HH HSq HSk Hdk Hq Hk Hv Hm Hmb Hmh Hmq Hmk)
    as (S & S' & out & HS & HS' & HshS & HshS' & HW & HP & Hout & Hshout & Hatt).
  exists (map (map (map torch.softmax)) S'), out.
  split; [exact HP|]. split; [exact Hatt|].
  intros b hd i Hb Hhd Hi Hzero.
  assert (HrowS' : row4 S' b hd i = repeat neg_1e9 Sk).
  { apply constant_row.
    - pose proof (rows_nth _ _ _ _ b [] HshS' Hb) as HSb.
      pose proof (rows_nth _ _ _ _ hd [] HSb Hhd) as HSh.
      exact (rows_nth _ _ _ _ i [] HSh Hi).
    - intros j Hj.
      pose proof (masked_fill_at B H Sq Sk mask S S' HshS HshS' HS' b hd i j
                    Hb Hhd Hi Hj) as Hat.
      unfold at4 in Hat. unfold row4. rewrite Hat, Hzero by exact Hj. reflexivity. }
  assert (HrowW : row4 (map (map (map torch.softmax)) S') b hd i
                  = repeat (1 / INR Sk) Sk).
  { rewrite (softmax_row4 B H Sq Sk) by assumption.
    rewrite HrowS'. apply softmax_repeat. exact HSk. }
  split; [exact HrowW|].
  pose proof (softmax_shape4 _ _ _ _ _ HshS') as HshW.
  set (W := map (map (map torch.softmax)) S') in *.
  pose proof (rows_nth _ _ _ _ b [] HshW Hb) as HWb.
  pose proof (rows_nth _ _ _ _ hd [] HWb Hhd) as HWh.
  pose proof (rows_nth _ _ _ _ b [] Hv Hb) as HVb.
  pose proof (rows_nth _ _ _ _ hd [] HVb Hhd) as HVh.
  pose proof (rows_nth _ _ _ _ b [] Hshout Hb) as HOb.
  pose proof (rows_nth _ _ _ _ hd [] HOb Hhd) as HOh.
  apply bcast_inv in Hout. destruct Hout as [_ H1].
  specialize (H1 b [] [] [] ltac:(destruct Hshout as [-> _]; exact Hb)).
  rewrite (bget_full _ _ W) in H1 by (destruct HshW as [-> _]; exact Hb).
  rewrite (bget_full _ _ value) in H1 by (destruct Hv as [-> _]; exact Hb).
  apply bcast_inv in H1. destruct H1 as [_ H2].
  specialize (H2 hd [] [] [] ltac:(destruct HOb as [-> _]; exact Hhd)).
  rewrite (bget_full _ _ (nth b W [])) in H2 by (destruct HWb as [-> _]; exact Hhd).
  rewrite (bget_full _ _ (nth b value [])) in H2 by (destruct HVb as [-> _]; exact Hhd).
  unfold matmul in H2. apply mapM_inv in H2. destruct H2 as [_ H3].
  specialize (H3 i [] [] ltac:(destruct HWh as [-> _]; exact Hi)).
  fold (row4 W b hd i) in H3. fold (row4 out b hd i) in H3.
  rewrite HrowW in H3. rewrite repeat_length in H3.
  destruct HVh as [HlenV HFV].
  rewrite HlenV, Nat.eqb_refl in H3. injection H3 as H3. rewrite <- H3.
  assert (Hdv : length (List.hd [] (nth hd (nth b value []) [])) = dv).
  { destruct (nth hd (nth b value []) []) as [|v0 vs]; [simpl in HlenV; lia|].
    apply Forall_inv in HFV. exact HFV. }
  rewrite Hdv. apply map_ext. intros c.
  rewrite dot_repeat by (rewrite length_map; exact HlenV).
  field. apply not_0_INR. lia.
Qed.

Lemma attention_fully_masked_row_uniform_witness :
  exists W out,
    MultiHeadAttentionBlock.attention false
      [[[[1]]]] [[[[1]; [2]]]] [[[[3]; [5]]]] (Some [[[[0%Z]]]]) None (fun _ => true)
    = Ok (out, fun _ => true) /\
    row4 W 0 0 0 = [1 / INR 2; 1 / INR 2] /\
    row4 out 0 0 0 = [(3 + (5 + 0)) / INR 2].
Proof.
  assert (Hq : shape4 1 1 1 1 [[[[1]]]]) by (repeat constructor).
  assert (Hk : shape4 1 1 2 1 [[[[1]; [2]]]]) by (repeat constructor).
  assert (Hv : shape4 1 1 2 1 [[[[3]; [5]]]]) by (repeat constructor).
  assert (Hm : shape4 1 1 1 1 [[[[0%Z]]]]) by (repeat constructor).
  destruct (attention_fully_masked_row_uniform 1 1 1 2 1 1
              [[[[1]]]] [[[[1]; [2]]]] [[[[3]; [5]]]] 1 1 1 1 [[[[0%Z]]]] None
              (fun _ => true) ltac:(lia) ltac:(lia) ltac:(lia) ltac:(lia) ltac:(lia)
              Hq Hk Hv Hm (or_introl eq_refl) (or_introl eq_refl)
              (or_introl eq_refl) (or_intror eq_refl))
    as (W & out & _ & Hout & Hrow).
  exists W, out. split; [exact Hout|].
  apply (Hrow 0%nat 0%nat 0%nat); try lia.
  intros j _. reflexivity.
Defined.

(** ** Masked keys *)

Lemma ln_million_small : ln 1000000 <= 1000000000.
Proof.
  assert (H : 1000000 < exp 1000000).
  { pose proof (exp_ineq1 1000000). lra. }
  assert (ln 1000000 < 1000000).
  { rewrite <- (ln_exp 1000000) at 2. apply ln_increasing; lra. }
  lra.
Qed.

Lemma softmax_nth (r : list R) (j : nat) :
  (j < length r)%nat ->
  nth j (torch.softmax r) 0 = exp (nth j r 0) / sum_list (map exp r).
Proof.
  intros Hj. unfold torch.softmax.
  rewrite nth_map_in with (da := 0) by exact Hj. reflexivity.
Qed.

Lemma sum_list_ge_member (l : list R) (j : nat) :
  Forall (fun w => 0 <= w) l -> (j < length l)%nat -> nth j l 0 <= sum_list l.
Proof.
  revert j. induction l as [|a l IH]; intros j HF Hj; [simpl in Hj; lia|].
  rewrite sum_list_cons.
  assert (Ha : 0 <= a) by (apply Forall_inv in HF; exact HF).
  apply Forall_inv_tail in HF.
  assert (Hs : 0 <= sum_list l).
  { clear IH Hj. induction l as [|b l IHl]; [simpl; lra|].
    rewrite sum_list_cons. pose proof (Forall_inv HF).
    apply Forall_inv_tail in HF. specialize (IHl HF). simpl in *. lra. }
  destruct j as [|j]; simpl.
  - lra.
  - simpl in Hj. specialize (IH j HF ltac:(lia)). lra.
Qed.

(** C3, as stated, fails: the fill value is the finite [-1e9], so an
    unmasked score below it loses to the masked one.  One query, keys with
    scores [0] (masked) and [-2e9] (unmasked): the masked key gets the
    larger weight, more than one half. *)
Lemma attention_masked_key_dominates_counterexample :
  exists w_masked w_unmasked,
    MultiHeadAttentionBlock.attention_weights
      [[[[1]]]] [[[[0]; [- 2000000000]]]] (Some [[[[0%Z; 1%Z]]]])
    = Ok [[[[w_masked; w_unmasked]]]] /\
    w_unmasked < w_masked /\ / 1000000 < w_masked /\
    ~ (w_masked <= / 1000000 * w_unmasked).
Proof.
  eexists. eexists. split; [reflexivity|].
  unfold shape_last, dot. cbn. rewrite sqrt_1.
  replace ((1 * - 2000000000 + 0) / 1) with (- 2000000000) by field.
  unfold neg_1e9.
  set (a := exp (- 1000000000)). set (c := exp (- 2000000000)).
  assert (Ha : 0 < a) by apply exp_pos.
  assert (Hc : 0 < c) by apply exp_pos.
  assert (Hca : c < a) by (apply exp_increasing; lra).
  assert (Ht : 0 < a + (c + 0)) by lra.
  assert (Hlt : c / (a + (c + 0)) < a / (a + (c + 0))).
  { apply Rmult_lt_compat_r; [apply Rinv_0_lt_compat; exact Ht | exact Hca]. }
  assert (Hhalf : / 2 < a / (a + (c + 0))).
  { apply (Rmult_lt_reg_r (a + (c + 0))); [exact Ht|].
    replace (a / (a + (c + 0)) * (a + (c + 0))) with a by (field; lra). lra. }
  assert (Hc1 : 0 < c / (a + (c + 0))).
  { apply Rmult_lt_0_compat; [exact Hc | apply Rinv_0_lt_compat; exact Ht]. }
  repeat split; try lra.
Qed.

(** C3 (amended): on well-shaped inputs with a mask, every score whose mask
    entry is zero is replaced by [-1e9] before the softmax and the softmax
    denominator of every row is strictly positive.  If an unmasked key [k] of
    the row has a score of at least [-1e9 + ln 1e6], the weight of every
    masked key [j] of that row is at most [1e-6] times the weight of [k], and
    at most [1e-6]. *)
Theorem attention_masked_weight_bound
  (B H Sq Sk dk : nat) (query key : t4)
  (mb mh mq mk : nat) (mask : mask4) :
  (1 <= B)%nat -> (1 <= H)%nat -> (1 <= Sq)%nat -> (1 <= Sk)%nat -> (1 <= dk)%nat ->
  shape4 B H Sq dk query -> shape4 B H Sk dk key ->
  shape4 mb mh mq mk mask ->
  expands mb B -> expands mh H -> expands mq Sq -> expands mk Sk ->
  exists S S' W,
    MultiHeadAttentionBlock.attention_scores query key = Ok S /\
    MultiHeadAttentionBlock.masked_fill S mask = Ok S' /\
    MultiHeadAttentionBlock.attention_weights query key (Some mask) = Ok W /\
    forall b hd i, (b < B)%nat -> (hd < H)%nat -> (i < Sq)%nat ->
      row4 W b hd i = torch.softmax (row4 S' b hd i) /\
      0 < sum_list (map exp (row4 S' b hd i)) /\
      forall j, (j < Sk)%nat -> mask_at mask b hd i j = 0%Z ->
        at4 S' b hd i j = neg_1e9 /\
        forall k, (k < Sk)%nat -> mask_at mask b hd i k <> 0%Z ->
          neg_1e9 + ln 1000000 <= at4 S b hd i k ->
          at4 W b hd i j <= / 1000000 * at4 W b hd i k /\
          at4 W b hd i j <= / 1000000.
Proof.
  intros HB HH HSq HSk Hdk Hq Hk Hm Hmb Hmh Hmq Hmk.
  destruct (attention_scores_shape B H Sq Sk dk query key HB HH HSq Hdk Hq Hk)
    as (S & HS & HshS).
  destruct (masked_fill_shape B H Sq Sk mb mh mq mk mask Hm Hmb Hmh Hmq Hmk S HshS)
    as (S' & HS' & HshS').
  exists S, S', (map (map (map torch.softmax)) S').
  split; [exact HS|]. split; [exact HS'|]. split.
  { unfold MultiHeadAttentionBlock.attention_weights. rewrite HS. cbn [rbind].
    cbn [MultiHeadAttentionBlock.apply_mask]. rewrite HS'. reflexivity. }
  intros b hd i Hb Hhd Hi.
  assert (Hlen : length (row4 S' b hd i) = Sk).
  { pose proof (rows_nth _ _ _ _ b [] HshS' Hb) as HSb.
    pose proof (rows_nth _ _ _ _ hd [] HSb Hhd) as HSh.
    exact (rows_nth _ _ _ _ i [] HSh Hi). }
  assert (Hne : row4 S' b hd i <> []).
  { intros E. rewrite E in Hlen. simpl in Hlen. lia. }
  pose proof (sum_exp_pos _ Hne) as HT.
  split; [apply (softmax_row4 B H Sq Sk); assumption|].
  split; [exact HT|].
  intros j Hj Hmj.
  pose proof (masked_fill_at B H Sq Sk mask S S' HshS HshS' HS' b hd i) as Hat.
  assert (Hsj : at4 S' b hd i j = neg_1e9).
  { rewrite Hat by assumption. rewrite Hmj. reflexivity. }
  split; [exact Hsj|].
  intros k Hk' Hmk' Hscore.
  assert (Hsk : at4 S' b hd i k = at4 S b hd i k).
  { rewrite Hat by assumption.
    destruct (mask_at mask b hd i k =? 0)%Z eqn:E; [|reflexivity].
    apply Z.eqb_eq in E. contradiction. }
  assert (HWj : at4 (map (map (map torch.softmax)) S') b hd i j
                = exp neg_1e9 / sum_list (map exp (row4 S' b hd i))).
  { change (at4 (map (map (map torch.softmax)) S') b hd i j)
      with (nth j (row4 (map (map (map torch.softmax)) S') b hd i) 0).
    rewrite (softmax_row4 B H Sq Sk) by assumption.
    rewrite softmax_nth by (rewrite Hlen; exact Hj).
    change (nth j (row4 S' b hd i) 0) with (at4 S' b hd i j).
    rewrite Hsj. reflexivity. }
  assert (HWk : at4 (map (map (map torch.softmax)) S') b hd i k
                = exp (at4 S b hd i k) / sum_list (map exp (row4 S' b hd i))).
  { change (at4 (map (map (map torch.softmax)) S') b hd i k)
      with (nth k (row4 (map (map (map torch.softmax)) S') b hd i) 0).
    rewrite (softmax_row4 B H Sq Sk) by assumption.
    rewrite softmax_nth by (rewrite Hlen; exact Hk').
    change (nth k (row4 S' b hd i) 0) with (at4 S' b hd i k).
    rewrite Hsk. reflexivity. }
  assert (Hexp : exp neg_1e9 <= / 1000000 * exp (at4 S b hd i k)).
  { assert (Hmono : exp (neg_1e9 + ln 1000000) <= exp (at4 S b hd i k)).
    { destruct Hscore as [Hlt | Heq];
        [left; apply exp_increasing; exact Hlt | rewrite Heq; right; reflexivity]. }
    rewrite exp_plus, exp_ln in Hmono by lra.
    pose proof (exp_pos neg_1e9). lra. }
  assert (Hinv : 0 < / sum_list (map exp (row4 S' b hd i)))
    by (apply Rinv_0_lt_compat; exact HT).
  assert (Hfirst : at4 (map (map (map torch.softmax)) S') b hd i j
                   <= / 1000000 * at4 (map (map (map torch.softmax)) S') b hd i k).
  { rewrite HWj, HWk. unfold Rdiv.
    rewrite <- Rmult_assoc.
    apply Rmult_le_compat_r; [lra | exact Hexp]. }
  split; [exact Hfirst|].
  assert (Hk1 : at4 (map (map (map torch.softmax)) S') b hd i k <= 1).
  { change (at4 (map (map (map torch.softmax)) S') b hd i k)
      with (nth k (row4 (map (map (map torch.softmax)) S') b hd i) 0).
    rewrite (softmax_row4 B H Sq Sk) by assumption.
    rewrite <- (softmax_sums_to_one (row4 S' b hd i) Hne).
    apply sum_list_ge_member; [apply softmax_nonneg|].
    rewrite softmax_length, Hlen. exact Hk'. }
  lra.
Qed.

Lemma attention_masked_weight_bound_witness :
  exists W,
    MultiHeadAttentionBlock.attention_weights
      [[[[1]]]] [[[[0]; [0]]]] (Some [[[[0%Z; 1%Z]]]]) = Ok W /\
    at4 W 0 0 0 0 <= / 1000000 * at4 W 0 0 0 1.
Proof.
  assert (Hq : shape4 1 1 1 1 [[[[1]]]]) by (repeat constructor).
  assert (Hk : shape4 1 1 2 1 [[[[0]; [0]]]]) by (repeat constructor).
  assert (Hm : shape4 1 1 1 2 [[[[0%Z; 1%Z]]]]) by (repeat constructor).
  destruct (attention_masked_weight_bound 1 1 1 2 1
              [[[[1]]]] [[[[0]; [0]]]] 1 1 1 2 [[[[0%Z; 1%Z]]]]
              ltac:(lia) ltac:(lia) ltac:(lia) ltac:(lia) ltac:(lia)
              Hq Hk Hm (or_introl eq_refl) (or_introl eq_refl)
              (or_introl eq_refl) (or_introl eq_refl))
    as (S & S' & W & HS & _ & HW & Hrows).
  exists W. split; [exact HW|].
  assert (HS0 : MultiHeadAttentionBlock.attention_scores [[[[1]]]] [[[[0]; [0]]]]
                = Ok [[[[(1 * 0 + 0) / sqrt (INR 1); (1 * 0 + 0) / sqrt (INR 1)]]]])
    by reflexivity.
  rewrite HS0 in HS. injection HS as <-.
  destruct (Hrows 0%nat 0%nat 0%nat ltac:(lia) ltac:(lia) ltac:(lia))
    as (_ & _ & Hj).
  destruct (Hj 0%nat ltac:(lia) eq_refl) as [_ Hk'].
  apply (Hk' 1%nat); [lia | discriminate |].
  unfold at4. cbn [nth INR]. rewrite sqrt_1.
  pose proof ln_million_small. unfold neg_1e9. lra.
Defined.

(** ** Residual *)

Lemma add3_same_shape (B S D : nat) (x y : t3) :
  shape3 B S D x -> shape3 B S D y ->
  exists z, add3 x y = Ok z /\ shape3 B S D z /\
    forall b i j, (b < B)%nat -> (i < S)%nat -> (j < D)%nat ->
      at3 z b i j = at3 x b i j + at3 y b i j.
Proof.
  intros Hx Hy. unfold add3.
  destruct (bcast_rows _ _ _ (bcast (bcast (fun a b : R => Ok (a + b)))) _ _
              (rows S (fun r : list R => length r = D))
              _ _ _ _ Hx Hy (or_introl eq_refl)) as (z & Hz & Hshz).
  { intros xb yb Hxb Hyb.
    apply (bcast_rows _ _ _ _ _ _ _ _ _ _ _ Hxb Hyb (or_introl eq_refl)).
    intros xr yr Hxr Hyr.
    destruct (bcast_rows _ _ _ (fun a b : R => Ok (a + b))
                (fun _ => True) (fun _ => True) (fun _ => True) D D xr yr)
      as (r & Hr & Hlen & _).
    - split; [exact Hxr | apply Forall_forall; intros; exact I].
    - split; [exact Hyr | apply Forall_forall; intros; exact I].
    - left; reflexivity.
    - intros a b _ _. eexists. split; [reflexivity | exact I].
    - exists r. split; assumption. }
  exists z. split; [exact Hz|]. split; [exact Hshz|].
  intros b i j Hb Hi Hj. unfold at3.
  pose proof (rows_nth _ _ _ _ b [] Hx Hb) as Hxb.
  pose proof (rows_nth _ _ _ _ b [] Hy Hb) as Hyb.
  pose proof (rows_nth _ _ _ _ b [] Hshz Hb) as Hzb.
  pose proof (rows_nth _ _ _ _ i [] Hxb Hi) as Hxr.
  pose proof (rows_nth _ _ _ _ i [] Hyb Hi) as Hyr.
  pose proof (rows_nth _ _ _ _ i [] Hzb Hi) as Hzr.
  cbv beta in Hxr, Hyr, Hzr.
  apply bcast_inv in Hz. destruct Hz as [_ H1].
  specialize (H1 b [] [] [] ltac:(destruct Hshz as [-> _]; exact Hb)).
  rewrite (bget_full _ _ x) in H1 by (destruct Hx as [-> _]; exact Hb).
  rewrite (bget_full _ _ y) in H1 by (destruct Hy as [-> _]; exact Hb).
  apply bcast_inv in H1. destruct H1 as [_ H2].
  specialize (H2 i [] [] [] ltac:(destruct Hzb as [-> _]; exact Hi)).
  rewrite (bget_full _ _ (nth b x [])) in H2 by (destruct Hxb as [-> _]; exact Hi).
  rewrite (bget_full _ _ (nth b y [])) in H2 by (destruct Hyb as [-> _]; exact Hi).
  apply bcast_inv in H2. destruct H2 as [_ H3].
  specialize (H3 j 0 0 0 ltac:(rewrite Hzr; exact Hj)).
  rewrite (bget_full _ _ (nth i (nth b x []) [])) in H3 by (rewrite Hxr; exact Hj).
  rewrite (bget_full _ _ (nth i (nth b y []) [])) in H3 by (rewrite Hyr; exact Hj).
  injection H3 as H3. symmetry. exact H3.
Qed.

(** C7: [Residual.forward] is [x + Dropout(f(LayerNorm(x)))]: the sublayer
    receives the normalised input, and what is added back to the dropped-out
    sublayer output is the input itself, not its normalisation.  With dropout
    disabled and a sublayer output [y = f(LayerNorm(x))] of the input's
    shape, every entry of the result is [x + y] at that entry. *)
Theorem Residual_forward_pre_norm
  (training : bool) (r : Residual.t) (x : t3) (f : t3 -> M t3) (s : Stream) :
  Residual.forward training r x f s = spec_ResidualSublayer training r x f s /\
  forall B S D normed y s1,
    LayerNormalization.forward (Residual.norm r) x = Ok normed ->
    f normed s = Ok (y, s1) ->
    shape3 B S D x -> shape3 B S D y ->
    exists out,
      Residual.forward false r x f s = Ok (out, s1) /\
      forall b i j, (b < B)%nat -> (i < S)%nat -> (j < D)%nat ->
        at3 out b i j = at3 x b i j + at3 y b i j.
Proof.
  split.
  - unfold Residual.forward, spec_ResidualSublayer, bind, lift.
    destruct (LayerNormalization.forward (Residual.norm r) x) as [n| |];
      reflexivity.
  - intros B S D normed y s1 Hn Hf Hx Hy.
    destruct (add3_same_shape B S D x y Hx Hy) as (z & Hz & _ & Hat).
    exists z. split; [|exact Hat].
    unfold Residual.forward, bind, lift. rewrite Hn, Hf.
    cbn [Dropout.forward3 ret]. rewrite Hz. reflexivity.
Qed.

Lemma Residual_forward_pre_norm_witness :
  exists out,
    Residual.forward false residual_default [[[0; 2]]]
      (fun _ => ret [[[10; 20]]]) (fun _ => true)
    = Ok (out, fun _ => true) /\
    at3 out 0 0 1 = 2 + 20.
Proof.
  assert (Hn : exists normed,
             LayerNormalization.forward (Residual.norm residual_default) [[[0; 2]]]
             = Ok normed).
  { unfold LayerNormalization.forward. cbn [mapM].
    rewrite forward_token_closed by (simpl; lia). eexists. reflexivity. }
  destruct Hn as [normed Hn].
  destruct (Residual_forward_pre_norm false residual_default [[[0; 2]]]
              (fun _ => ret [[[10; 20]]]) (fun _ => true)) as [_ H].
  destruct (H 1%nat 1%nat 2%nat normed [[[10; 20]]] (fun _ => true) Hn eq_refl)
    as (out & Hout & Hat).
  - repeat constructor.
  - repeat constructor.
  - exists out. split; [exact Hout|].
    apply (Hat 0%nat 0%nat 1%nat); lia.
Defined.

(** ** Determinism in evaluation mode *)

Create HintDb indep.

Lemma indep_ret (A : Type) (a : A) : stream_independent (ret a).
Proof. exists (Ok a). intros s. reflexivity. Qed.

Lemma indep_lift (A : Type) (r : res A) : stream_independent (lift r).
Proof. exists r. intros s. reflexivity. Qed.

Lemma indep_bind (A B : Type) (m : M A) (k : A -> M B) :
  stream_independent m -> (forall a, stream_independent (k a)) ->
  stream_independent (bind m k).
Proof.
  intros [v Hv] Hk. destruct v as [a| e |].
  - destruct (Hk a) as [w Hw]. exists w. intros s.
    unfold bind. rewrite Hv. cbn [lift]. apply Hw.
  - exists (Raise e). intros s. unfold bind. rewrite Hv. reflexivity.
  - exists NonFinite. intros s. unfold bind. rewrite Hv. reflexivity.
Qed.

Lemma indep_dropout3 (d : Dropout.t) (x : t3) :
  stream_independent (Dropout.forward3 false d x).
Proof. apply indep_ret. Qed.

Lemma indep_dropout4 (d : Dropout.t) (x : t4) :
  stream_independent (Dropout.forward4 false d x).
Proof. apply indep_ret. Qed.

#[local] Hint Resolve indep_ret indep_lift indep_dropout3 indep_dropout4 : indep.

Ltac indep_step :=
  repeat (apply indep_bind; [|intros ?]); auto with indep.

Lemma indep_PositionalEncoding (pe : PositionalEncoding.t) (x : t3) :
  stream_independent (PositionalEncoding.forward false pe x).
Proof. unfold PositionalEncoding.forward. indep_step. Qed.

Lemma indep_FeedForwardBlock (ff : FeedForwardBlock.t) (x : t3) :
  stream_independent (FeedForwardBlock.forward false ff x).
Proof. unfold FeedForwardBlock.forward. indep_step. Qed.

Lemma indep_attention (query key value : t4) (mask : option mask4)
  (dropout : option Dropout.t) :
  stream_independent
    (MultiHeadAttentionBlock.attention false query key value mask dropout).
Proof.
  unfold MultiHeadAttentionBlock.attention. apply indep_bind.
  - rewrite attention_probs_eval. apply indep_lift.
  - intros w. apply indep_lift.
Qed.

#[local] Hint Resolve indep_attention indep_FeedForwardBlock indep_PositionalEncoding : indep.

Lemma indep_MultiHeadAttentionBlock (a : MultiHeadAttentionBlock.t)
  (q k v : t3) (mask : option mask4) :
  stream_independent (MultiHeadAttentionBlock.forward false a q k v mask).
Proof. unfold MultiHeadAttentionBlock.forward. indep_step. Qed.

Lemma indep_Residual (r : Residual.t) (x : t3) (sublayer : t3 -> M t3) :
  (forall n, stream_independent (sublayer n)) ->
  stream_independent (Residual.forward false r x sublayer).
Proof. intros Hsub. unfold Residual.forward. indep_step. Qed.

Lemma indep_EncoderBlock (b : EncoderBlock.t) (x : t3) (mask : option mask4) :
  stream_independent (EncoderBlock.forward false b x mask).
Proof.
  unfold EncoderBlock.forward.
  apply indep_bind.
  - apply indep_Residual. intros n. apply indep_MultiHeadAttentionBlock.
  - intros y. apply indep_bind; [|intros z; apply indep_ret].
    apply indep_Residual. intros n. apply indep_FeedForwardBlock.
Qed.

Lemma indep_run_layers (ls : list EncoderBlock.t) (x : t3) (mask : option mask4) :
  stream_independent (Encoder.run_layers false ls x mask).
Proof.
  revert x. induction ls as [|layer ls IH]; intros x; cbn [Encoder.run_layers].
  - apply indep_ret.
  - apply indep_bind; [apply indep_EncoderBlock | intros y; apply IH].
Qed.

Lemma indep_Encoder (e : Encoder.t) (x : t3) (mask : option mask4) :
  stream_independent (Encoder.forward false e x mask).
Proof.
  unfold Encoder.forward.
  apply indep_bind; [apply indep_run_layers | intros y; apply indep_lift].
Qed.

(** In training mode the output does depend on the stream. *)
Lemma dropout_training_depends_on_stream :
  value_of (Dropout.forward3 true {| Dropout.p := 0 |} [[[1]]] (fun _ => true))
  <> value_of (Dropout.forward3 true {| Dropout.p := 0 |} [[[1]]] (fun _ => false)).
Proof.
  cbn. intros H. injection H as H. lra.
Qed.

(** C8: with dropout disabled and fixed weights, the output of the pipeline
    (embedding, positional encoding, encoder stack) on given token ids and
    mask is one fixed outcome: it does not depend on the state of the random
    stream, which the call leaves untouched, so any two invocations agree. *)
Theorem pipeline_forward_deterministic
  (m : Pipeline) (token_ids : list (list Z)) (mask : option mask4) :
  (exists v : res t3, forall s, pipeline_forward false m token_ids mask s = lift v s) /\
  forall s1 s2,
    value_of (pipeline_forward false m token_ids mask s1)
    = value_of (pipeline_forward false m token_ids mask s2).
Proof.
  assert (H : stream_independent (pipeline_forward false m token_ids mask)).
  { unfold pipeline_forward.
    apply indep_bind; [apply indep_lift | intros x].
    apply indep_bind; [apply indep_PositionalEncoding | intros y].
    apply indep_Encoder. }
  split; [exact H|].
  destruct H as [v Hv]. intros s1 s2. rewrite !Hv.
  destruct v; reflexivity.
Qed.

(** * Further properties of the source *)

(** ** InputEmbedding *)

Lemma mapM_raise (A B : Type) (f : A -> res B) (e : exn) (l : list A) :
  (forall a, In a l -> (exists b, f a = Ok b) \/ f a = Raise e) ->
  (exists a, In a l /\ f a = Raise e) ->
  mapM f l = Raise e.
Proof.
  induction l as [|a l IH]; intros Hall [a0 [Hin Hr]]; [contradiction|].
  cbn [mapM].
  destruct (Hall a (or_introl eq_refl)) as [[b Hb] | Ha].
  - rewrite Hb. cbn [rbind].
    destruct Hin as [-> | Hin]; [congruence|].
    rewrite IH; [reflexivity | |].
    + intros a' Ha'. apply Hall. right. exact Ha'.
    + exists a0. split; assumption.
  - rewrite Ha. reflexivity.
Qed.

Lemma lookup_outcome (e : InputEmbedding.t) (id : Z) :
  ((0 <= id < Z.of_nat (length (InputEmbedding.embedding e)))%Z /\
   InputEmbedding.lookup e id
   = Ok (nth (Z.to_nat id) (InputEmbedding.embedding e) [])) \/
  (~ (0 <= id < Z.of_nat (length (InputEmbedding.embedding e)))%Z /\
   InputEmbedding.lookup e id = Raise IndexError).
Proof.
  unfold InputEmbedding.lookup.
  destruct ((0 <=? id) && (id <? Z.of_nat (length (InputEmbedding.embedding e))))%Z
    eqn:E.
  - left. apply andb_true_iff in E. destruct E as [E1 E2].
    apply Z.leb_le in E1. apply Z.ltb_lt in E2. split; [lia | reflexivity].
  - right. apply andb_false_iff in E. split; [|reflexivity].
    destruct E as [E | E]; [apply Z.leb_gt in E | apply Z.ltb_ge in E]; lia.
Qed.

Lemma InputEmbedding_forward_closed
  (e : InputEmbedding.t) (x : list (list Z)) (B S D : nat) :
  (0 <= InputEmbedding.d_model e)%Z ->
  (forall row id, In row x -> In id row ->
     (0 <= id < Z.of_nat (length (InputEmbedding.embedding e)))%Z) ->
  rows B (fun row => length row = S) x ->
  Forall (fun r => length r = D) (InputEmbedding.embedding e) ->
  InputEmbedding.forward e x =
    Ok (map (map (fun id =>
          map (fun v => v * sqrt (IZR (InputEmbedding.d_model e)))
              (nth (Z.to_nat id) (InputEmbedding.embedding e) []))) x) /\
  shape3 B S D
    (map (map (fun id =>
          map (fun v => v * sqrt (IZR (InputEmbedding.d_model e)))
              (nth (Z.to_nat id) (InputEmbedding.embedding e) []))) x).
Proof.
  intros Hd Hids Hx Htab.
  assert (Hemb : mapM (mapM (InputEmbedding.lookup e)) x
                 = Ok (map (map (fun id => nth (Z.to_nat id)
                                             (InputEmbedding.embedding e) [])) x)).
  { apply mapM_ok. intros row Hrow. apply mapM_ok. intros id Hid.
    destruct (lookup_outcome e id) as [[_ H] | [Hn _]]; [exact H|].
    exfalso. apply Hn. exact (Hids row id Hrow Hid). }
  split.
  { unfold InputEmbedding.forward. rewrite Hemb. cbn [rbind].
    unfold InputEmbedding.math_sqrt.
    replace (InputEmbedding.d_model e <? 0)%Z with false
      by (symmetry; apply Z.ltb_ge; exact Hd).
    cbn [rbind]. rewrite !map_map. f_equal.
    apply map_ext. intros row. rewrite map_map. reflexivity. }
  destruct Hx as [HB HS]. rewrite Forall_forall in HS, Htab.
  split; [rewrite length_map; exact HB|].
  apply Forall_forall. intros yb Hyb.
  apply in_map_iff in Hyb. destruct Hyb as (row & <- & Hrow).
  split; [rewrite length_map; apply HS, Hrow|].
  apply Forall_forall. intros t Ht.
  apply in_map_iff in Ht. destruct Ht as (id & <- & Hid).
  rewrite length_map. apply Htab, nth_In.
  pose proof (Hids row id Hrow Hid). lia.
Qed.

(** X1: when every token id lies in [[0, vocab_size)] and [d_model >= 0],
    the embedding of ids of shape [[B, S]] over a table of width [D] returns
    a tensor of shape [[B, S, D]] whose vector at batch [b], position [i]
    is the table row of the id found there, multiplied by [sqrt d_model]. *)
Theorem InputEmbedding_forward_valid
  (e : InputEmbedding.t) (x : list (list Z)) (B S D : nat) :
  (0 <= InputEmbedding.d_model e)%Z ->
  (forall row id, In row x -> In id row ->
     (0 <= id < Z.of_nat (length (InputEmbedding.embedding e)))%Z) ->
  rows B (fun row => length row = S) x ->
  Forall (fun r => length r = D) (InputEmbedding.embedding e) ->
  exists y,
    InputEmbedding.forward e x = Ok y /\ shape3 B S D y /\
    forall b i, (b < B)%nat -> (i < S)%nat ->
      nth i (nth b y []) []
      = map (fun v => v * sqrt (IZR (InputEmbedding.d_model e)))
            (nth (Z.to_nat (nth i (nth b x []) 0%Z)) (InputEmbedding.embedding e) []).
Proof.
  intros Hd Hids Hx Htab.
  destruct (InputEmbedding_forward_closed e x B S D Hd Hids Hx Htab) as [Hf Hsh].
  eexists. split; [exact Hf|]. split; [exact Hsh|].
  intros b i Hb Hi.
  pose proof (rows_nth _ _ _ _ b [] Hx Hb) as Hrow. cbv beta in Hrow.
  rewrite nth_map_in with (da := @nil Z) by (destruct Hx as [-> _]; exact Hb).
  rewrite nth_map_in with (da := 0%Z) by (rewrite Hrow; exact Hi).
  reflexivity.
Qed.

Lemma InputEmbedding_forward_valid_witness :
  exists y,
    InputEmbedding.forward
      {| InputEmbedding.d_model := 2; InputEmbedding.vocab_size := 2;
         InputEmbedding.embedding := [[1; 2]; [3; 4]] |} [[1%Z; 0%Z]] = Ok y /\
    shape3 1 2 2 y.
Proof.
  destruct (InputEmbedding_forward_valid
              {| InputEmbedding.d_model := 2; InputEmbedding.vocab_size := 2;
                 InputEmbedding.embedding := [[1; 2]; [3; 4]] |} [[1%Z; 0%Z]] 1 2 2)
    as (y & Hy & Hsh & _).
  - simpl. lia.
  - intros row id [<- | []] [<- | [<- | []]]; simpl; lia.
  - repeat constructor.
  - repeat constructor.
  - exists y. split; [exact Hy | exact Hsh].
Defined.

(** X2: a token id outside [[0, vocab_size)] anywhere in the input makes the
    embedding raise [IndexError], and with it the whole pipeline, in either
    mode and whatever the state of the random stream. *)
Theorem InputEmbedding_forward_out_of_range
  (e : InputEmbedding.t) (x : list (list Z)) (row : list Z) (id : Z) :
  In row x -> In id row ->
  ~ (0 <= id < Z.of_nat (length (InputEmbedding.embedding e)))%Z ->
  InputEmbedding.forward e x = Raise IndexError /\
  forall training m mask s,
    embedding m = e ->
    pipeline_forward training m x mask s = Raise IndexError.
Proof.
  intros Hrow Hid Hout.
  assert (Hf : InputEmbedding.forward e x = Raise IndexError).
  { unfold InputEmbedding.forward.
    assert (Hin : forall r, (exists b, mapM (InputEmbedding.lookup e) r = Ok b)
                            \/ mapM (InputEmbedding.lookup e) r = Raise IndexError).
    { induction r as [|a r IH]; [left; eexists; reflexivity|].
      cbn [mapM]. destruct (lookup_outcome e a) as [[_ Ha] | [_ Ha]]; rewrite Ha.
      - cbn [rbind]. destruct IH as [[b Hb] | Hb]; rewrite Hb;
          [left; eexists; reflexivity | right; reflexivity].
      - right. reflexivity. }
    rewrite (mapM_raise _ _ _ IndexError); [reflexivity | intros r _; apply Hin |].
    exists row. split; [exact Hrow|].
    apply mapM_raise.
    - intros a _. destruct (lookup_outcome e a) as [[_ Ha] | [_ Ha]];
        [left; eexists; exact Ha | right; exact Ha].
    - exists id. split; [exact Hid|].
      destruct (lookup_outcome e id) as [[Hr _] | [_ Ha]]; [contradiction | exact Ha]. }
  split; [exact Hf|].
  intros training m mask s <-. unfold pipeline_forward, bind, lift.
  rewrite Hf. reflexivity.
Qed.

Lemma InputEmbedding_forward_out_of_range_witness :
  InputEmbedding.forward
    {| InputEmbedding.d_model := 2; InputEmbedding.vocab_size := 2;
       InputEmbedding.embedding := [[1; 2]; [3; 4]] |} [[0%Z; 2%Z]]
  = Raise IndexError.
Proof.
  apply (InputEmbedding_forward_out_of_range
           {| InputEmbedding.d_model := 2; InputEmbedding.vocab_size := 2;
              InputEmbedding.embedding := [[1; 2]; [3; 4]] |}
           [[0%Z; 2%Z]] [0%Z; 2%Z] 2%Z).
  - left. reflexivity.
  - right. left. reflexivity.
  - simpl. lia.
Defined.

(** ** PositionalEncoding: construction *)

Lemma Dropout_init_invalid (p : R) :
  p < 0 \/ 1 < p -> Dropout.init p = Raise ValueError.
Proof.
  intros Hp. unfold Dropout.init.
  destruct (Rlt_dec p 0); [reflexivity|].
  destruct (Rlt_dec 1 p); [reflexivity|]. lra.
Qed.

(** X3: the outcomes of [PositionalEncoding.__init__].  A dropout rate
    outside [[0, 1]] raises [ValueError]; otherwise a negative [seq_len] or
    [d_model] raises [RuntimeError], [d_model = 0] raises
    [ZeroDivisionError], an odd [d_model >= 3] raises [RuntimeError] (the
    cosine columns do not fit their slice), and every even positive
    [d_model] (and [d_model = 1]) builds the buffer. *)
Theorem PositionalEncoding_init_outcome (d_model seq_len : Z) (dropout : R) :
  (dropout < 0 \/ 1 < dropout ->
   PositionalEncoding.init d_model seq_len dropout = Raise ValueError) /\
  (0 <= dropout <= 1 ->
   ((seq_len < 0 \/ d_model < 0)%Z ->
    PositionalEncoding.init d_model seq_len dropout = Raise RuntimeError) /\
   ((0 <= seq_len)%Z -> d_model = 0%Z ->
    PositionalEncoding.init d_model seq_len dropout = Raise ZeroDivisionError) /\
   ((0 <= seq_len)%Z -> (3 <= d_model)%Z -> (d_model mod 2 = 1)%Z ->
    PositionalEncoding.init d_model seq_len dropout = Raise RuntimeError) /\
   ((0 <= seq_len)%Z -> (0 < d_model)%Z -> (d_model mod 2 = 0 \/ d_model = 1)%Z ->
    exists pe, PositionalEncoding.init d_model seq_len dropout = Ok pe)).
Proof.
  split.
  - intros Hp. unfold PositionalEncoding.init.
    rewrite Dropout_init_invalid by exact Hp. reflexivity.
  - intros Hp. repeat split.
    + intros Hneg. unfold PositionalEncoding.init.
      rewrite Dropout_init_ok by exact Hp. cbn [rbind].
      unfold PositionalEncoding.zeros.
      replace ((seq_len <? 0) || (d_model <? 0))%Z with true; [reflexivity|].
      symmetry. apply orb_true_iff.
      destruct Hneg; [left | right]; apply Z.ltb_lt; assumption.
    + intros Hl ->. unfold PositionalEncoding.init.
      rewrite Dropout_init_ok by exact Hp. cbn [rbind].
      unfold PositionalEncoding.zeros.
      replace ((seq_len <? 0) || (0 <? 0))%Z with false
        by (symmetry; apply orb_false_iff; split; apply Z.ltb_ge; lia).
      reflexivity.
    + intros Hl Hd Hodd. apply PositionalEncoding_init_odd; assumption.
    + intros Hl Hd Hev. apply PositionalEncoding_init_ok; assumption.
Qed.

Lemma PositionalEncoding_init_outcome_witness :
  PositionalEncoding.init 3 5 (1 / 10) = Raise RuntimeError /\
  exists pe, PositionalEncoding.init 512 5 (1 / 10) = Ok pe.
Proof.
  destruct (PositionalEncoding_init_outcome 3 5 (1 / 10)) as [_ H3].
  destruct (PositionalEncoding_init_outcome 512 5 (1 / 10)) as [_ H512].
  split.
  - apply H3; [lra | lia | lia | reflexivity].
  - apply H512; [lra | lia | lia | left; reflexivity].
Defined.

Lemma set_stride_Forall (P : R -> Prop) (start step : nat) (trow srow : list R) :
  P 0 -> Forall P trow -> Forall P srow ->
  Forall P (set_stride start step trow srow).
Proof.
  intros H0 Ht Hs. unfold set_stride. rewrite Forall_forall in *.
  intros v Hv. apply in_map_iff in Hv. destruct Hv as ([j t] & <- & Hjt).
  cbn [fst snd].
  destruct ((start <=? j) && ((j - start) mod step =? 0))%nat.
  - destruct (nth_in_or_default (bidx srow ((j - start) / step)) srow 0)
      as [Hin | ->]; [apply Hs, Hin | exact H0].
  - apply Ht. eapply in_combine_r. exact Hjt.
Qed.

(** X4: every entry of the table built by the constructor lies in
    [[-1, 1]]. *)
Theorem PositionalEncoding_table_bounded
  (d_model seq_len : Z) (dropout : R) (pe : PositionalEncoding.t) :
  PositionalEncoding.init d_model seq_len dropout = Ok pe ->
  Forall (Forall (Forall (fun v => -1 <= v <= 1)))
         (PositionalEncoding.positional_encoding pe).
Proof.
  unfold PositionalEncoding.init. intros H.
  destruct (Dropout.init dropout) as [dr| |]; cbn [rbind] in H; try discriminate.
  destruct (PositionalEncoding.zeros seq_len d_model) as [pe0| |] eqn:Hz;
    cbn [rbind] in H; try discriminate.
  destruct (d_model =? 0)%Z; cbn [rbind] in H; try discriminate.
  unfold setitem_cols in H.
  match type of H with
  | context [if ?c then _ else _] => destruct c; cbn [rbind] in H; try discriminate
  end.
  match type of H with
  | context [mapM2 ?f ?a ?b] => destruct (mapM2 f a b) as [pe1| |] eqn:H1
  end; cbn [rbind] in H; try discriminate.
  match type of H with
  | context [if ?c then _ else _] => destruct c; cbn [rbind] in H; try discriminate
  end.
  match type of H with
  | context [mapM2 ?f ?a ?b] => destruct (mapM2 f a b) as [pe2| |] eqn:H2
  end; cbn [rbind] in H; try discriminate.
  injection H as <-. cbn [PositionalEncoding.positional_encoding].
  constructor; [|constructor].
  assert (Hb0 : -1 <= 0 <= 1) by lra.
  assert (Hpe0 : Forall (Forall (fun v => -1 <= v <= 1)) pe0).
  { unfold PositionalEncoding.zeros in Hz.
    destruct ((seq_len <? 0) || (d_model <? 0))%Z; try discriminate.
    injection Hz as <-. apply Forall_forall. intros r Hr.
    apply repeat_spec in Hr. subst r. apply Forall_forall. intros v Hv.
    apply repeat_spec in Hv. subst v. exact Hb0. }
  assert (Hstep : forall start (tgt src out : list (list R)),
             mapM2 (fun trow srow => Ok (set_stride start 2 trow srow)) tgt src = Ok out ->
             Forall (Forall (fun v => -1 <= v <= 1)) tgt ->
             Forall (Forall (fun v => -1 <= v <= 1)) src ->
             Forall (Forall (fun v => -1 <= v <= 1)) out).
  { intros start tgt src out Hm Htgt Hsrc.
    apply mapM2_inv in Hm. destruct Hm as (Hlen & Hlo & Hnth).
    apply Forall_forall. intros r Hr.
    destruct (In_nth _ _ [] Hr) as (i & Hi & <-).
    rewrite Hlo in Hi. specialize (Hnth i [] [] [] Hi).
    injection Hnth as Hnth. rewrite <- Hnth.
    rewrite Forall_forall in Htgt, Hsrc.
    apply set_stride_Forall; [exact Hb0 | apply Htgt, nth_In, Hi |].
    apply Hsrc, nth_In. rewrite <- Hlen. exact Hi. }
  assert (Hsin : forall (l : list R) (ps : list R),
             Forall (Forall (fun v => -1 <= v <= 1))
               (map (fun pos => map (fun dt => sin (pos * dt)) l) ps)).
  { intros l ps. apply Forall_forall. intros r Hr.
    apply in_map_iff in Hr. destruct Hr as (pos & <- & _).
    apply Forall_forall. intros v Hv.
    apply in_map_iff in Hv. destruct Hv as (dt & <- & _).
    pose proof (SIN_bound (pos * dt)). lra. }
  assert (Hcos : forall (l : list R) (ps : list R),
             Forall (Forall (fun v => -1 <= v <= 1))
               (map (fun pos => map (fun dt => cos (pos * dt)) l) ps)).
  { intros l ps. apply Forall_forall. intros r Hr.
    apply in_map_iff in Hr. destruct Hr as (pos & <- & _).
    apply Forall_forall. intros v Hv.
    apply in_map_iff in Hv. destruct Hv as (dt & <- & _).
    pose proof (COS_bound (pos * dt)). lra. }
  eapply Hstep; [exact H2 | | apply Hcos].
  eapply Hstep; [exact H1 | exact Hpe0 | apply Hsin].
Qed.

Lemma PositionalEncoding_table_bounded_witness :
  Forall (Forall (Forall (fun v => -1 <= v <= 1)))
         (PositionalEncoding.positional_encoding pe_one_row).
Proof.
  exact (PositionalEncoding_table_bounded 2 1 0 pe_one_row PositionalEncoding_init_2_1).
Defined.

(** ** LayerNormalization: invariances and bounds *)

Lemma sum_list_map_plus (c : R) (l : list R) :
  sum_list (map (fun a => a + c) l) = sum_list l + INR (length l) * c.
Proof.
  induction l as [|a l IH].
  - simpl. lra.
  - change (length (a :: l)) with (S (length l)). rewrite S_INR.
    rewrite map_cons, !sum_list_cons, IH. lra.
Qed.

Lemma rmean_shift (c : R) (x : list R) :
  x <> [] -> rmean (map (fun a => a + c) x) = rmean x + c.
Proof.
  intros Hx. unfold rmean. rewrite sum_list_map_plus, length_map.
  assert (0 < INR (length x)).
  { apply lt_0_INR. destruct x; [congruence | simpl; lia]. }
  field. lra.
Qed.

Lemma rvar_shift (c : R) (x : list R) :
  x <> [] -> rvar (map (fun a => a + c) x) = rvar x.
Proof.
  intros Hx. unfold rvar. rewrite rmean_shift by exact Hx.
  rewrite map_map, length_map. f_equal. f_equal.
  apply map_ext. intros a. lra.
Qed.

(** X5: adding one constant to every feature of a token does not change
    the output of LayerNorm. *)
Theorem LayerNorm_shift_invariant (ln : LayerNormalization.t) (x : list R) (c : R) :
  (2 <= length x)%nat ->
  LayerNormalization.forward_token ln (map (fun a => a + c) x)
  = LayerNormalization.forward_token ln x.
Proof.
  intros Hl.
  assert (Hx : x <> []) by (destruct x; [simpl in Hl; lia | congruence]).
  rewrite !forward_token_closed by (try rewrite length_map; exact Hl).
  rewrite rmean_shift, rvar_shift by exact Hx.
  rewrite map_map. f_equal. apply map_ext. intros a.
  replace (a + c - (rmean x + c)) with (a - rmean x) by lra. reflexivity.
Qed.

Lemma LayerNorm_shift_invariant_witness :
  LayerNormalization.forward_token ln_default (map (fun a => a + 7) [0; 2])
  = LayerNormalization.forward_token ln_default [0; 2].
Proof.
  apply LayerNorm_shift_invariant. simpl. lia.
Defined.

Lemma sum_list_nonneg (l : list R) : Forall (fun w => 0 <= w) l -> 0 <= sum_list l.
Proof.
  induction l as [|a l IH]; intros H; [simpl; lra|].
  rewrite sum_list_cons. pose proof (Forall_inv H).
  apply Forall_inv_tail in H. specialize (IH H). cbv beta in *. lra.
Qed.

Lemma deviation_le_total (x : list R) (i : nat) :
  (2 <= length x)%nat -> (i < length x)%nat ->
  (nth i x 0 - rmean x) * (nth i x 0 - rmean x) <= INR (length x - 1) * rvar x.
Proof.
  intros Hl Hi. unfold rvar.
  assert (Hn : 0 < INR (length x - 1)) by (apply lt_0_INR; lia).
  replace (INR (length x - 1) *
           (sum_list (map (fun xi => (xi - rmean x) * (xi - rmean x)) x)
            / INR (length x - 1)))
    with (sum_list (map (fun xi => (xi - rmean x) * (xi - rmean x)) x))
    by (field; lra).
  pose proof (sum_list_ge_member
                (map (fun xi => (xi - rmean x) * (xi - rmean x)) x) i) as H.
  rewrite nth_map_in with (da := 0) in H by exact Hi.
  apply H.
  - apply Forall_forall. intros w Hw. apply in_map_iff in Hw.
    destruct Hw as (a & <- & _).
    pose proof (Rle_0_sqr (a - rmean x)) as Hsq. unfold Rsqr in Hsq. exact Hsq.
  - rewrite length_map. exact Hi.
Qed.

(** X6: the output of LayerNorm on a token of [n >= 2] features stays within
    [|alpha| * sqrt (n - 1)] of the bias: the squared distance of every
    output feature to [bias] is at most [alpha^2 * (n - 1)], whatever the
    input. *)
Theorem LayerNorm_output_bounded (ln : LayerNormalization.t) (x : list R) :
  (2 <= length x)%nat ->
  0 < LayerNormalization.eps ln ->
  exists y,
    LayerNormalization.forward_token ln x = Ok y /\
    length y = length x /\
    forall i, (i < length x)%nat ->
      (nth i y 0 - LayerNormalization.bias ln)
      * (nth i y 0 - LayerNormalization.bias ln)
      <= LayerNormalization.alpha ln * LayerNormalization.alpha ln
         * INR (length x - 1).
Proof.
  intros Hl He. eexists. split; [apply forward_token_closed, Hl|].
  split; [apply length_map|].
  intros i Hi.
  rewrite nth_map_in with (da := 0) by exact Hi.
  set (d := nth i x 0 - rmean x).
  set (s := sqrt (rvar x)).
  set (e := LayerNormalization.eps ln) in *.
  set (a := LayerNormalization.alpha ln).
  assert (Hs : 0 <= s) by apply sqrt_pos.
  assert (Hss : s * s = rvar x) by (apply sqrt_sqrt, rvar_nonneg, Hl).
  pose proof (deviation_le_total x i Hl Hi) as Hd. fold d in Hd.
  rewrite <- Hss in Hd.
  set (n1 := INR (length x - 1)) in *.
  assert (Hn1 : 0 < n1) by (apply lt_0_INR; lia).
  replace (a * d / (s + e) + LayerNormalization.bias ln - LayerNormalization.bias ln)
    with (a * (d / (s + e))) by (field; lra).
  assert (Hq : (d / (s + e)) * (d / (s + e)) <= n1).
  { replace (d / (s + e) * (d / (s + e))) with (d * d / ((s + e) * (s + e)))
      by (field; lra).
    apply (Rmult_le_reg_r ((s + e) * (s + e))); [nra|].
    replace (d * d / ((s + e) * (s + e)) * ((s + e) * (s + e))) with (d * d)
      by (field; lra).
    assert (Hse : 0 <= s * e) by (apply Rmult_le_pos; lra).
    assert (Hextra : 0 <= n1 * (2 * (s * e) + e * e)).
    { apply Rmult_le_pos; [lra|]. pose proof (Rle_0_sqr e) as Hee.
      unfold Rsqr in Hee. lra. }
    replace (n1 * ((s + e) * (s + e)))
      with (n1 * (s * s) + n1 * (2 * (s * e) + e * e)) by ring.
    lra. }
  pose proof (Rle_0_sqr a) as Ha. unfold Rsqr in Ha.
  replace (a * (d / (s + e)) * (a * (d / (s + e))))
    with (a * a * (d / (s + e) * (d / (s + e)))) by ring.
  apply Rmult_le_compat_l; assumption.
Qed.

Lemma LayerNorm_output_bounded_witness :
  exists y,
    LayerNormalization.forward_token ln_default [0; 2; 1000] = Ok y /\
    length y = 3%nat.
Proof.
  destruct (LayerNorm_output_bounded ln_default [0; 2; 1000]) as (y & Hy & Hlen & _).
  - simpl. lia.
  - exact default_eps_pos.
  - exists y. split; [exact Hy | exact Hlen].
Defined.

(** ** LayerNormalization on rank-3 tensors *)

Lemma LayerNorm_forward_shape (ln : LayerNormalization.t) (B S D : nat) (x : t3) :
  (2 <= D)%nat -> shape3 B S D x ->
  exists y, LayerNormalization.forward ln x = Ok y /\ shape3 B S D y.
Proof.
  intros HD Hx. unfold LayerNormalization.forward.
  apply (mapM_rows _ _ _ _ _ _ _ Hx). intros xb Hxb.
  apply (mapM_rows _ _ _ _ _ _ _ Hxb). intros tok Htok.
  rewrite forward_token_closed by lia.
  eexists. split; [reflexivity|]. rewrite length_map. exact Htok.
Qed.


(** ** Linear layers and the feed-forward block *)

Lemma Linear_forward_token_shape (l : Linear.t) (tok : list R) :
  Linear_wf l -> length tok = Linear.in_features l ->
  exists y, Linear.forward_token l tok = Ok y /\ length y = Linear.out_features l.
Proof.
  intros [[Hw _] Hb] Htok. unfold Linear.forward_token.
  rewrite Htok, Nat.eqb_refl. eexists. split; [reflexivity|].
  rewrite length_map, length_combine. lia.
Qed.

Lemma Linear_forward_token_mismatch (l : Linear.t) (tok : list R) :
  length tok <> Linear.in_features l ->
  Linear.forward_token l tok = Raise RuntimeError.
Proof.
  intros H. unfold Linear.forward_token.
  apply Nat.eqb_neq in H. rewrite H. reflexivity.
Qed.

Lemma Linear_forward_shape (l : Linear.t) (B S : nat) (x : t3) :
  Linear_wf l -> shape3 B S (Linear.in_features l) x ->
  exists y, Linear.forward l x = Ok y /\ shape3 B S (Linear.out_features l) y.
Proof.
  intros Hl Hx. unfold Linear.forward.
  apply (mapM_rows _ _ _ _ _ _ _ Hx). intros xb Hxb.
  apply (mapM_rows _ _ _ _ _ _ _ Hxb). intros tok Htok.
  apply Linear_forward_token_shape; assumption.
Qed.

Lemma Linear_init_wf (n m : Z) (w0 : nat -> nat -> R) (b0 : nat -> R) (l : Linear.t) :
  Linear.init n m w0 b0 = Ok l ->
  Linear_wf l /\ Linear.in_features l = Z.to_nat n /\ Linear.out_features l = Z.to_nat m.
Proof.
  unfold Linear.init. destruct ((n <? 0) || (m <? 0))%Z; [discriminate|].
  intros H. injection H as <-. unfold Linear_wf. cbn.
  repeat split.
  - rewrite length_map, length_seq. reflexivity.
  - apply Forall_forall. intros r Hr. apply in_map_iff in Hr.
    destruct Hr as (i & <- & _). rewrite length_map, length_seq. reflexivity.
  - rewrite length_map, length_seq. reflexivity.
Qed.

Lemma map3_shape (f : R -> R) (B S D : nat) (x : t3) :
  shape3 B S D x -> shape3 B S D (map (map (map f)) x).
Proof.
  intros Hx. eapply rows_map; [exact Hx|]. intros xb Hxb.
  eapply rows_map; [exact Hxb|]. intros tok Htok.
  cbv beta. rewrite length_map. exact Htok.
Qed.

Lemma FeedForwardBlock_forward_stages
  (ff : FeedForwardBlock.t) (B S D : nat) (x : t3) (s : Stream) :
  FeedForwardBlock_wf D ff -> shape3 B S D x ->
  exists a y,
    Linear.forward (FeedForwardBlock.linear_1 ff) x = Ok a /\
    shape3 B S (Linear.out_features (FeedForwardBlock.linear_1 ff)) a /\
    Linear.forward (FeedForwardBlock.linear_2 ff) (map (map (map torch.relu)) a)
    = Ok y /\
    shape3 B S D y /\
    FeedForwardBlock.forward false ff x s = Ok (y, s).
Proof.
  intros (Hl1 & Hl2 & Hin1 & Hin2 & Hout2) Hx.
  rewrite <- Hin1 in Hx.
  destruct (Linear_forward_shape _ B S x Hl1 Hx) as (a & Ha & Hsa).
  pose proof (map3_shape torch.relu _ _ _ _ Hsa) as Hsr.
  rewrite <- Hin2 in Hsr.
  destruct (Linear_forward_shape _ B S _ Hl2 Hsr) as (y & Hy & Hsy).
  exists a, y. split; [exact Ha|]. split; [exact Hsa|]. split; [exact Hy|].
  split; [rewrite <- Hout2; exact Hsy|].
  unfold FeedForwardBlock.forward, bind, lift. rewrite Ha.
  cbn [Dropout.forward3 ret]. rewrite Hy. reflexivity.
Qed.

(** X7: the feed-forward block is position-wise.  In evaluation mode, on an
    input of shape [[B, S, d_model]] it returns an output of the same shape,
    leaves the random stream untouched, and the output token at every
    position is [linear_2 (relu (linear_1 token))] of the input token at
    that position alone. *)
Theorem FeedForwardBlock_forward_positionwise
  (ff : FeedForwardBlock.t) (B S D : nat) (x : t3) (s : Stream) :
  FeedForwardBlock_wf D ff -> shape3 B S D x ->
  exists y,
    FeedForwardBlock.forward false ff x s = Ok (y, s) /\
    shape3 B S D y /\
    forall b i, (b < B)%nat -> (i < S)%nat ->
      FeedForwardBlock_token ff (nth i (nth b x []) [])
      = Ok (nth i (nth b y []) []).
Proof.
  intros Hwf Hx.
  destruct (FeedForwardBlock_forward_stages ff B S D x s Hwf Hx)
    as (a & y & Ha & Hsa & Hy & Hsy & Hfw).
  exists y. split; [exact Hfw|]. split; [exact Hsy|].
  intros b i Hb Hi. unfold FeedForwardBlock_token.
  unfold Linear.forward in Ha, Hy.
  apply mapM_inv in Ha. destruct Ha as [Hla Ha].
  specialize (Ha b [] [] ltac:(destruct Hx as [-> _]; exact Hb)).
  apply mapM_inv in Ha. destruct Ha as [Hlab Ha].
  pose proof (rows_nth _ _ _ _ b [] Hx Hb) as Hxb.
  specialize (Ha i [] [] ltac:(destruct Hxb as [-> _]; exact Hi)).
  rewrite Ha. cbn [rbind].
  apply mapM_inv in Hy. destruct Hy as [Hly Hy].
  specialize (Hy b [] [] ltac:(rewrite !length_map; destruct Hsa as [-> _]; exact Hb)).
  apply mapM_inv in Hy. destruct Hy as [Hlyb Hy].
  pose proof (rows_nth _ _ _ _ b [] Hsa Hb) as Hab.
  assert (Hbi : (i < length (nth b (map (map (map torch.relu)) a) []))%nat).
  { rewrite nth_map_in with (da := @nil (list R))
      by (destruct Hsa as [-> _]; exact Hb).
    rewrite length_map. destruct Hab as [-> _]. exact Hi. }
  specialize (Hy i [] [] Hbi).
  rewrite nth_map_in with (da := @nil (list R)) in Hy
    by (destruct Hsa as [-> _]; exact Hb).
  rewrite nth_map_in with (da := @nil R) in Hy
    by (destruct Hab as [-> _]; exact Hi).
  exact Hy.
Qed.

Lemma FeedForwardBlock_init_wf (d_model d_ff : Z) (dropout : R)
  (w0 : nat -> nat -> nat -> R) (b0 : nat -> nat -> R) (ff : FeedForwardBlock.t) :
  FeedForwardBlock.init d_model d_ff dropout w0 b0 = Ok ff ->
  FeedForwardBlock_wf (Z.to_nat d_model) ff.
Proof.
  unfold FeedForwardBlock.init. intros H.
  destruct (Linear.init d_model d_ff (w0 0%nat) (b0 0%nat)) as [l1| |] eqn:E1;
    cbn [rbind] in H; try discriminate.
  destruct (Dropout.init dropout) as [dr| |]; cbn [rbind] in H; try discriminate.
  destruct (Linear.init d_ff d_model (w0 1%nat) (b0 1%nat)) as [l2| |] eqn:E2;
    cbn [rbind] in H; try discriminate.
  injection H as <-.
  destruct (Linear_init_wf _ _ _ _ _ E1) as (W1 & I1 & O1).
  destruct (Linear_init_wf _ _ _ _ _ E2) as (W2 & I2 & O2).
  unfold FeedForwardBlock_wf.
  cbn [FeedForwardBlock.linear_1 FeedForwardBlock.linear_2].
  split; [exact W1|]. split; [exact W2|]. split; [exact I1|].
  split; [rewrite I2, O1; reflexivity | exact O2].
Qed.

Lemma FeedForwardBlock_forward_positionwise_witness :
  exists ff y,
    FeedForwardBlock.init 2 3 0 (fun _ _ _ => 1) (fun _ _ => 0) = Ok ff /\
    FeedForwardBlock.forward false ff [[[1; 2]; [3; 4]]] (fun _ => true)
    = Ok (y, fun _ => true) /\
    shape3 1 2 2 y.
Proof.
  assert (Hff : exists ff,
             FeedForwardBlock.init 2 3 0 (fun _ _ _ => 1) (fun _ _ => 0) = Ok ff).
  { unfold FeedForwardBlock.init, Linear.init. cbn [Z.ltb Z.compare orb rbind].
    rewrite Dropout_init_ok by lra. eexists. reflexivity. }
  destruct Hff as [ff Hff].
  destruct (FeedForwardBlock_forward_positionwise ff 1 2 2 [[[1; 2]; [3; 4]]]
              (fun _ => true)) as (y & Hy & Hsh & _).
  - exact (FeedForwardBlock_init_wf _ _ _ _ _ _ Hff).
  - repeat constructor.
  - exists ff, y. split; [exact Hff|]. split; [exact Hy | exact Hsh].
Defined.

(** ** Attention on well-shaped inputs, with or without a mask *)

Lemma raw_scores_shape (B H Sq Sk dk : nat) (query key : t4) :
  shape4 B H Sq dk query -> shape4 B H Sk dk key ->
  exists S0, bcast (bcast matmul_nt) query key = Ok S0 /\ shape4 B H Sq Sk S0.
Proof.
  intros Hq Hk.
  apply (bcast_rows _ _ _ (bcast matmul_nt) _ _
           (rows H (rows Sq (fun r : list R => length r = Sk)))
           _ _ _ _ Hq Hk (or_introl eq_refl)).
  intros qb kb Hqb Hkb.
  apply (bcast_rows _ _ _ matmul_nt _ _ _ _ _ _ _ Hqb Hkb (or_introl eq_refl)).
  intros qh kh Hqh Hkh. apply (matmul_nt_shape Sq Sk dk); assumption.
Qed.

(** X8: the scores are the scaled dot products.  On a query of shape
    [[B, H, Sq, d_k]] and a key of shape [[B, H, Sk, d_k]] with non-empty
    axes, lines 93-94 return a tensor of shape [[B, H, Sq, Sk]] whose entry
    [(b, h, i, j)] is the dot product of query row [i] and key row [j] of
    that batch and head, divided by [sqrt d_k]. *)
Theorem attention_scores_scaled_dot_product
  (B H Sq Sk dk : nat) (query key : t4) :
  (1 <= B)%nat -> (1 <= H)%nat -> (1 <= Sq)%nat -> (1 <= dk)%nat ->
  shape4 B H Sq dk query -> shape4 B H Sk dk key ->
  exists S,
    MultiHeadAttentionBlock.attention_scores query key = Ok S /\
    shape4 B H Sq Sk S /\
    forall b hd i j, (b < B)%nat -> (hd < H)%nat -> (i < Sq)%nat -> (j < Sk)%nat ->
      at4 S b hd i j
      = dot (row4 query b hd i) (row4 key b hd j) / sqrt (INR dk).
Proof.
  intros HB HH HSq Hdk Hq Hk.
  destruct (attention_scores_shape B H Sq Sk dk query key HB HH HSq Hdk Hq Hk)
    as (S & HS & HshS).
  exists S. split; [exact HS|]. split; [exact HshS|].
  intros b hd i j Hb Hhd Hi Hj.
  destruct (raw_scores_shape B H Sq Sk dk query key Hq Hk) as (S0 & HS0 & HshS0).
  unfold MultiHeadAttentionBlock.attention_scores in HS.
  rewrite (shape_last_query B H Sq dk query HB HH HSq Hq) in HS.
  rewrite HS0 in HS. cbn [rbind] in HS.
  replace (dk =? 0)%nat with false in HS by (symmetry; apply Nat.eqb_neq; lia).
  pose proof (rows_nth _ _ _ _ b [] HshS0 Hb) as H0b.
  pose proof (rows_nth _ _ _ _ hd [] H0b Hhd) as H0h.
  pose proof (rows_nth _ _ _ _ i [] H0h Hi) as H0r. cbv beta in H0r.
  pose proof (rows_nth _ _ _ _ b [] Hq Hb) as Hqb.
  pose proof (rows_nth _ _ _ _ hd [] Hqb Hhd) as Hqh.
  pose proof (rows_nth _ _ _ _ b [] Hk Hb) as Hkb.
  pose proof (rows_nth _ _ _ _ hd [] Hkb Hhd) as Hkh.
  apply mapM_inv in HS. destruct HS as [_ H1].
  specialize (H1 b [] [] ltac:(destruct HshS0 as [-> _]; exact Hb)).
  apply mapM_inv in H1. destruct H1 as [_ H2].
  specialize (H2 hd [] [] ltac:(destruct H0b as [-> _]; exact Hhd)).
  apply mapM_inv in H2. destruct H2 as [_ H3].
  specialize (H3 i [] [] ltac:(destruct H0h as [-> _]; exact Hi)).
  apply mapM_inv in H3. destruct H3 as [_ H4].
  specialize (H4 j 0 0 ltac:(rewrite H0r; exact Hj)).
  injection H4 as H4. unfold at4. rewrite <- H4. f_equal.
  apply bcast_inv in HS0. destruct HS0 as [_ G1].
  specialize (G1 b [] [] [] ltac:(destruct HshS0 as [-> _]; exact Hb)).
  rewrite (bget_full _ _ query) in G1 by (destruct Hq as [-> _]; exact Hb).
  rewrite (bget_full _ _ key) in G1 by (destruct Hk as [-> _]; exact Hb).
  apply bcast_inv in G1. destruct G1 as [_ G2].
  specialize (G2 hd [] [] [] ltac:(destruct H0b as [-> _]; exact Hhd)).
  rewrite (bget_full _ _ (nth b query [])) in G2 by (destruct Hqb as [-> _]; exact Hhd).
  rewrite (bget_full _ _ (nth b key [])) in G2 by (destruct Hkb as [-> _]; exact Hhd).
  unfold matmul_nt in G2. apply mapM_inv in G2. destruct G2 as [_ G3].
  specialize (G3 i [] [] ltac:(destruct Hqh as [-> _]; exact Hi)).
  apply mapM_inv in G3. destruct G3 as [_ G4].
  specialize (G4 j [] 0 ltac:(destruct Hkh as [-> _]; exact Hj)).
  pose proof (rows_nth _ _ _ _ i [] Hqh Hi) as Hqi.
  pose proof (rows_nth _ _ _ _ j [] Hkh Hj) as Hkj. cbv beta in Hqi, Hkj.
  rewrite Hqi, Hkj, Nat.eqb_refl in G4. injection G4 as G4.
  unfold row4. symmetry. exact G4.
Qed.

Lemma attention_scores_scaled_dot_product_witness :
  exists S,
    MultiHeadAttentionBlock.attention_scores [[[[1; 2]]]] [[[[3; 4]; [5; 6]]]] = Ok S /\
    at4 S 0 0 0 1 = dot [1; 2] [5; 6] / sqrt (INR 2).
Proof.
  assert (Hq : shape4 1 1 1 2 [[[[1; 2]]]]) by (repeat constructor).
  assert (Hk : shape4 1 1 2 2 [[[[3; 4]; [5; 6]]]]) by (repeat constructor).
  destruct (attention_scores_scaled_dot_product 1 1 1 2 2
              [[[[1; 2]]]] [[[[3; 4]; [5; 6]]]]
              ltac:(lia) ltac:(lia) ltac:(lia) ltac:(lia) Hq Hk)
    as (S & HS & _ & Hat).
  exists S. split; [exact HS|].
  apply (Hat 0%nat 0%nat 0%nat 1%nat); lia.
Defined.

Lemma attention_eval_general
  (B H Sq Sk dk dv : nat) (query key value : t4)
  (mask : option mask4) (dropout : option Dropout.t) (s : Stream) :
  (1 <= B)%nat -> (1 <= H)%nat -> (1 <= Sq)%nat -> (1 <= Sk)%nat -> (1 <= dk)%nat ->
  shape4 B H Sq dk query -> shape4 B H Sk dk key -> shape4 B H Sk dv value ->
  mask_fits B H Sq Sk mask ->
  exists S S' out,
    MultiHeadAttentionBlock.attention_scores query key = Ok S /\
    MultiHeadAttentionBlock.apply_mask S mask = Ok S' /\
    shape4 B H Sq Sk S /\ shape4 B H Sq Sk S' /\
    bcast (bcast matmul) (map (map (map torch.softmax)) S') value = Ok out /\
    shape4 B H Sq dv out /\
    MultiHeadAttentionBlock.attention false query key value mask dropout s
    = Ok (out, s).
Proof.
  intros HB HH HSq HSk Hdk Hq Hk Hv Hm.
  destruct (attention_scores_shape B H Sq Sk dk query key HB HH HSq Hdk Hq Hk)
    as (S & HS & HshS).
  assert (Hmask : exists S', MultiHeadAttentionBlock.apply_mask S mask = Ok S' /\
                             shape4 B H Sq Sk S').
  { destruct mask as [m|]; cbn [MultiHeadAttentionBlock.apply_mask].
    - destruct Hm as (mb & mh & mq & mk & Hsm & Hmb & Hmh & Hmq & Hmk).
      exact (masked_fill_shape B H Sq Sk mb mh mq mk m Hsm Hmb Hmh Hmq Hmk S HshS).
    - exists S. split; [reflexivity | exact HshS]. }
  destruct Hmask as (S' & HS' & HshS').
  pose proof (softmax_shape4 _ _ _ _ _ HshS') as HshW.
  destruct (bcast_rows _ _ _ (bcast matmul) _ _
              (rows H (rows Sq (fun r : list R => length r = dv)))
              _ _ _ _ HshW Hv (or_introl eq_refl)) as (out & Hout & Hshout).
  { intros Wb Vb HWb HVb.
    apply (bcast_rows _ _ _ matmul _ _ _ _ _ _ _ HWb HVb (or_introl eq_refl)).
    intros Wh Vh HWh HVh. apply (matmul_shape Sq Sk dv); assumption. }
  exists S, S', out. repeat (split; [assumption|]).
  unfold MultiHeadAttentionBlock.attention, bind.
  rewrite attention_probs_eval. unfold lift.
  unfold MultiHeadAttentionBlock.attention_weights.
  rewrite HS. cbn [rbind]. rewrite HS'. cbn [rbind]. rewrite Hout. reflexivity.
Qed.

(** One row of [matmul(weights, value)]. *)
Lemma attention_output_row
  (B H Sq Sk dv : nat) (W value out : t4) (b hd i : nat) :
  (1 <= Sk)%nat ->
  shape4 B H Sq Sk W -> shape4 B H Sk dv value -> shape4 B H Sq dv out ->
  bcast (bcast matmul) W value = Ok out ->
  (b < B)%nat -> (hd < H)%nat -> (i < Sq)%nat ->
  row4 out b hd i
  = map (fun c => dot (row4 W b hd i)
                      (map (fun vk => nth c vk 0) (nth hd (nth b value []) [])))
        (seq 0 dv).
Proof.
  intros HSk HshW Hv Hshout Hout Hb Hhd Hi.
  pose proof (rows_nth _ _ _ _ b [] HshW Hb) as HWb.
  pose proof (rows_nth _ _ _ _ hd [] HWb Hhd) as HWh.
  pose proof (rows_nth _ _ _ _ i [] HWh Hi) as HWr. cbv beta in HWr.
  pose proof (rows_nth _ _ _ _ b [] Hv Hb) as HVb.
  pose proof (rows_nth _ _ _ _ hd [] HVb Hhd) as HVh.
  pose proof (rows_nth _ _ _ _ b [] Hshout Hb) as HOb.
  apply bcast_inv in Hout. destruct Hout as [_ H1].
  specialize (H1 b [] [] [] ltac:(destruct Hshout as [-> _]; exact Hb)).
  rewrite (bget_full _ _ W) in H1 by (destruct HshW as [-> _]; exact Hb).
  rewrite (bget_full _ _ value) in H1 by (destruct Hv as [-> _]; exact Hb).
  apply bcast_inv in H1. destruct H1 as [_ H2].
  specialize (H2 hd [] [] [] ltac:(destruct HOb as [-> _]; exact Hhd)).
  rewrite (bget_full _ _ (nth b W [])) in H2 by (destruct HWb as [-> _]; exact Hhd).
  rewrite (bget_full _ _ (nth b value [])) in H2 by (destruct HVb as [-> _]; exact Hhd).
  unfold matmul in H2. apply mapM_inv in H2. destruct H2 as [_ H3].
  specialize (H3 i [] [] ltac:(destruct HWh as [-> _]; exact Hi)).
  destruct HVh as [HlenV HFV].
  rewrite HWr, HlenV, Nat.eqb_refl in H3. injection H3 as H3.
  unfold row4. rewrite <- H3.
  assert (Hdv : length (List.hd [] (nth hd (nth b value []) [])) = dv).
  { destruct (nth hd (nth b value []) []) as [|v0 vs]; [simpl in HlenV; lia|].
    apply Forall_inv in HFV. exact HFV. }
  rewrite Hdv. reflexivity.
Qed.

Lemma dot_convex (lo hi : R) (w col : list R) :
  length w = length col ->
  Forall (fun a => 0 <= a) w ->
  Forall (fun v => lo <= v <= hi) col ->
  lo * sum_list w <= dot w col <= hi * sum_list w.
Proof.
  unfold dot. revert col. induction w as [|a w IH]; intros [|v col] Hlen Hw Hcol;
    simpl in Hlen; try discriminate.
  - simpl. lra.
  - cbn [combine map]. rewrite !sum_list_cons. cbn [fst snd].
    pose proof (Forall_inv Hw) as Ha. pose proof (Forall_inv Hcol) as Hv.
    cbv beta in Ha, Hv.
    apply Forall_inv_tail in Hw. apply Forall_inv_tail in Hcol.
    specialize (IH col ltac:(lia) Hw Hcol).
    assert (lo * a <= a * v) by nra.
    assert (a * v <= hi * a) by nra.
    lra.
Qed.

(** X9: attention outputs convex combinations of the value vectors.  In
    evaluation mode, on well-shaped inputs with or without a mask, the call
    returns an output of shape [[B, H, Sq, d_v]], and whenever the entries of
    column [c] of the value vectors of a batch and head lie in [[lo, hi]],
    so does column [c] of every output row of that batch and head. *)
Theorem attention_output_convex
  (B H Sq Sk dk dv : nat) (query key value : t4)
  (mask : option mask4) (dropout : option Dropout.t) (s : Stream) :
  (1 <= B)%nat -> (1 <= H)%nat -> (1 <= Sq)%nat -> (1 <= Sk)%nat -> (1 <= dk)%nat ->
  shape4 B H Sq dk query -> shape4 B H Sk dk key -> shape4 B H Sk dv value ->
  mask_fits B H Sq Sk mask ->
  exists out,
    MultiHeadAttentionBlock.attention false query key value mask dropout s
    = Ok (out, s) /\
    shape4 B H Sq dv out /\
    forall b hd c lo hi, (b < B)%nat -> (hd < H)%nat -> (c < dv)%nat ->
      (forall k, (k < Sk)%nat -> lo <= at4 value b hd k c <= hi) ->
      forall i, (i < Sq)%nat -> lo <= at4 out b hd i c <= hi.
Proof.
  intros HB HH HSq HSk Hdk Hq Hk Hv Hm.
  destruct (attention_eval_general B H Sq Sk dk dv query key value mask dropout s
              HB HH HSq HSk Hdk Hq Hk Hv Hm)
    as (S & S' & out & HS & HS' & HshS & HshS' & Hout & Hshout & Hatt).
  exists out. split; [exact Hatt|]. split; [exact Hshout|].
  intros b hd c lo hi Hb Hhd Hc Hcol i Hi.
  pose proof (softmax_shape4 _ _ _ _ _ HshS') as HshW.
  change (at4 out b hd i c) with (nth c (row4 out b hd i) 0).
  rewrite (attention_output_row B H Sq Sk dv _ value out b hd i HSk HshW Hv Hshout Hout
             Hb Hhd Hi).
  rewrite (nth_map_seq _ _ dv c 0 Hc).
  rewrite (softmax_row4 B H Sq Sk) by assumption.
  pose proof (rows_nth _ _ _ _ b [] HshS' Hb) as HSb.
  pose proof (rows_nth _ _ _ _ hd [] HSb Hhd) as HSh.
  pose proof (rows_nth _ _ _ _ i [] HSh Hi) as HSr. cbv beta in HSr.
  fold (row4 S' b hd i) in HSr.
  pose proof (rows_nth _ _ _ _ b [] Hv Hb) as HVb.
  pose proof (rows_nth _ _ _ _ hd [] HVb Hhd) as HVh.
  assert (Hne : row4 S' b hd i <> []).
  { intros E. rewrite E in HSr. simpl in HSr. lia. }
  pose proof (dot_convex lo hi (torch.softmax (row4 S' b hd i))
                (map (fun vk => nth c vk 0) (nth hd (nth b value []) []))) as Hcv.
  rewrite softmax_sums_to_one in Hcv by exact Hne.
  rewrite !Rmult_1_r in Hcv. apply Hcv.
  - rewrite softmax_length, length_map, HSr. destruct HVh as [-> _]. reflexivity.
  - apply softmax_nonneg.
  - apply Forall_forall. intros v Hin.
    destruct (In_nth _ _ 0 Hin) as (k & Hk' & <-).
    rewrite length_map in Hk'.
    rewrite nth_map_in with (da := @nil R) by exact Hk'.
    apply Hcol. destruct HVh as [<- _]. exact Hk'.
Qed.

Lemma attention_output_convex_witness :
  exists out,
    MultiHeadAttentionBlock.attention false
      [[[[1]]]] [[[[1]; [2]]]] [[[[3]; [5]]]] None None (fun _ => true)
    = Ok (out, fun _ => true) /\
    3 <= at4 out 0 0 0 0 <= 5.
Proof.
  assert (Hq : shape4 1 1 1 1 [[[[1]]]]) by (repeat constructor).
  assert (Hk : shape4 1 1 2 1 [[[[1]; [2]]]]) by (repeat constructor).
  assert (Hv : shape4 1 1 2 1 [[[[3]; [5]]]]) by (repeat constructor).
  destruct (attention_output_convex 1 1 1 2 1 1
              [[[[1]]]] [[[[1]; [2]]]] [[[[3]; [5]]]] None None (fun _ => true)
              ltac:(lia) ltac:(lia) ltac:(lia) ltac:(lia) ltac:(lia) Hq Hk Hv I)
    as (out & Hout & _ & Hcv).
  exists out. split; [exact Hout|].
  apply (Hcv 0%nat 0%nat 0%nat 3 5); try lia.
  intros [|[|k]] Hk'; try lia; unfold at4; cbn [nth]; lra.
Defined.

Lemma map_nth_seq (l : list R) :
  map (fun c => nth c l 0) (seq 0 (length l)) = l.
Proof.
  apply (nth_ext _ _ 0 0).
  - rewrite length_map, length_seq. reflexivity.
  - intros c Hc. rewrite length_map, length_seq in Hc.
    apply nth_map_seq. exact Hc.
Qed.

(** X10: with a single key position the weights are all 1, so attention
    returns that position's value vector for every query row, whatever the
    scores and the mask. *)
Theorem attention_single_key
  (B H Sq dk dv : nat) (query key value : t4)
  (mask : option mask4) (dropout : option Dropout.t) (s : Stream) :
  (1 <= B)%nat -> (1 <= H)%nat -> (1 <= Sq)%nat -> (1 <= dk)%nat ->
  shape4 B H Sq dk query -> shape4 B H 1 dk key -> shape4 B H 1 dv value ->
  mask_fits B H Sq 1 mask ->
  exists out,
    MultiHeadAttentionBlock.attention false query key value mask dropout s
    = Ok (out, s) /\
    forall b hd i, (b < B)%nat -> (hd < H)%nat -> (i < Sq)%nat ->
      row4 out b hd i = row4 value b hd 0.
Proof.
  intros HB HH HSq Hdk Hq Hk Hv Hm.
  destruct (attention_eval_general B H Sq 1 dk dv query key value mask dropout s
              HB HH HSq ltac:(lia) Hdk Hq Hk Hv Hm)
    as (S & S' & out & HS & HS' & HshS & HshS' & Hout & Hshout & Hatt).
  exists out. split; [exact Hatt|].
  intros b hd i Hb Hhd Hi.
  pose proof (softmax_shape4 _ _ _ _ _ HshS') as HshW.
  rewrite (attention_output_row B H Sq 1 dv _ value out b hd i ltac:(lia)
             HshW Hv Hshout Hout Hb Hhd Hi).
  rewrite (softmax_row4 B H Sq 1) by assumption.
  pose proof (rows_nth _ _ _ _ b [] HshS' Hb) as HSb.
  pose proof (rows_nth _ _ _ _ hd [] HSb Hhd) as HSh.
  pose proof (rows_nth _ _ _ _ i [] HSh Hi) as HSr. cbv beta in HSr.
  fold (row4 S' b hd i) in HSr.
  pose proof (rows_nth _ _ _ _ b [] Hv Hb) as HVb.
  pose proof (rows_nth _ _ _ _ hd [] HVb Hhd) as HVh.
  destruct HVh as [HlenV HFV]. unfold row4 at 2.
  destruct (row4 S' b hd i) as [|x [|x' r]]; simpl in HSr; try lia.
  destruct (nth hd (nth b value []) []) as [|v0 [|v1 vs]]; simpl in HlenV; try lia.
  apply Forall_inv in HFV. cbn [nth].
  transitivity (map (fun c => nth c v0 0) (seq 0 dv));
    [|rewrite <- HFV; apply map_nth_seq].
  apply map_ext. intros c.
  unfold torch.softmax, dot. cbn [map combine sum_list fold_right fst snd].
  pose proof (exp_pos x). field. lra.
Qed.

Lemma attention_single_key_witness :
  exists out,
    MultiHeadAttentionBlock.attention false
      [[[[1]; [2]]]] [[[[7]]]] [[[[3; 5]]]] (Some [[[[0%Z]]]]) None (fun _ => true)
    = Ok (out, fun _ => true) /\
    row4 out 0 0 1 = [3; 5].
Proof.
  assert (Hq : shape4 1 1 2 1 [[[[1]; [2]]]]) by (repeat constructor).
  assert (Hk : shape4 1 1 1 1 [[[[7]]]]) by (repeat constructor).
  assert (Hv : shape4 1 1 1 2 [[[[3; 5]]]]) by (repeat constructor).
  assert (Hm : mask_fits 1 1 2 1 (Some [[[[0%Z]]]])).
  { exists 1%nat, 1%nat, 1%nat, 1%nat. split; [repeat constructor|].
    repeat split; try (left; reflexivity). right; reflexivity. }
  destruct (attention_single_key 1 1 2 1 2
              [[[[1]; [2]]]] [[[[7]]]] [[[[3; 5]]]] (Some [[[[0%Z]]]]) None
              (fun _ => true) ltac:(lia) ltac:(lia) ltac:(lia) ltac:(lia) Hq Hk Hv Hm)
    as (out & Hout & Hrow).
  exists out. split; [exact Hout|].
  apply (Hrow 0%nat 0%nat 1%nat); lia.
Defined.

Lemma shape4_ext (B H Sq Sk : nat) (X Y : t4) :
  shape4 B H Sq Sk X -> shape4 B H Sq Sk Y ->
  (forall b hd i j, (b < B)%nat -> (hd < H)%nat -> (i < Sq)%nat -> (j < Sk)%nat ->
     at4 X b hd i j = at4 Y b hd i j) ->
  X = Y.
Proof.
  intros HX HY Hat.
  apply (nth_ext _ _ [] []).
  { destruct HX as [-> _]. destruct HY as [-> _]. reflexivity. }
  intros b Hb. destruct HX as [HlX HFX]. rewrite HlX in Hb.
  pose proof (rows_nth _ _ _ _ b [] (conj HlX HFX) Hb) as HXb.
  pose proof (rows_nth _ _ _ _ b [] HY Hb) as HYb.
  apply (nth_ext _ _ [] []).
  { destruct HXb as [-> _]. destruct HYb as [-> _]. reflexivity. }
  intros hd Hhd. destruct HXb as [HlXb HFXb]. rewrite HlXb in Hhd.
  pose proof (rows_nth _ _ _ _ hd [] (conj HlXb HFXb) Hhd) as HXh.
  pose proof (rows_nth _ _ _ _ hd [] HYb Hhd) as HYh.
  apply (nth_ext _ _ [] []).
  { destruct HXh as [-> _]. destruct HYh as [-> _]. reflexivity. }
  intros i Hi. destruct HXh as [HlXh HFXh]. rewrite HlXh in Hi.
  pose proof (rows_nth _ _ _ _ i [] (conj HlXh HFXh) Hi) as HXr.
  pose proof (rows_nth _ _ _ _ i [] HYh Hi) as HYr. cbv beta in HXr, HYr.
  apply (nth_ext _ _ 0 0).
  { rewrite HXr, HYr. reflexivity. }
  intros j Hj. rewrite HXr in Hj.
  exact (Hat b hd i j Hb Hhd Hi Hj).
Qed.

(** X11: a mask none of whose entries is zero has no effect.  In evaluation
    mode, on well-shaped inputs, attention with a mask that reads a non-zero
    entry at every score position returns what attention without a mask
    returns. *)
Theorem attention_mask_without_zero
  (B H Sq Sk dk dv : nat) (query key value : t4)
  (mb mh mq mk : nat) (m : mask4) (dropout : option Dropout.t) (s : Stream) :
  (1 <= B)%nat -> (1 <= H)%nat -> (1 <= Sq)%nat -> (1 <= Sk)%nat -> (1 <= dk)%nat ->
  shape4 B H Sq dk query -> shape4 B H Sk dk key -> shape4 B H Sk dv value ->
  shape4 mb mh mq mk m ->
  expands mb B -> expands mh H -> expands mq Sq -> expands mk Sk ->
  (forall b hd i j, (b < B)%nat -> (hd < H)%nat -> (i < Sq)%nat -> (j < Sk)%nat ->
     mask_at m b hd i j <> 0%Z) ->
  MultiHeadAttentionBlock.attention false query key value (Some m) dropout s
  = MultiHeadAttentionBlock.attention false query key value None dropout s /\
  exists out,
    MultiHeadAttentionBlock.attention false query key value (Some m) dropout s
    = Ok (out, s).
Proof.
  intros HB HH HSq HSk Hdk Hq Hk Hv Hsm Hmb Hmh Hmq Hmk Hnz.
  assert (Hm : mask_fits B H Sq Sk (Some m)).
  { exists mb, mh, mq, mk. repeat (split; [assumption|]). assumption. }
  destruct (attention_eval_general B H Sq Sk dk dv query key value (Some m) dropout s
              HB HH HSq HSk Hdk Hq Hk Hv Hm)
    as (S & S' & out & HS & HS' & HshS & HshS' & Hout & Hshout & Hatt).
  assert (HSS : S' = S).
  { apply (shape4_ext B H Sq Sk); [assumption | assumption |].
    intros b hd i j Hb Hhd Hi Hj.
    cbn [MultiHeadAttentionBlock.apply_mask] in HS'.
    rewrite (masked_fill_at B H Sq Sk m S S' HshS HshS' HS' b hd i j Hb Hhd Hi Hj).
    specialize (Hnz b hd i j Hb Hhd Hi Hj).
    apply Z.eqb_neq in Hnz. rewrite Hnz. reflexivity. }
  subst S'. split; [|exists out; exact Hatt].
  rewrite Hatt.
  unfold MultiHeadAttentionBlock.attention, bind.
  rewrite attention_probs_eval. unfold lift.
  unfold MultiHeadAttentionBlock.attention_weights.
  rewrite HS. cbn [rbind MultiHeadAttentionBlock.apply_mask].
  rewrite Hout. reflexivity.
Qed.

Lemma attention_mask_without_zero_witness :
  MultiHeadAttentionBlock.attention false
    [[[[1]]]] [[[[1]; [2]]]] [[[[3]; [5]]]] (Some [[[[1%Z]]]]) None (fun _ => true)
  = MultiHeadAttentionBlock.attention false
      [[[[1]]]] [[[[1]; [2]]]] [[[[3]; [5]]]] None None (fun _ => true).
Proof.
  assert (Hq : shape4 1 1 1 1 [[[[1]]]]) by (repeat constructor).
  assert (Hk : shape4 1 1 2 1 [[[[1]; [2]]]]) by (repeat constructor).
  assert (Hv : shape4 1 1 2 1 [[[[3]; [5]]]]) by (repeat constructor).
  assert (Hm : shape4 1 1 1 1 [[[[1%Z]]]]) by (repeat constructor).
  apply (attention_mask_without_zero 1 1 1 2 1 1
           [[[[1]]]] [[[[1]; [2]]]] [[[[3]; [5]]]] 1 1 1 1 [[[[1%Z]]]] None
           (fun _ => true) ltac:(lia) ltac:(lia) ltac:(lia) ltac:(lia) ltac:(lia)
           Hq Hk Hv Hm (or_introl eq_refl) (or_introl eq_refl)
           (or_introl eq_refl) (or_intror eq_refl)).
  intros b hd i j _ _ _ _. unfold mask_at, bget, bidx. cbn. discriminate.
Defined.

(** ** Splitting into heads and merging back *)

Lemma chunks_shape (h d : nat) (tok : list R) :
  length tok = (h * d)%nat -> rows h (fun r => length r = d) (chunks h d tok).
Proof.
  intros Hlen. unfold chunks. split; [rewrite length_map, length_seq; reflexivity|].
  apply Forall_forall. intros r Hr. apply in_map_iff in Hr.
  destruct Hr as (i & <- & Hi). apply in_seq in Hi.
  rewrite length_firstn, length_skipn, Hlen. nia.
Qed.

Lemma chunks_succ (h d : nat) (tok : list R) :
  chunks (S h) d tok = firstn d tok :: chunks h d (skipn d tok).
Proof.
  unfold chunks. cbn [seq map]. rewrite Nat.mul_0_l. cbn [skipn]. f_equal.
  rewrite <- seq_shift, map_map. apply map_ext. intros i.
  rewrite skipn_skipn. f_equal. f_equal. lia.
Qed.

Lemma concat_chunks (h d : nat) (tok : list R) :
  length tok = (h * d)%nat -> concat (chunks h d tok) = tok.
Proof.
  revert tok. induction h as [|h IH]; intros tok Hlen.
  - simpl in Hlen. apply length_zero_iff_nil in Hlen. subst tok. reflexivity.
  - rewrite chunks_succ. cbn [concat].
    rewrite IH by (rewrite length_skipn, Hlen; lia).
    apply firstn_skipn.
Qed.

Lemma transpose_shape (A : Type) (d : A) (n k : nat) (m : list (list A)) :
  (1 <= n)%nat -> rows n (fun r => length r = k) m ->
  rows k (fun r => length r = n) (transpose d m).
Proof.
  intros Hn [Hl HF]. unfold transpose.
  assert (Hk : length (hd [] m) = k).
  { destruct m as [|r m]; [simpl in Hl; lia|]. apply Forall_inv in HF. exact HF. }
  rewrite Hk. split; [rewrite length_map, length_seq; reflexivity|].
  apply Forall_forall. intros r Hr. apply in_map_iff in Hr.
  destruct Hr as (j & <- & _). rewrite length_map. exact Hl.
Qed.

Lemma transpose_nth (A : Type) (d : A) (n k : nat) (m : list (list A)) (i j : nat) :
  (1 <= n)%nat -> rows n (fun r => length r = k) m ->
  (i < n)%nat -> (j < k)%nat ->
  nth i (nth j (transpose d m) []) d = nth j (nth i m []) d.
Proof.
  intros Hn [Hl HF] Hi Hj. unfold transpose.
  assert (Hk : length (hd [] m) = k).
  { destruct m as [|r m]; [simpl in Hl; lia|]. apply Forall_inv in HF. exact HF. }
  rewrite Hk.
  rewrite (nth_indep _ [] ((fun j0 => map (fun row => nth j0 row d) m) 0%nat))
    by (rewrite length_map, length_seq; exact Hj).
  rewrite (map_nth (fun j0 => map (fun row => nth j0 row d) m)).
  rewrite seq_nth by exact Hj. cbn [Nat.add].
  rewrite (nth_indep _ d ((fun row => nth j row d) []))
    by (rewrite length_map, Hl; exact Hi).
  rewrite (map_nth (fun row => nth j row d)). reflexivity.
Qed.

Lemma transpose_involutive (A : Type) (d : A) (n k : nat) (m : list (list A)) :
  (1 <= n)%nat -> (1 <= k)%nat -> rows n (fun r => length r = k) m ->
  transpose d (transpose d m) = m.
Proof.
  intros Hn Hk Hm.
  pose proof (transpose_shape A d n k m Hn Hm) as Ht.
  pose proof (transpose_shape A d k n _ Hk Ht) as Htt.
  apply (nth_ext _ _ [] []).
  { destruct Htt as [-> _]. destruct Hm as [-> _]. reflexivity. }
  intros i Hi. destruct Htt as [Hltt HFtt]. rewrite Hltt in Hi.
  pose proof (rows_nth _ _ _ _ i [] (conj Hltt HFtt) Hi) as Hri.
  pose proof (rows_nth _ _ _ _ i [] Hm Hi) as Hmi. cbv beta in Hri, Hmi.
  apply (nth_ext _ _ d d); [rewrite Hri, Hmi; reflexivity|].
  intros j Hj. rewrite Hri in Hj.
  rewrite (transpose_nth A d k n _ j i Hk Ht Hj Hi).
  apply (transpose_nth A d n k m i j Hn Hm Hi Hj).
Qed.

Lemma length_concat_rows (h d : nat) (m : list (list R)) :
  rows h (fun r => length r = d) m -> length (concat m) = (h * d)%nat.
Proof.
  intros [Hl HF]. subst h. induction m as [|r m IH]; [reflexivity|].
  cbn [concat length]. rewrite length_app.
  rewrite (Forall_inv HF). rewrite IH by (apply Forall_inv_tail in HF; exact HF).
  lia.
Qed.

Lemma split_heads_shape (h d_k : Z) (B S : nat) (x : t3) :
  (0 < h)%Z -> (0 < d_k)%Z -> (1 <= S)%nat ->
  shape3 B S (Z.to_nat h * Z.to_nat d_k) x ->
  MultiHeadAttentionBlock.split_heads h d_k x
  = Ok (map (fun xb => transpose [] (map (chunks (Z.to_nat h) (Z.to_nat d_k)) xb)) x) /\
  shape4 B (Z.to_nat h) S (Z.to_nat d_k)
    (map (fun xb => transpose [] (map (chunks (Z.to_nat h) (Z.to_nat d_k)) xb)) x).
Proof.
  intros Hh Hd HS Hx. split.
  - unfold MultiHeadAttentionBlock.split_heads.
    replace ((h <? 0) || (d_k <? 0))%Z with false
      by (symmetry; apply orb_false_iff; split; apply Z.ltb_ge; lia).
    rewrite (mapM_ok _ _ _ (map (chunks (Z.to_nat h) (Z.to_nat d_k)))).
    + cbn [rbind]. rewrite map_map. reflexivity.
    + intros xb Hxb. apply mapM_ok. intros tok Htok.
      destruct Hx as [_ HF]. rewrite Forall_forall in HF.
      destruct (HF xb Hxb) as [_ HFb]. rewrite Forall_forall in HFb.
      rewrite (HFb tok Htok), Nat.eqb_refl. reflexivity.
  - eapply rows_map; [exact Hx|]. intros xb Hxb.
    assert (Hv : rows S (rows (Z.to_nat h) (fun r : list R => length r = Z.to_nat d_k))
                   (map (chunks (Z.to_nat h) (Z.to_nat d_k)) xb)).
    { eapply rows_map; [exact Hxb|]. intros tok Htok. apply chunks_shape, Htok. }
    destruct Hv as [Hlv HFv].
    assert (Hrect : rows S (fun r : list (list R) => length r = Z.to_nat h)
                      (map (chunks (Z.to_nat h) (Z.to_nat d_k)) xb)).
    { split; [exact Hlv|]. rewrite Forall_forall in *. intros r Hr. apply HFv, Hr. }
    pose proof (transpose_shape _ [] S (Z.to_nat h) _ HS Hrect) as [Hlt HFt].
    split; [exact Hlt|].
    apply Forall_forall. intros qh Hqh.
    split; [rewrite Forall_forall in HFt; apply HFt, Hqh|].
    apply Forall_forall. intros r Hr.
    unfold transpose in Hqh. apply in_map_iff in Hqh.
    destruct Hqh as (j & <- & Hj). apply in_map_iff in Hr.
    destruct Hr as (row & <- & Hrow).
    rewrite Forall_forall in HFv. destruct (HFv row Hrow) as [Hlr HFr].
    apply in_seq in Hj.
    assert (Hjh : (j < length row)%nat).
    { destruct (map (chunks (Z.to_nat h) (Z.to_nat d_k)) xb) as [|r0 rs] eqn:E;
        [contradiction|].
      cbn [hd] in Hj.
      assert (length r0 = Z.to_nat h) by (apply HFv; left; reflexivity). lia. }
    rewrite Forall_forall in HFr. apply HFr, nth_In, Hjh.
Qed.

Lemma merge_heads_shape (h d_k : Z) (B S : nat) (x : t4) :
  (0 < h)%Z -> (0 < d_k)%Z ->
  shape4 B (Z.to_nat h) S (Z.to_nat d_k) x ->
  MultiHeadAttentionBlock.merge_heads h d_k x
  = Ok (map (fun xb => map (@concat R) (transpose [] xb)) x) /\
  shape3 B S (Z.to_nat h * Z.to_nat d_k)
    (map (fun xb => map (@concat R) (transpose [] xb)) x).
Proof.
  intros Hh Hd Hx. split.
  - unfold MultiHeadAttentionBlock.merge_heads.
    replace (h * d_k <=? 0)%Z with false by (symmetry; apply Z.leb_gt; nia).
    reflexivity.
  - eapply rows_map; [exact Hx|]. intros xb Hxb.
    destruct Hxb as [Hlb HFb].
    assert (Hrect : rows (Z.to_nat h) (fun r : list (list R) => length r = S) xb).
    { split; [exact Hlb|]. rewrite Forall_forall in *. intros r Hr. apply HFb, Hr. }
    pose proof (transpose_shape _ [] (Z.to_nat h) S xb ltac:(lia) Hrect) as [Hlt HFt].
    split; [rewrite length_map; exact Hlt|].
    apply Forall_forall. intros tok Htok. apply in_map_iff in Htok.
    destruct Htok as (r & <- & Hr).
    apply length_concat_rows. split; [rewrite Forall_forall in HFt; apply HFt, Hr|].
    apply Forall_forall. intros piece Hpiece.
    unfold transpose in Hr. apply in_map_iff in Hr. destruct Hr as (i & <- & Hi).
    apply in_map_iff in Hpiece. destruct Hpiece as (xh & <- & Hxh).
    rewrite Forall_forall in HFb. destruct (HFb xh Hxh) as [Hlh HFh].
    apply in_seq in Hi.
    assert (Hih : (i < length xh)%nat).
    { destruct xb as [|x0 xs]; [contradiction|]. cbn [hd] in Hi.
      assert (length x0 = S) by (apply HFb; left; reflexivity). lia. }
    rewrite Forall_forall in HFh. apply HFh, nth_In, Hih.
Qed.

(** X12: merging the heads undoes splitting them.  For an input of shape
    [[B, S, h * d_k]] with [h, d_k > 0] and a non-empty sequence,
    [view(B, S, h, d_k).transpose(1, 2)] returns a tensor of shape
    [[B, h, S, d_k]], and [transpose(1, 2).contiguous().reshape(B, -1, h * d_k)]
    of that tensor is the input again. *)
Theorem split_merge_heads_round_trip (h d_k : Z) (B S : nat) (x : t3) :
  (0 < h)%Z -> (0 < d_k)%Z -> (1 <= S)%nat ->
  shape3 B S (Z.to_nat h * Z.to_nat d_k) x ->
  exists q,
    MultiHeadAttentionBlock.split_heads h d_k x = Ok q /\
    shape4 B (Z.to_nat h) S (Z.to_nat d_k) q /\
    MultiHeadAttentionBlock.merge_heads h d_k q = Ok x.
Proof.
  intros Hh Hd HS Hx.
  destruct (split_heads_shape h d_k B S x Hh Hd HS Hx) as [Hsplit Hsh].
  eexists. split; [exact Hsplit|]. split; [exact Hsh|].
  destruct (merge_heads_shape h d_k B S _ Hh Hd Hsh) as [Hmerge _].
  rewrite Hmerge. f_equal. rewrite map_map.
  rewrite <- (map_id x) at 2. apply map_ext_in. intros xb Hxb.
  destruct Hx as [_ HF]. rewrite Forall_forall in HF.
  pose proof (HF xb Hxb) as Hxb'.
  assert (Hrect : rows S (fun r : list (list R) => length r = Z.to_nat h)
                    (map (chunks (Z.to_nat h) (Z.to_nat d_k)) xb)).
  { eapply rows_map; [exact Hxb'|]. intros tok Htok.
    destruct (chunks_shape _ _ _ Htok) as [Hl _]. exact Hl. }
  rewrite (transpose_involutive _ [] S (Z.to_nat h) _ HS ltac:(lia) Hrect).
  rewrite map_map. rewrite <- (map_id xb) at 2. apply map_ext_in.
  intros tok Htok. destruct Hxb' as [_ HFb]. rewrite Forall_forall in HFb.
  apply concat_chunks, HFb, Htok.
Qed.

Lemma split_merge_heads_round_trip_witness :
  exists q,
    MultiHeadAttentionBlock.split_heads 2 2 [[[1; 2; 3; 4]; [5; 6; 7; 8]]] = Ok q /\
    MultiHeadAttentionBlock.merge_heads 2 2 q
    = Ok [[[1; 2; 3; 4]; [5; 6; 7; 8]]].
Proof.
  destruct (split_merge_heads_round_trip 2 2 1 2 [[[1; 2; 3; 4]; [5; 6; 7; 8]]])
    as (q & Hq & _ & Hm); try lia.
  - repeat constructor.
  - exists q. split; assumption.
Defined.

(** ** MultiHeadAttentionBlock.forward *)

Lemma MultiHeadAttentionBlock_forward_shape_wf
  (a : MultiHeadAttentionBlock.t) (B Sq Sk D : nat) (q k v : t3)
  (mask : option mask4) (s : Stream) :
  MultiHeadAttentionBlock_wf D a ->
  (1 <= B)%nat -> (1 <= Sq)%nat -> (1 <= Sk)%nat ->
  shape3 B Sq D q -> shape3 B Sk D k -> shape3 B Sk D v ->
  mask_fits B (Z.to_nat (MultiHeadAttentionBlock.h a)) Sq Sk mask ->
  exists y,
    MultiHeadAttentionBlock.forward false a q k v mask s = Ok (y, s) /\
    shape3 B Sq D y.
Proof.
  intros (Hh & Hd & HD & Hlin) HB HSq HSk Hq Hk Hv Hm.
  pose proof (Forall_inv Hlin) as (Wq & Iq & Oq).
  pose proof (Forall_inv (Forall_inv_tail Hlin)) as (Wk & Ik & Ok_).
  pose proof (Forall_inv (Forall_inv_tail (Forall_inv_tail Hlin))) as (Wv & Iv & Ov).
  pose proof (Forall_inv (Forall_inv_tail (Forall_inv_tail (Forall_inv_tail Hlin))))
    as (Wo & Io & Oo).
  cbv beta in Iq, Oq, Ik, Ok_, Iv, Ov, Io, Oo.
  set (hn := Z.to_nat (MultiHeadAttentionBlock.h a)) in *.
  set (dn := Z.to_nat (MultiHeadAttentionBlock.d_k a)) in *.
  assert (Hhn : (1 <= hn)%nat) by (unfold hn; lia).
  assert (Hdn : (1 <= dn)%nat) by (unfold dn; lia).
  rewrite <- Iq in Hq. rewrite <- Ik in Hk. rewrite <- Iv in Hv.
  destruct (Linear_forward_shape _ B Sq q Wq Hq) as (query & Hquery & Hsq).
  destruct (Linear_forward_shape _ B Sk k Wk Hk) as (key & Hkey & Hsk).
  destruct (Linear_forward_shape _ B Sk v Wv Hv) as (value & Hvalue & Hsv).
  rewrite Oq, <- HD in Hsq. rewrite Ok_, <- HD in Hsk. rewrite Ov, <- HD in Hsv.
  destruct (split_heads_shape _ _ B Sq query Hh Hd HSq Hsq) as [Hq4 Hsq4].
  destruct (split_heads_shape _ _ B Sk key Hh Hd HSk Hsk) as [Hk4 Hsk4].
  destruct (split_heads_shape _ _ B Sk value Hh Hd HSk Hsv) as [Hv4 Hsv4].
  fold hn dn in Hq4, Hk4, Hv4, Hsq4, Hsk4, Hsv4.
  destruct (attention_eval_general B hn Sq Sk dn dn _ _ _ mask
              (Some (MultiHeadAttentionBlock.dropout a)) s
              HB Hhn HSq HSk Hdn Hsq4 Hsk4 Hsv4 Hm)
    as (S0 & S' & out & _ & _ & _ & _ & _ & Hshout & Hatt).
  destruct (merge_heads_shape _ _ B Sq out Hh Hd Hshout) as [Hmerge Hsm].
  fold hn dn in Hsm. rewrite HD, <- Io in Hsm.
  destruct (Linear_forward_shape _ B Sq _ Wo Hsm) as (y & Hy & Hsy).
  exists y. split; [|rewrite <- Oo; exact Hsy].
  unfold MultiHeadAttentionBlock.forward, bind.
  unfold lift at 1. rewrite Hquery.
  unfold lift at 1. rewrite Hkey.
  unfold lift at 1. rewrite Hvalue.
  unfold lift at 1. rewrite Hq4.
  unfold lift at 1. rewrite Hk4.
  unfold lift at 1. rewrite Hv4.
  rewrite Hatt.
  unfold lift at 1. rewrite Hmerge.
  unfold lift. rewrite Hy. reflexivity.
Qed.

Lemma MultiHeadAttentionBlock_init_wf
  (d_model h : Z) (dropout : R)
  (w0 : nat -> nat -> nat -> R) (b0 : nat -> nat -> R)
  (a : MultiHeadAttentionBlock.t) :
  MultiHeadAttentionBlock.init d_model h dropout w0 b0 = Ok a ->
  (0 < d_model)%Z -> (0 < h)%Z ->
  MultiHeadAttentionBlock_wf (Z.to_nat d_model) a.
Proof.
  unfold MultiHeadAttentionBlock.init. intros H Hd Hh.
  replace (h =? 0)%Z with false in H by (symmetry; apply Z.eqb_neq; lia).
  cbn [rbind] in H.
  destruct (d_model mod h =? 0)%Z eqn:Hmod; cbn [rbind] in H; try discriminate.
  apply Z.eqb_eq in Hmod.
  destruct (Linear.init d_model d_model (w0 0%nat) (b0 0%nat)) as [lq| |] eqn:Eq;
    cbn [rbind] in H; try discriminate.
  destruct (Linear.init d_model d_model (w0 1%nat) (b0 1%nat)) as [lk| |] eqn:Ek;
    cbn [rbind] in H; try discriminate.
  destruct (Linear.init d_model d_model (w0 2%nat) (b0 2%nat)) as [lv| |] eqn:Ev;
    cbn [rbind] in H; try discriminate.
  destruct (Linear.init d_model d_model (w0 3%nat) (b0 3%nat)) as [lo| |] eqn:Eo;
    cbn [rbind] in H; try discriminate.
  destruct (Dropout.init dropout) as [dr| |]; cbn [rbind] in H; try discriminate.
  injection H as <-.
  pose proof (Z.div_mod d_model h ltac:(lia)) as Hdiv.
  assert (Hk : (0 < d_model / h)%Z) by nia.
  unfold MultiHeadAttentionBlock_wf.
  cbn [MultiHeadAttentionBlock.h MultiHeadAttentionBlock.d_k
       MultiHeadAttentionBlock.w_q MultiHeadAttentionBlock.w_k
       MultiHeadAttentionBlock.w_v MultiHeadAttentionBlock.w_o].
  split; [exact Hh|]. split; [exact Hk|]. split; [nia|].
  repeat constructor;
    first [ apply (Linear_init_wf _ _ _ _ _ Eq) | apply (Linear_init_wf _ _ _ _ _ Ek)
          | apply (Linear_init_wf _ _ _ _ _ Ev) | apply (Linear_init_wf _ _ _ _ _ Eo) ].
Qed.

Lemma MultiHeadAttentionBlock_init_ok
  (d_model h : Z) (dropout : R)
  (w0 : nat -> nat -> nat -> R) (b0 : nat -> nat -> R) :
  0 <= dropout <= 1 -> (0 < d_model)%Z -> h <> 0%Z -> (d_model mod h = 0)%Z ->
  exists a, MultiHeadAttentionBlock.init d_model h dropout w0 b0 = Ok a /\
            MultiHeadAttentionBlock.h a = h /\
            MultiHeadAttentionBlock.d_k a = (d_model / h)%Z.
Proof.
  intros Hp Hd Hh Hm. unfold MultiHeadAttentionBlock.init.
  apply Z.eqb_neq in Hh. rewrite Hh. cbn [rbind].
  apply Z.eqb_eq in Hm. rewrite Hm. cbn [rbind].
  unfold Linear.init.
  replace (d_model <? 0)%Z with false by (symmetry; apply Z.ltb_ge; lia).
  cbn [orb rbind]. rewrite Dropout_init_ok by exact Hp. cbn [rbind].
  eexists. split; [reflexivity|]. split; reflexivity.
Qed.

Lemma MultiHeadAttentionBlock_init_fields
  (d_model h : Z) (dropout : R)
  (w0 : nat -> nat -> nat -> R) (b0 : nat -> nat -> R)
  (a : MultiHeadAttentionBlock.t) :
  MultiHeadAttentionBlock.init d_model h dropout w0 b0 = Ok a ->
  MultiHeadAttentionBlock.h a = h /\
  MultiHeadAttentionBlock.d_k a = (d_model / h)%Z.
Proof.
  unfold MultiHeadAttentionBlock.init. intros H.
  destruct (h =? 0)%Z; cbn [rbind] in H; try discriminate.
  destruct (d_model mod h =? 0)%Z; cbn [rbind] in H; try discriminate.
  destruct (Linear.init d_model d_model (w0 0%nat) (b0 0%nat)) as [lq| |];
    cbn [rbind] in H; try discriminate.
  destruct (Linear.init d_model d_model (w0 1%nat) (b0 1%nat)) as [lk| |];
    cbn [rbind] in H; try discriminate.
  destruct (Linear.init d_model d_model (w0 2%nat) (b0 2%nat)) as [lv| |];
    cbn [rbind] in H; try discriminate.
  destruct (Linear.init d_model d_model (w0 3%nat) (b0 3%nat)) as [lo| |];
    cbn [rbind] in H; try discriminate.
  destruct (Dropout.init dropout) as [dr| |]; cbn [rbind] in H; try discriminate.
  injection H as <-. split; reflexivity.
Qed.

(** X13: the attention block keeps the shape of its query.  For a block
    built by the constructor with [d_model > 0] and [h > 0] heads, queries
    [[B, Sq, d_model]], keys and values [[B, Sk, d_model]] (all axes
    non-empty) and a mask that is absent or expands to [[B, h, Sq, Sk]],
    [forward] in evaluation mode returns a tensor of shape
    [[B, Sq, d_model]] and leaves the random stream untouched. *)
Theorem MultiHeadAttentionBlock_forward_shape
  (d_model h : Z) (dropout : R)
  (w0 : nat -> nat -> nat -> R) (b0 : nat -> nat -> R)
  (a : MultiHeadAttentionBlock.t) (B Sq Sk : nat) (q k v : t3)
  (mask : option mask4) (s : Stream) :
  MultiHeadAttentionBlock.init d_model h dropout w0 b0 = Ok a ->
  (0 < d_model)%Z -> (0 < h)%Z ->
  (1 <= B)%nat -> (1 <= Sq)%nat -> (1 <= Sk)%nat ->
  shape3 B Sq (Z.to_nat d_model) q ->
  shape3 B Sk (Z.to_nat d_model) k ->
  shape3 B Sk (Z.to_nat d_model) v ->
  mask_fits B (Z.to_nat h) Sq Sk mask ->
  exists y,
    MultiHeadAttentionBlock.forward false a q k v mask s = Ok (y, s) /\
    shape3 B Sq (Z.to_nat d_model) y.
Proof.
  intros Hinit Hd Hh HB HSq HSk Hq Hk Hv Hm.
  pose proof (MultiHeadAttentionBlock_init_wf _ _ _ _ _ _ Hinit Hd Hh) as Hwf.
  destruct (MultiHeadAttentionBlock_init_fields _ _ _ _ _ _ Hinit) as [Hha _].
  rewrite <- Hha in Hm.
  exact (MultiHeadAttentionBlock_forward_shape_wf a B Sq Sk (Z.to_nat d_model)
           q k v mask s Hwf HB HSq HSk Hq Hk Hv Hm).
Qed.

Lemma MultiHeadAttentionBlock_forward_shape_witness :
  exists a y,
    MultiHeadAttentionBlock.init 4 2 0 (fun _ _ _ => 1) (fun _ _ => 0) = Ok a /\
    MultiHeadAttentionBlock.forward false a
      [[[1; 2; 3; 4]; [5; 6; 7; 8]]] [[[1; 2; 3; 4]; [5; 6; 7; 8]]]
      [[[1; 2; 3; 4]; [5; 6; 7; 8]]] None (fun _ => true)
    = Ok (y, fun _ => true) /\
    shape3 1 2 4 y.
Proof.
  destruct (MultiHeadAttentionBlock_init_ok 4 2 0
              (fun _ _ _ => 1) (fun _ _ => 0)) as (a & Ha & _);
    [lra | lia | lia | reflexivity |].
  assert (Hx : shape3 1 2 (Z.to_nat 4) [[[1; 2; 3; 4]; [5; 6; 7; 8]]])
    by (repeat constructor).
  destruct (MultiHeadAttentionBlock_forward_shape 4 2 0
              (fun _ _ _ => 1) (fun _ _ => 0) a 1 2 2
              _ _ _ None (fun _ => true) Ha ltac:(lia) ltac:(lia)
              ltac:(lia) ltac:(lia) ltac:(lia) Hx Hx Hx I) as (y & Hy & Hsy).
  exists a, y. split; [exact Ha|]. split; [exact Hy | exact Hsy].
Defined.

Lemma mapM_outcome (A B : Type) (f : A -> res B) (e : exn) (l : list A) :
  (forall a, (exists b, f a = Ok b) \/ f a = Raise e) ->
  (exists r, mapM f l = Ok r) \/ mapM f l = Raise e.
Proof.
  intros Hf. induction l as [|a l IH]; [left; eexists; reflexivity|].
  cbn [mapM]. destruct (Hf a) as [[b Hb] | Ha]; [|right; rewrite Ha; reflexivity].
  rewrite Hb. cbn [rbind].
  destruct IH as [[r Hr] | Hr]; rewrite Hr;
    [left; eexists; reflexivity | right; reflexivity].
Qed.

Lemma Linear_forward_outcome (l : Linear.t) (x : t3) :
  (exists y, Linear.forward l x = Ok y) \/ Linear.forward l x = Raise RuntimeError.
Proof.
  unfold Linear.forward. apply mapM_outcome. intros xb.
  apply mapM_outcome. intros tok. unfold Linear.forward_token.
  destruct (length tok =? Linear.in_features l)%nat;
    [left; eexists; reflexivity | right; reflexivity].
Qed.

(** X14: a block built with a negative number of heads can never be
    applied.  The constructor accepts [h < 0] when [h] divides [d_model > 0],
    but then [h] and [d_k = d_model // h] are negative sizes for [view], and
    [forward] raises [RuntimeError] on every input, in either mode. *)
Theorem MultiHeadAttentionBlock_negative_heads_forward_raises
  (d_model h : Z) (dropout : R)
  (w0 : nat -> nat -> nat -> R) (b0 : nat -> nat -> R)
  (a : MultiHeadAttentionBlock.t) :
  MultiHeadAttentionBlock.init d_model h dropout w0 b0 = Ok a ->
  (0 < d_model)%Z -> (h < 0)%Z ->
  (MultiHeadAttentionBlock.d_k a < 0)%Z /\
  forall training q k v mask s,
    MultiHeadAttentionBlock.forward training a q k v mask s = Raise RuntimeError.
Proof.
  intros Hinit Hd Hh.
  destruct (MultiHeadAttentionBlock_init_fields _ _ _ _ _ _ Hinit) as [Hha Hka].
  assert (Hneg : (MultiHeadAttentionBlock.d_k a < 0)%Z).
  { rewrite Hka.
    pose proof (Z.div_mod d_model h ltac:(lia)) as Hdm.
    pose proof (Z.mod_neg_bound d_model h Hh) as Hb. nia. }
  split; [exact Hneg|].
  intros training q k v mask s.
  assert (Hsplit : forall x, MultiHeadAttentionBlock.split_heads
                               (MultiHeadAttentionBlock.h a)
                               (MultiHeadAttentionBlock.d_k a) x
                             = Raise RuntimeError).
  { intros x. unfold MultiHeadAttentionBlock.split_heads. rewrite Hha.
    replace (h <? 0)%Z with true by (symmetry; apply Z.ltb_lt; exact Hh).
    reflexivity. }
  unfold MultiHeadAttentionBlock.forward, bind.
  destruct (Linear_forward_outcome (MultiHeadAttentionBlock.w_q a) q) as [[yq Hq] | Hq];
    unfold lift at 1; rewrite Hq; [|reflexivity].
  destruct (Linear_forward_outcome (MultiHeadAttentionBlock.w_k a) k) as [[yk Hk] | Hk];
    unfold lift at 1; rewrite Hk; [|reflexivity].
  destruct (Linear_forward_outcome (MultiHeadAttentionBlock.w_v a) v) as [[yv Hv] | Hv];
    unfold lift at 1; rewrite Hv; [|reflexivity].
  unfold lift at 1. rewrite Hsplit. reflexivity.
Qed.

Lemma MultiHeadAttentionBlock_negative_heads_forward_raises_witness :
  exists a,
    MultiHeadAttentionBlock.init 4 (-2) 0 (fun _ _ _ => 1) (fun _ _ => 0) = Ok a /\
    MultiHeadAttentionBlock.forward false a
      [[[1; 2; 3; 4]]] [[[1; 2; 3; 4]]] [[[1; 2; 3; 4]]] None (fun _ => true)
    = Raise RuntimeError.
Proof.
  destruct (MultiHeadAttentionBlock_init_ok 4 (-2) 0
              (fun _ _ _ => 1) (fun _ _ => 0)) as (a & Ha & _);
    [lra | lia | lia | reflexivity |].
  exists a. split; [exact Ha|].
  apply (MultiHeadAttentionBlock_negative_heads_forward_raises _ _ _ _ _ _ Ha); lia.
Defined.

(** ** Residual, EncoderBlock, Encoder: shapes *)

Lemma add3_shape (B B' S D : nat) (x y : t3) :
  shape3 B S D x -> shape3 B' S D y -> expands B' B ->
  exists z, add3 x y = Ok z /\ shape3 B S D z.
Proof.
  intros Hx Hy Hexp. unfold add3.
  apply (bcast_rows _ _ _ (bcast (bcast (fun a b : R => Ok (a + b)))) _ _
           (rows S (fun r : list R => length r = D)) _ _ _ _ Hx Hy Hexp).
  intros xb yb Hxb Hyb.
  apply (bcast_rows _ _ _ _ _ _ _ _ _ _ _ Hxb Hyb (or_introl eq_refl)).
  intros xr yr Hxr Hyr.
  destruct (bcast_rows _ _ _ (fun a b : R => Ok (a + b))
              (fun _ => True) (fun _ => True) (fun _ => True) D D xr yr)
    as (r & Hr & Hlen & _).
  - split; [exact Hxr | apply Forall_forall; intros; exact I].
  - split; [exact Hyr | apply Forall_forall; intros; exact I].
  - left; reflexivity.
  - intros a b _ _. eexists. split; [reflexivity | exact I].
  - exists r. split; assumption.
Qed.

Lemma Residual_forward_shape (r : Residual.t) (B S D : nat) (x : t3)
  (f : t3 -> M t3) (s : Stream) :
  (2 <= D)%nat -> shape3 B S D x ->
  (forall n, shape3 B S D n -> exists y, f n s = Ok (y, s) /\ shape3 B S D y) ->
  exists out, Residual.forward false r x f s = Ok (out, s) /\ shape3 B S D out.
Proof.
  intros HD Hx Hf.
  destruct (LayerNorm_forward_shape (Residual.norm r) B S D x HD Hx) as (n & Hn & Hsn).
  destruct (Hf n Hsn) as (y & Hy & Hsy).
  destruct (add3_shape B B S D x y Hx Hsy (or_introl eq_refl)) as (z & Hz & Hsz).
  exists z. split; [|exact Hsz].
  unfold Residual.forward, bind, lift. rewrite Hn, Hy.
  cbn [Dropout.forward3 ret]. rewrite Hz. reflexivity.
Qed.

Lemma EncoderBlock_forward_shape (b : EncoderBlock.t) (B S D : nat) (x : t3)
  (mask : option mask4) (s : Stream) :
  EncoderBlock_wf D b -> (2 <= D)%nat -> (1 <= B)%nat -> (1 <= S)%nat ->
  shape3 B S D x -> mask_fits B (heads_of b) S S mask ->
  exists y, EncoderBlock.forward false b x mask s = Ok (y, s) /\ shape3 B S D y.
Proof.
  intros [Ha Hff] HD HB HS Hx Hm.
  destruct (Residual_forward_shape (fst (EncoderBlock.residual_connections b))
              B S D x
              (fun x0 => MultiHeadAttentionBlock.forward false
                           (EncoderBlock.self_attention_block b) x0 x0 x0 mask)
              s HD Hx) as (y1 & Hy1 & Hs1).
  { intros n Hn.
    apply (MultiHeadAttentionBlock_forward_shape_wf _ B S S D); assumption. }
  destruct (Residual_forward_shape (snd (EncoderBlock.residual_connections b))
              B S D y1
              (FeedForwardBlock.forward false (EncoderBlock.feed_forward_block b))
              s HD Hs1) as (y2 & Hy2 & Hs2).
  { intros n Hn.
    destruct (FeedForwardBlock_forward_stages _ B S D n s Hff Hn)
      as (a0 & y & _ & _ & _ & Hsy & Hy).
    exists y. split; assumption. }
  exists y2. split; [|exact Hs2].
  unfold EncoderBlock.forward, bind. rewrite Hy1, Hy2. reflexivity.
Qed.

Lemma run_layers_shape (ls : list EncoderBlock.t) (B S D : nat) (x : t3)
  (mask : option mask4) (s : Stream) :
  Forall (EncoderBlock_wf D) ls ->
  Forall (fun b => mask_fits B (heads_of b) S S mask) ls ->
  (2 <= D)%nat -> (1 <= B)%nat -> (1 <= S)%nat -> shape3 B S D x ->
  exists y, Encoder.run_layers false ls x mask s = Ok (y, s) /\ shape3 B S D y.
Proof.
  intros Hwf Hm HD HB HS. revert x.
  induction ls as [|layer ls IH]; intros x Hx; cbn [Encoder.run_layers].
  - exists x. split; [reflexivity | exact Hx].
  - destruct (EncoderBlock_forward_shape layer B S D x mask s
                (Forall_inv Hwf) HD HB HS Hx (Forall_inv Hm)) as (y1 & Hy1 & Hs1).
    destruct (IH (Forall_inv_tail Hwf) (Forall_inv_tail Hm) y1 Hs1) as (y & Hy & Hsy).
    exists y. split; [|exact Hsy].
    unfold bind. rewrite Hy1. exact Hy.
Qed.

Lemma Encoder_forward_stages (e : Encoder.t) (B S D : nat) (x : t3)
  (mask : option mask4) (s : Stream) :
  Forall (EncoderBlock_wf D) (Encoder.layers e) ->
  Forall (fun b => mask_fits B (heads_of b) S S mask) (Encoder.layers e) ->
  (2 <= D)%nat -> (1 <= B)%nat -> (1 <= S)%nat -> shape3 B S D x ->
  exists x' y,
    shape3 B S D x' /\
    LayerNormalization.forward (Encoder.norm e) x' = Ok y /\
    shape3 B S D y /\
    Encoder.forward false e x mask s = Ok (y, s).
Proof.
  intros Hwf Hm HD HB HS Hx.
  destruct (run_layers_shape _ B S D x mask s Hwf Hm HD HB HS Hx) as (x' & Hx' & Hsx').
  destruct (LayerNorm_forward_shape (Encoder.norm e) B S D x' HD Hsx') as (y & Hy & Hsy).
  exists x', y. repeat (split; [assumption|]).
  unfold Encoder.forward, bind. rewrite Hx'. unfold lift. rewrite Hy. reflexivity.
Qed.

Lemma sum_list_map_affine (k c : R) (l : list R) :
  sum_list (map (fun a => k * a + c) l) = k * sum_list l + INR (length l) * c.
Proof.
  induction l as [|a l IH].
  - simpl. lra.
  - change (length (a :: l)) with (S (length l)). rewrite S_INR.
    rewrite map_cons, !sum_list_cons, IH. lra.
Qed.

Lemma LayerNorm_token_mean (ln : LayerNormalization.t) (x y : list R) :
  (2 <= length x)%nat ->
  LayerNormalization.forward_token ln x = Ok y ->
  rmean y = LayerNormalization.bias ln.
Proof.
  intros Hl H. rewrite forward_token_closed in H by exact Hl.
  injection H as <-.
  assert (Hx : x <> []) by (destruct x; [simpl in Hl; lia | congruence]).
  unfold rmean at 1. rewrite length_map.
  rewrite (sum_list_map_ext _
             (fun xi => (LayerNormalization.alpha ln
                         * / (sqrt (rvar x) + LayerNormalization.eps ln))
                        * (xi - rmean x) + LayerNormalization.bias ln)).
  2:{ intros a _. unfold Rdiv. ring. }
  rewrite <- (map_map (fun xi => xi - rmean x)
                (fun d => LayerNormalization.alpha ln
                          * / (sqrt (rvar x) + LayerNormalization.eps ln) * d
                          + LayerNormalization.bias ln)).
  rewrite sum_list_map_affine, length_map, sum_list_centered by exact Hx.
  assert (0 < INR (length x)) by (apply lt_0_INR; lia).
  generalize (LayerNormalization.alpha ln
              * / (sqrt (rvar x) + LayerNormalization.eps ln)).
  intros K. field. lra.
Qed.

(** X15: the encoder stack keeps the shape and ends normalised.  In
    evaluation mode, for layers of width [D >= 2] with positive head counts,
    an input of shape [[B, S, D]] (non-empty axes) and a mask that is absent
    or expands to the scores of every layer, [Encoder.forward] returns a
    tensor of shape [[B, S, D]], leaves the random stream untouched, and
    every output token has mean equal to the bias of the final norm. *)
Theorem Encoder_forward_shape (e : Encoder.t) (B S D : nat) (x : t3)
  (mask : option mask4) (s : Stream) :
  Forall (EncoderBlock_wf D) (Encoder.layers e) ->
  Forall (fun b => mask_fits B (heads_of b) S S mask) (Encoder.layers e) ->
  (2 <= D)%nat -> (1 <= B)%nat -> (1 <= S)%nat -> shape3 B S D x ->
  exists y,
    Encoder.forward false e x mask s = Ok (y, s) /\
    shape3 B S D y /\
    forall b i, (b < B)%nat -> (i < S)%nat ->
      rmean (nth i (nth b y []) []) = LayerNormalization.bias (Encoder.norm e).
Proof.
  intros Hwf Hm HD HB HS Hx.
  destruct (Encoder_forward_stages e B S D x mask s Hwf Hm HD HB HS Hx)
    as (x' & y & Hsx' & Hy & Hsy & Hfw).
  exists y. split; [exact Hfw|]. split; [exact Hsy|].
  intros b i Hb Hi.
  unfold LayerNormalization.forward in Hy.
  apply mapM_inv in Hy. destruct Hy as [_ H1].
  specialize (H1 b [] [] ltac:(destruct Hsx' as [-> _]; exact Hb)).
  apply mapM_inv in H1. destruct H1 as [_ H2].
  pose proof (rows_nth _ _ _ _ b [] Hsx' Hb) as Hxb.
  specialize (H2 i [] [] ltac:(destruct Hxb as [-> _]; exact Hi)).
  pose proof (rows_nth _ _ _ _ i [] Hxb Hi) as Htok. cbv beta in Htok.
  apply (LayerNorm_token_mean _ _ _ ltac:(rewrite Htok; exact HD) H2).
Qed.

Lemma Encoder_forward_shape_witness :
  exists a ff y,
    MultiHeadAttentionBlock.init 2 1 0 (fun _ _ _ => 1) (fun _ _ => 0) = Ok a /\
    FeedForwardBlock.init 2 3 0 (fun _ _ _ => 1) (fun _ _ => 0) = Ok ff /\
    Encoder.forward false (encoder (pipeline_small a ff)) [[[0; 2]; [1; 5]]] None
      (fun _ => true)
    = Ok (y, fun _ => true) /\
    shape3 1 2 2 y /\ rmean (nth 1 (nth 0 y []) []) = 0.
Proof.
  destruct (MultiHeadAttentionBlock_init_ok 2 1 0
              (fun _ _ _ => 1) (fun _ _ => 0)) as (a & Ha & _);
    [lra | lia | lia | reflexivity |].
  assert (Hff : exists ff,
             FeedForwardBlock.init 2 3 0 (fun _ _ _ => 1) (fun _ _ => 0) = Ok ff).
  { unfold FeedForwardBlock.init, Linear.init. cbn [Z.ltb Z.compare orb rbind].
    rewrite Dropout_init_ok by lra. eexists. reflexivity. }
  destruct Hff as [ff Hff].
  assert (Hwf : Forall (EncoderBlock_wf 2)
                  (Encoder.layers (encoder (pipeline_small a ff)))).
  { constructor; [|constructor]. split.
    - exact (MultiHeadAttentionBlock_init_wf _ _ _ _ _ _ Ha ltac:(lia) ltac:(lia)).
    - exact (FeedForwardBlock_init_wf _ _ _ _ _ _ Hff). }
  assert (Hm : Forall (fun b => mask_fits 1 (heads_of b) 2 2 None)
                 (Encoder.layers (encoder (pipeline_small a ff)))).
  { constructor; [exact I | constructor]. }
  assert (Hx : shape3 1 2 2 [[[0; 2]; [1; 5]]]) by (repeat constructor).
  destruct (Encoder_forward_shape (encoder (pipeline_small a ff)) 1 2 2
              [[[0; 2]; [1; 5]]] None (fun _ => true) Hwf Hm
              ltac:(lia) ltac:(lia) ltac:(lia) Hx) as (y & Hy & Hsy & Hmean).
  exists a, ff, y. repeat (split; [assumption|]).
  apply (Hmean 0%nat 1%nat); lia.
Defined.



(** ** The pipeline *)

Lemma PositionalEncoding_forward_shape (pe : PositionalEncoding.t) (table : list (list R))
  (B S D : nat) (x : t3) (s : Stream) :
  PositionalEncoding.positional_encoding pe = [table] ->
  Forall (fun r => length r = D) table ->
  (1 <= B)%nat -> (S <= length table)%nat -> shape3 B S D x ->
  exists y, PositionalEncoding.forward false pe x s = Ok (y, s) /\ shape3 B S D y.
Proof.
  intros Hpe Htab HB HS Hx.
  assert (Hs1 : shape1 x = S).
  { destruct Hx as [Hl HF]. destruct x as [|xb x]; [simpl in Hl; lia|].
    apply Forall_inv in HF. apply HF. }
  assert (Hslice : shape3 1 S D [firstn S table]).
  { split; [reflexivity|]. constructor; [|constructor].
    split; [rewrite length_firstn; lia|].
    rewrite Forall_forall in *. intros r Hr. apply Htab.
    exact (In_firstn _ _ _ _ Hr). }
  destruct (add3_shape B 1 S D x [firstn S table] Hx Hslice (or_intror eq_refl))
    as (z & Hz & Hsz).
  exists z. split; [|exact Hsz].
  unfold PositionalEncoding.forward, bind, lift.
  rewrite Hpe, Hs1. cbn [map]. rewrite Hz. reflexivity.
Qed.

(** X17: the shape invariant of the whole pipeline.  With dropout disabled,
    token ids of shape [[B, S]] inside the vocabulary, an embedding table
    and a positional table of width [D >= 2], [S] no longer than the
    positional table, and well-formed layers, the pipeline (embedding,
    positional encoding, encoder stack) returns a tensor of shape
    [[B, S, D]] and leaves the random stream untouched. *)
Theorem pipeline_forward_shape (m : Pipeline) (table : list (list R))
  (B S D : nat) (token_ids : list (list Z)) (mask : option mask4) (s : Stream) :
  (1 <= B)%nat -> (1 <= S)%nat -> (2 <= D)%nat ->
  rows B (fun row => length row = S) token_ids ->
  (forall row id, In row token_ids -> In id row ->
     (0 <= id < Z.of_nat (length (InputEmbedding.embedding (embedding m))))%Z) ->
  (0 <= InputEmbedding.d_model (embedding m))%Z ->
  Forall (fun r => length r = D) (InputEmbedding.embedding (embedding m)) ->
  PositionalEncoding.positional_encoding (pos_encoding m) = [table] ->
  Forall (fun r => length r = D) table ->
  (S <= length table)%nat ->
  Forall (EncoderBlock_wf D) (Encoder.layers (encoder m)) ->
  Forall (fun b => mask_fits B (heads_of b) S S mask) (Encoder.layers (encoder m)) ->
  exists y,
    pipeline_forward false m token_ids mask s = Ok (y, s) /\ shape3 B S D y.
Proof.
  intros HB HS HD Hids Hvalid Hd Hemb Hpe Htab HSL Hwf Hm.
  destruct (InputEmbedding_forward_closed _ token_ids B S D Hd Hvalid Hids Hemb)
    as [Hx0 Hsx0].
  destruct (PositionalEncoding_forward_shape _ table B S D _ s Hpe Htab HB HSL Hsx0)
    as (x1 & Hx1 & Hsx1).
  destruct (Encoder_forward_stages _ B S D x1 mask s Hwf Hm HD HB HS Hsx1)
    as (x' & y & _ & _ & Hsy & Hy).
  exists y. split; [|exact Hsy].
  unfold pipeline_forward, bind. unfold lift at 1. rewrite Hx0, Hx1. exact Hy.
Qed.

Lemma pipeline_forward_shape_witness :
  exists a ff y,
    MultiHeadAttentionBlock.init 2 1 0 (fun _ _ _ => 1) (fun _ _ => 0) = Ok a /\
    FeedForwardBlock.init 2 3 0 (fun _ _ _ => 1) (fun _ _ => 0) = Ok ff /\
    pipeline_forward false (pipeline_small a ff) [[1%Z; 0%Z]] None (fun _ => true)
    = Ok (y, fun _ => true) /\
    shape3 1 2 2 y.
Proof.
  destruct (MultiHeadAttentionBlock_init_ok 2 1 0
              (fun _ _ _ => 1) (fun _ _ => 0)) as (a & Ha & _);
    [lra | lia | lia | reflexivity |].
  assert (Hff : exists ff,
             FeedForwardBlock.init 2 3 0 (fun _ _ _ => 1) (fun _ _ => 0) = Ok ff).
  { unfold FeedForwardBlock.init, Linear.init. cbn [Z.ltb Z.compare orb rbind].
    rewrite Dropout_init_ok by lra. eexists. reflexivity. }
  destruct Hff as [ff Hff].
  assert (Hwf : Forall (EncoderBlock_wf 2)
                  (Encoder.layers (encoder (pipeline_small a ff)))).
  { constructor; [|constructor]. split.
    - exact (MultiHeadAttentionBlock_init_wf _ _ _ _ _ _ Ha ltac:(lia) ltac:(lia)).
    - exact (FeedForwardBlock_init_wf _ _ _ _ _ _ Hff). }
  assert (Hm : Forall (fun b => mask_fits 1 (heads_of b) 2 2 None)
                 (Encoder.layers (encoder (pipeline_small a ff)))).
  { constructor; [exact I | constructor]. }
  assert (Hids : rows 1 (fun row : list Z => length row = 2%nat) [[1%Z; 0%Z]])
    by (repeat constructor).
  assert (Hvalid : forall row id, In row [[1%Z; 0%Z]] -> In id row ->
            (0 <= id < Z.of_nat (length (InputEmbedding.embedding
                                           (embedding (pipeline_small a ff)))))%Z).
  { intros row id [<- | []] [<- | [<- | []]]; simpl; lia. }
  assert (Hemb : Forall (fun r : list R => length r = 2%nat)
                   (InputEmbedding.embedding (embedding (pipeline_small a ff))))
    by (repeat constructor).
  assert (Htab : Forall (fun r : list R => length r = 2%nat) [[0; 1]; [5; 7]])
    by (repeat constructor).
  destruct (pipeline_forward_shape (pipeline_small a ff) [[0; 1]; [5; 7]] 1 2 2
              [[1%Z; 0%Z]] None (fun _ => true)
              ltac:(lia) ltac:(lia) ltac:(lia) Hids Hvalid ltac:(simpl; lia) Hemb
              eq_refl Htab ltac:(simpl; lia) Hwf Hm) as (y & Hy & Hsy).
  exists a, ff, y. repeat (split; [assumption|]). exact Hsy.
Defined.


(** ** Shape errors *)

(** X19: a token of the wrong width is refused.  If the first token of the
    input does not have the width the first linear layer expects, the
    feed-forward block raises [RuntimeError], and so does the attention
    block when the first token of its query does not fit [w_q]; in either
    mode and without drawing from the random stream. *)
Theorem forward_width_mismatch_raises
  (tok : list R) (xb : list (list R)) (x : t3) :
  (forall ff training s,
     length tok <> Linear.in_features (FeedForwardBlock.linear_1 ff) ->
     FeedForwardBlock.forward training ff ((tok :: xb) :: x) s = Raise RuntimeError) /\
  (forall a training k v mask s,
     length tok <> Linear.in_features (MultiHeadAttentionBlock.w_q a) ->
     MultiHeadAttentionBlock.forward training a ((tok :: xb) :: x) k v mask s
     = Raise RuntimeError).
Proof.
  split.
  - intros ff training s Hneq.
    unfold FeedForwardBlock.forward, bind, lift, Linear.forward.
    cbn [mapM]. rewrite Linear_forward_token_mismatch by exact Hneq. reflexivity.
  - intros a training k v mask s Hneq.
    unfold MultiHeadAttentionBlock.forward, bind.
    unfold lift at 1. unfold Linear.forward at 1.
    cbn [mapM]. rewrite Linear_forward_token_mismatch by exact Hneq. reflexivity.
Qed.

Lemma forward_width_mismatch_raises_witness :
  exists ff,
    FeedForwardBlock.init 2 3 0 (fun _ _ _ => 1) (fun _ _ => 0) = Ok ff /\
    FeedForwardBlock.forward false ff [[[1; 2; 3]]] (fun _ => true)
    = Raise RuntimeError.
Proof.
  assert (Hff : exists ff,
             FeedForwardBlock.init 2 3 0 (fun _ _ _ => 1) (fun _ _ => 0) = Ok ff).
  { unfold FeedForwardBlock.init, Linear.init. cbn [Z.ltb Z.compare orb rbind].
    rewrite Dropout_init_ok by lra. eexists. reflexivity. }
  destruct Hff as [ff Hff]. exists ff. split; [exact Hff|].
  destruct (FeedForwardBlock_init_wf _ _ _ _ _ _ Hff) as (_ & _ & Hin & _).
  destruct (forward_width_mismatch_raises [1; 2; 3] [] []) as [H _].
  apply H. rewrite Hin. simpl. lia.
Defined.

Lemma rows_head (A : Type) (n : nat) (P : A -> Prop) (l : list A) :
  (1 <= n)%nat -> rows n P l -> exists x0 l', l = x0 :: l' /\ P x0.
Proof.
  intros Hn [Hl HF]. destruct l as [|x0 l']; [simpl in Hl; lia|].
  exists x0, l'. split; [reflexivity|]. exact (Forall_inv HF).
Qed.

Lemma bcast_first_raise (A B C : Type) (f : A -> B -> res C)
  (x0 : A) (xs : list A) (y0 : B) (ys : list B) (e : exn) :
  expands (length (y0 :: ys)) (length (x0 :: xs)) ->
  f x0 y0 = Raise e ->
  bcast f (x0 :: xs) (y0 :: ys) = Raise e.
Proof.
  intros Hexp Hf. unfold bcast.
  destruct (length (x0 :: xs) =? length (y0 :: ys))%nat eqn:E.
  - cbn [mapM2]. rewrite Hf. reflexivity.
  - apply Nat.eqb_neq in E. destruct Hexp as [Hexp | Hexp]; [congruence|].
    destruct ys as [|y1 ys]; [|simpl in Hexp; lia].
    destruct xs as [|x1 xs]; [simpl in E; congruence|].
    cbn [mapM]. rewrite Hf. reflexivity.
Qed.

(** X20: a mask that does not broadcast is refused.  On well-shaped query,
    key and value, a mask whose last extent is neither the number of key
    positions nor 1 (with more than one key position) makes [attention]
    raise [RuntimeError], in either mode and before any weight is
    computed. *)
Theorem attention_mask_mismatch_raises
  (B H Sq Sk dk : nat) (query key value : t4)
  (mb mh mq mk : nat) (m : mask4) :
  (1 <= B)%nat -> (1 <= H)%nat -> (1 <= Sq)%nat -> (1 <= dk)%nat ->
  shape4 B H Sq dk query -> shape4 B H Sk dk key ->
  shape4 mb mh mq mk m ->
  expands mb B -> expands mh H -> expands mq Sq ->
  mk <> Sk -> mk <> 1%nat -> Sk <> 1%nat ->
  MultiHeadAttentionBlock.attention_weights query key (Some m) = Raise RuntimeError /\
  forall training dropout s,
    MultiHeadAttentionBlock.attention training query key value (Some m) dropout s
    = Raise RuntimeError.
Proof.
  intros HB HH HSq Hdk Hq Hk Hm Hmb Hmh Hmq Hne Hmk1 HSk1.
  destruct (attention_scores_shape B H Sq Sk dk query key HB HH HSq Hdk Hq Hk)
    as (S & HS & HshS).
  assert (Hmb1 : (1 <= mb)%nat) by (destruct Hmb; lia).
  assert (Hmh1 : (1 <= mh)%nat) by (destruct Hmh; lia).
  assert (Hmq1 : (1 <= mq)%nat) by (destruct Hmq; lia).
  assert (Hfill : MultiHeadAttentionBlock.masked_fill S m = Raise RuntimeError).
  { unfold MultiHeadAttentionBlock.masked_fill.
    pose proof HshS as HshS0. pose proof Hm as Hm0.
    destruct (rows_head _ _ _ _ HB HshS) as (Sb & S1 & -> & HSb).
    destruct (rows_head _ _ _ _ Hmb1 Hm) as (Mb & M1 & -> & HMb).
    apply bcast_first_raise.
    { destruct HshS0 as [-> _]. destruct Hm0 as [-> _]. exact Hmb. }
    pose proof HSb as HSb0. pose proof HMb as HMb0.
    destruct (rows_head _ _ _ _ HH HSb) as (Sh & S2 & -> & HSh).
    destruct (rows_head _ _ _ _ Hmh1 HMb) as (Mh & M2 & -> & HMh).
    apply bcast_first_raise.
    { destruct HSb0 as [-> _]. destruct HMb0 as [-> _]. exact Hmh. }
    pose proof HSh as HSh0. pose proof HMh as HMh0.
    destruct (rows_head _ _ _ _ HSq HSh) as (row & S3 & -> & Hrow).
    destruct (rows_head _ _ _ _ Hmq1 HMh) as (mrow & M3 & -> & Hmrow).
    apply bcast_first_raise.
    { destruct HSh0 as [-> _]. destruct HMh0 as [-> _]. exact Hmq. }
    cbv beta in Hrow, Hmrow.
    apply bcast_incompatible; rewrite ?Hrow, ?Hmrow; congruence. }
  assert (HW : MultiHeadAttentionBlock.attention_weights query key (Some m)
               = Raise RuntimeError).
  { unfold MultiHeadAttentionBlock.attention_weights. rewrite HS. cbn [rbind].
    cbn [MultiHeadAttentionBlock.apply_mask]. rewrite Hfill. reflexivity. }
  split; [exact HW|].
  intros training dropout s.
  unfold MultiHeadAttentionBlock.attention, MultiHeadAttentionBlock.attention_probs,
    bind, lift.
  rewrite HW. reflexivity.
Qed.

Lemma attention_mask_mismatch_raises_witness :
  MultiHeadAttentionBlock.attention true
    [[[[1]]]] [[[[1]; [2]; [3]]]] [[[[3]; [5]; [7]]]]
    (Some [[[[0%Z; 1%Z]]]]) None (fun _ => true)
  = Raise RuntimeError.
Proof.
  assert (Hq : shape4 1 1 1 1 [[[[1]]]]) by (repeat constructor).
  assert (Hk : shape4 1 1 3 1 [[[[1]; [2]; [3]]]]) by (repeat constructor).
  assert (Hm : shape4 1 1 1 2 [[[[0%Z; 1%Z]]]]) by (repeat constructor).
  apply (attention_mask_mismatch_raises 1 1 1 3 1
           [[[[1]]]] [[[[1]; [2]; [3]]]] [[[[3]; [5]; [7]]]] 1 1 1 2
           [[[[0%Z; 1%Z]]]]
           ltac:(lia) ltac:(lia) ltac:(lia) ltac:(lia) Hq Hk Hm
           (or_introl eq_refl) (or_introl eq_refl) (or_introl eq_refl)
           ltac:(lia) ltac:(lia) ltac:(lia)).
Defined.
